(** * Gaming Platform API: challenge negotiation, result settlement, leaderboard

    A shallow embedding of [main.py] and [schemas.py].  Documents are records
    whose dict-valued fields ([stats], [approvals]) are finite maps, the
    MongoDB collections are lists of [(_id, document)] pairs in insertion
    order, and every request handler is a function in a state-and-exception
    monad over the database.  The [stats] of a team is the dict the request
    gave: its values are any JSON values, and Python's [+] and [list.sort]
    raise [TypeError] on those they cannot add or order. *)

From Stdlib Require Import ZArith Ascii Floats.
From stdpp Require Import gmap strings list sorting pretty.

Local Open Scope Z_scope.

(** ** Exceptions *)

(** [HTTPException(status_code, detail)] is what the handlers raise themselves;
    [ValidationError] is what a pydantic model raises when a field has the
    wrong type, [TypeError] what Python raises when an operand of [+] or of
    [<] has the wrong type (both surfaced by FastAPI as an internal error). *)
Inductive Exception : Type :=
| HTTPException (status_code : Z) (detail : string)
| ValidationError (model field : string)
| TypeError.

#[global] Instance Exception_eq_dec : EqDecision Exception.
Proof. solve_decision. Defined.

(** The error kinds of the specification, read off the [detail] strings. *)
Definition InvalidId : Exception := HTTPException 400 "Invalid id format".
Definition InvalidReference : Exception := HTTPException 400 "Both teams must exist".
Definition NotFound (what : string) : Exception := HTTPException 404 (what +:+ " not found").

Definition ConstraintViolation_details : list string :=
  [ "Teams must be from the same country";
    "Both teams must play the same game";
    "Challenge not eligible for booking";
    "Winner must be one of the teams in the challenge";
    "Country is required for local leaderboard" ].

Definition ConstraintViolation (e : Exception) : Prop :=
  ∃ d, e = HTTPException 400 d ∧ d ∈ ConstraintViolation_details.

(** ** Schemas ([schemas.py]) *)

Definition datetime : Type := string.

Inductive MatchFormat : Type := BO1 | BO2 | BO3 | BO5.

(** Python truthiness of a [str] and of an [Optional[str]]. *)
Definition truthy (s : string) : bool := negb (String.eqb s "").
Definition truthy_opt (o : option string) : bool :=
  match o with Some s => truthy s | None => false end.

(** A value of a [dict] field that comes from the request body, as JSON
    gives it to Python and the store gives it back: [None], a [bool], an
    [int] of any size, a [float], a [str], a list or a dict. *)
#[warnings="-register-all"]
Inductive Any : Type :=
| ANone
| ABool (b : bool)
| AInt (z : Z)
| AFloat (f : float)
| AStr (s : string)
| AList (l : list Any)
| ADict (d : gmap string Any).

(** [v + n] for an [int] [n] (1 or 3 in [main.py]): an [int] stays an [int],
    a [bool] counts as 0 or 1, a [float] takes the [int] as a [float]; [None],
    a [str], a list and a dict raise [TypeError]. *)
Definition add (v : Any) (n : Z) : Exception + Any :=
  match v with
  | AInt z => inr (AInt (z + n))
  | ABool b => inr (AInt (Z.b2z b + n))
  | AFloat f => inr (AFloat (PrimFloat.add f (PrimFloat.of_uint63 (Uint63.of_Z n))))
  | ANone | AStr _ | AList _ | ADict _ => inl TypeError
  end.

(** The values [+] raises on. *)
Definition unaddable (v : Any) : bool :=
  match v with ANone | AStr _ | AList _ | ADict _ => true | _ => false end.

(** Python orders a value only with values of its own kind (the numbers, a
    [bool] among them, being one kind): [<] between two kinds raises
    [TypeError], and [==] between them is false. *)
Inductive Kind : Type := KNone | KNumber | KStr | KList | KDict.

#[global] Instance Kind_eq_dec : EqDecision Kind.
Proof. solve_decision. Defined.

Definition kind (v : Any) : Kind :=
  match v with
  | ANone => KNone
  | ABool _ | AInt _ | AFloat _ => KNumber
  | AStr _ => KStr
  | AList _ => KList
  | ADict _ => KDict
  end.

(** The five counters of [stats]. *)
Definition counters : list string := ["matches"; "wins"; "losses"; "draws"; "points"].

(** The value under a key is an [int], or the key is missing (and
    [d.get(k, 0)] is the [int] 0). *)
Definition is_int (o : option Any) : bool :=
  match o with None | Some (AInt _) => true | Some _ => false end.

(** [d.get(k, 0)] when it is an [int]; 0 stands for any other value, and
    the statements that read an arbitrary dict through [get0] ask for
    [is_int] beside it. *)
Definition get0 (d : gmap string Any) (k : string) : Z :=
  match d !! k with Some (AInt z) => z | _ => 0 end.

Module Team.

Definition default_stats : gmap string Any :=
  <["matches" := AInt 0]> (<["wins" := AInt 0]> (<["losses" := AInt 0]>
    (<["draws" := AInt 0]> (<["points" := AInt 0]> ∅)))).

Record t : Type := mk {
  name : string;
  game : string;
  country : string;
  captain_user_id : string;
  member_user_ids : list string;
  achievements : list string;
  stats : gmap string Any
}.

Definition set_member_user_ids (l : list string) (x : t) : t :=
  mk (name x) (game x) (country x) (captain_user_id x) l (achievements x) (stats x).

Definition set_stats (s : gmap string Any) (x : t) : t :=
  mk (name x) (game x) (country x) (captain_user_id x) (member_user_ids x)
     (achievements x) s.

End Team.

Module Venue.

Record t : Type := mk {
  name : string;
  address : string;
  city : option string;
  country : string;
  contact_email : option string;
  contact_phone : option string;
  admin_user_id : option string
}.

End Venue.

Module Challenge.

Inductive Status : Type :=
| proposed | negotiating | approved | booked | completed | rejected | cancelled.

#[global] Instance Status_eq_dec : EqDecision Status.
Proof. solve_decision. Defined.

Record t : Type := mk {
  challenger_team_id : string;
  opponent_team_id : string;
  game : string;
  country : string;
  proposed_datetime : option datetime;
  format : MatchFormat;
  venue_id : option string;
  status : Status;
  approvals : gmap string bool;
  notes : option string
}.

(** One key of a [{"$set": {...}}] update on a challenge document. *)
Inductive assignment : Type :=
| set_proposed_datetime (d : datetime)
| set_format (f : MatchFormat)
| set_venue_id (v : string)
| set_status (s : Status)
| set_approvals (a : gmap string bool)
| set_notes (n : string).

Definition assign (x : t) (a : assignment) : t :=
  match a with
  | set_proposed_datetime d =>
      mk (challenger_team_id x) (opponent_team_id x) (game x) (country x)
         (Some d) (format x) (venue_id x) (status x) (approvals x) (notes x)
  | set_format f =>
      mk (challenger_team_id x) (opponent_team_id x) (game x) (country x)
         (proposed_datetime x) f (venue_id x) (status x) (approvals x) (notes x)
  | set_venue_id v =>
      mk (challenger_team_id x) (opponent_team_id x) (game x) (country x)
         (proposed_datetime x) (format x) (Some v) (status x) (approvals x) (notes x)
  | set_status s =>
      mk (challenger_team_id x) (opponent_team_id x) (game x) (country x)
         (proposed_datetime x) (format x) (venue_id x) s (approvals x) (notes x)
  | set_approvals a =>
      mk (challenger_team_id x) (opponent_team_id x) (game x) (country x)
         (proposed_datetime x) (format x) (venue_id x) (status x) a (notes x)
  | set_notes n =>
      mk (challenger_team_id x) (opponent_team_id x) (game x) (country x)
         (proposed_datetime x) (format x) (venue_id x) (status x) (approvals x) (Some n)
  end.

(** [{"$set": update}]: the keys of the dict are distinct, so the order in
    which they are merged into the document does not matter. *)
Definition set (update : list assignment) (x : t) : t := foldl assign x update.

(** The states the specification calls terminal. *)
Definition terminal (s : Status) : bool :=
  match s with completed | rejected | cancelled => true | _ => false end.

End Challenge.

Module Booking.

Inductive Status : Type := pending | confirmed | cancelled.

#[global] Instance Status_eq_dec : EqDecision Status.
Proof. solve_decision. Defined.

Record t : Type := mk {
  challenge_id : string;
  venue_id : string;
  start_datetime : datetime;
  end_datetime : option datetime;
  status : Status
}.

Definition set_status (s : Status) (x : t) : t :=
  mk (challenge_id x) (venue_id x) (start_datetime x) (end_datetime x) s.

End Booking.

Module Match.

Inductive Status : Type := scheduled | completed.

Record Result : Type := mk_result {
  winner_team_id : string;
  score_a : Z;
  score_b : Z
}.

Record t : Type := mk {
  challenge_id : string;
  venue_id : string;
  game : string;
  format : MatchFormat;
  team_a_id : string;
  team_b_id : string;
  result : option Result;
  status : Status
}.

End Match.

(** ** Request bodies ([main.py]), after pydantic has parsed them *)

Module ProposeChallengeRequest.

Record t : Type := mk {
  challenger_team_id : string;
  opponent_team_id : string;
  game : string;
  country : string;
  proposed_datetime : option datetime;
  format : MatchFormat;
  venue_id : option string;
  notes : option string
}.

End ProposeChallengeRequest.

Module NegotiateChallengeRequest.

Record t : Type := mk {
  proposed_datetime : option datetime;
  format : option MatchFormat;
  venue_id : option string;
  notes : option string
}.

End NegotiateChallengeRequest.

(** [ApproveRequest.team_role], a string matching [^(challenger|opponent)$]. *)
Inductive team_role : Type := challenger | opponent.

Definition role_key (r : team_role) : string :=
  match r with challenger => "challenger" | opponent => "opponent" end.

Module CreateBookingRequest.

Record t : Type := mk {
  venue_id : string;
  start_datetime : datetime;
  end_datetime : option datetime
}.

End CreateBookingRequest.

Module RecordResultRequest.

Record t : Type := mk {
  challenge_id : string;
  winner_team_id : string;
  score_a : Z;
  score_b : Z
}.

End RecordResultRequest.

(** [scope] of the leaderboard query, a string matching [^(local|global)$]. *)
Inductive Scope : Type := local | global.

#[global] Instance Scope_eq_dec : EqDecision Scope.
Proof. solve_decision. Defined.

(** One entry of the leaderboard's answer. *)
Module Row.

Record t : Type := mk {
  id : string;
  name : string;
  game : string;
  country : string;
  stats : gmap string Any
}.

End Row.

(** ** Python

    Two things the handlers ask of Python are left open, and every theorem
    holds whatever they are.  [pystr] is [str(v)] of a JSON value.  [sort_keys]
    is [list.sort(key=..., reverse=True)] on keys that are not all pairs of
    [int]s: it raises [TypeError] when it compares two keys that Python cannot
    order, and otherwise answers the positions of the elements in their new
    order; which keys it compares is a matter of its algorithm.  (On pairs of
    [int]s the sort is [sort_desc] below.)  What is known of it: an answer
    rearranges the list; and since a sort of two elements or more compares
    every element with another one at least once, it raises when the first
    component of one key is of another kind than that of every other key. *)
Class Python : Type := {
  pystr : Any → string;
  sort_keys : list (Any * Any) → Exception + list nat;
  sort_keys_Permutation :
    ∀ keys order, sort_keys keys = inr order → order ≡ₚ seq 0 (length keys);
  sort_keys_TypeError :
    ∀ keys i k,
      keys !! i = Some k →
      (2 ≤ length keys)%nat →
      (∀ j k', j ≠ i → keys !! j = Some k' → kind k'.1 ≠ kind k.1) →
      sort_keys keys = inl TypeError
}.

(** ** The document store *)

(** Modelled from the spec: [database.py] ([db], [create_document]) and the
    [bson.ObjectId] it keys documents with are not among the sources.  The
    specification describes a store that generates a unique identifier on
    insert, finds a document by identifier and merges fields into a stored
    document; identifiers travel as strings, and a malformed string is
    rejected.  [ObjectId_of] is [ObjectId(id_str)] ([None] when it raises),
    [str] is [str(_id)], [generate] picks the identifier of a new document
    from the identifiers already in the collection.  The specification gives
    no order to the documents a filtered scan ([find_many]) answers with:
    [arrange] is the order the store chooses, some rearrangement of the
    documents that match. *)
Class Bson : Type := {
  ObjectId : Type;
  ObjectId_eq_dec :: EqDecision ObjectId;
  ObjectId_of : string → option ObjectId;
  str : ObjectId → string;
  generate : list ObjectId → ObjectId;
  arrange : ∀ {D : Type}, list (ObjectId * D) → list (ObjectId * D);
  ObjectId_of_str : ∀ i, ObjectId_of (str i) = Some i;
  generate_fresh : ∀ l, generate l ∉ l;
  arrange_Permutation : ∀ D (l : list (ObjectId * D)), arrange l ≡ₚ l
}.

Section Store.
Context `{Bson} `{Python}.

(** A collection: its documents with their [_id], in insertion order. *)
Definition Collection (D : Type) : Type := list (ObjectId * D).

(** [find_one({"_id": i})]: the first document with that [_id]. *)
Fixpoint find_one {D} (c : Collection D) (i : ObjectId) : option (ObjectId * D) :=
  match c with
  | [] => None
  | (j, d) :: c' => if decide (j = i) then Some (j, d) else find_one c' i
  end.

(** [update_one({"_id": i}, ...)]: rewrites the first document with that
    [_id], and nothing when there is none. *)
Fixpoint update_one {D} (c : Collection D) (i : ObjectId) (f : D → D) : Collection D :=
  match c with
  | [] => []
  | (j, d) :: c' => if decide (j = i) then (j, f d) :: c' else (j, d) :: update_one c' i f
  end.

Definition insert_one {D} (c : Collection D) (d : D) : Collection D * ObjectId :=
  let i := generate (fst <$> c) in (c ++ [(i, d)], i).

Record DB : Type := mkDB {
  db_team : Collection Team.t;
  db_venue : Collection Venue.t;
  db_challenge : Collection Challenge.t;
  db_booking : Collection Booking.t;
  db_match : Collection Match.t
}.

(** [db[name]]: a collection of the database, to read and to write back. *)
Record Coll (D : Type) : Type := mkColl {
  get : DB → Collection D;
  put : Collection D → DB → DB
}.
Arguments get {D} _ _.
Arguments put {D} _ _ _.

Definition team : Coll Team.t :=
  mkColl _ db_team
    (λ c db, mkDB c (db_venue db) (db_challenge db) (db_booking db) (db_match db)).
Definition venue : Coll Venue.t :=
  mkColl _ db_venue
    (λ c db, mkDB (db_team db) c (db_challenge db) (db_booking db) (db_match db)).
Definition challenge : Coll Challenge.t :=
  mkColl _ db_challenge
    (λ c db, mkDB (db_team db) (db_venue db) c (db_booking db) (db_match db)).
Definition booking : Coll Booking.t :=
  mkColl _ db_booking
    (λ c db, mkDB (db_team db) (db_venue db) (db_challenge db) c (db_match db)).
Definition match_ : Coll Match.t :=
  mkColl _ db_match
    (λ c db, mkDB (db_team db) (db_venue db) (db_challenge db) (db_booking db) c).

(** ** Handlers run against the database and may raise

    A raised exception keeps the writes made before it: the store has no
    transactions. *)
Definition M (A : Type) : Type := DB → (Exception + A) * DB.

#[global] Instance M_ret : MRet M := λ A a db, (inr a, db).
#[global] Instance M_bind : MBind M := λ A B f m db,
  match m db with
  | (inl e, db') => (inl e, db')
  | (inr a, db') => f a db'
  end.

Definition raise {A} (e : Exception) : M A := λ db, (inl e, db).
Definition reading {A} (f : DB → A) : M A := λ db, (inr (f db), db).
Definition writing (f : DB → DB) : M unit := λ db, (inr (), f db).

(** [oid] of [main.py]. *)
Definition oid (id_str : string) : M ObjectId :=
  match ObjectId_of id_str with
  | Some i => mret i
  | None => raise InvalidId
  end.

(** [db[c].find_one({"_id": oid(id_str)})] *)
Definition find_by_id {D} (c : Coll D) (id_str : string) : M (option (ObjectId * D)) :=
  i ← oid id_str; reading (λ db, find_one (get c db) i).

(** [db[c].update_one({"_id": oid(id_str)}, {"$set": ...})] *)
Definition update_by_id {D} (c : Coll D) (id_str : string) (f : D → D) : M unit :=
  i ← oid id_str; writing (λ db, put c (update_one (get c db) i f) db).

(** [create_document(c, payload)]: the new document's identifier, as a string. *)
Definition create_document {D} (c : Coll D) (payload : D) : M string :=
  λ db, let '(c', i) := insert_one (get c db) payload in (inr (str i), put c c' db).

(** [serialize]: the document with its [_id] turned into a string. *)
Definition serialize {D} (doc : option (ObjectId * D)) : option (string * D) :=
  prod_map str id <$> doc.

(** ** Teams *)

Definition create_team (payload : Team.t) : M (option (string * Team.t)) :=
  let payload :=
    if truthy (Team.captain_user_id payload)
       && negb (bool_decide (Team.captain_user_id payload ∈ Team.member_user_ids payload))
    then Team.set_member_user_ids
           (Team.member_user_ids payload ++ [Team.captain_user_id payload]) payload
    else payload in
  team_id ← create_document team payload;
  doc ← find_by_id team team_id;
  mret (serialize doc).


(** ** Challenges and negotiation *)

Definition no_approvals : gmap string bool :=
  <["challenger" := false]> (<["opponent" := false]> ∅).

Definition propose_challenge (payload : ProposeChallengeRequest.t)
  : M (option (string * Challenge.t)) :=
  t1 ← find_by_id team (ProposeChallengeRequest.challenger_team_id payload);
  t2 ← find_by_id team (ProposeChallengeRequest.opponent_team_id payload);
  match t1, t2 with
  | Some (_, t1), Some (_, t2) =>
      if bool_decide (Team.country t1 ≠ Team.country t2
                      ∨ Team.country t1 ≠ ProposeChallengeRequest.country payload)
      then raise (HTTPException 400 "Teams must be from the same country")
      else if bool_decide (Team.game t1 ≠ Team.game t2
                           ∨ Team.game t1 ≠ ProposeChallengeRequest.game payload)
      then raise (HTTPException 400 "Both teams must play the same game")
      else
        let ch := Challenge.mk
          (ProposeChallengeRequest.challenger_team_id payload)
          (ProposeChallengeRequest.opponent_team_id payload)
          (ProposeChallengeRequest.game payload)
          (ProposeChallengeRequest.country payload)
          (ProposeChallengeRequest.proposed_datetime payload)
          (ProposeChallengeRequest.format payload)
          (ProposeChallengeRequest.venue_id payload)
          Challenge.proposed
          no_approvals
          (ProposeChallengeRequest.notes payload) in
        cid ← create_document challenge ch;
        doc ← find_by_id challenge cid;
        mret (serialize doc)
  | _, _ => raise (HTTPException 400 "Both teams must exist")
  end.

(** [update[key] = value] when the optional field of the request is present. *)
Definition if_present {A} (o : option A) (k : A → Challenge.assignment)
  : list Challenge.assignment :=
  match o with Some a => [k a] | None => [] end.

Definition negotiate_challenge (challenge_id : string)
    (payload : NegotiateChallengeRequest.t) : M (option (string * Challenge.t)) :=
  ch ← find_by_id challenge challenge_id;
  match ch with
  | None => raise (HTTPException 404 "Challenge not found")
  | Some _ =>
      let update :=
        [Challenge.set_status Challenge.negotiating]
        ++ if_present (NegotiateChallengeRequest.proposed_datetime payload)
             Challenge.set_proposed_datetime
        ++ if_present (NegotiateChallengeRequest.format payload) Challenge.set_format
        ++ if_present (NegotiateChallengeRequest.venue_id payload) Challenge.set_venue_id
        ++ if_present (NegotiateChallengeRequest.notes payload) Challenge.set_notes
        (* Reset approvals on any change *)
        ++ [Challenge.set_approvals no_approvals] in
      update_by_id challenge challenge_id (Challenge.set update);;
      doc ← find_by_id challenge challenge_id;
      mret (serialize doc)
  end.

(** Truthiness of [approvals.get(key)]. *)
Definition approved_by (approvals : gmap string bool) (key : string) : bool :=
  default false (approvals !! key).

Definition approve_challenge (challenge_id : string) (role : team_role)
  : M (option (string * Challenge.t)) :=
  ch ← find_by_id challenge challenge_id;
  match ch with
  | None => raise (HTTPException 404 "Challenge not found")
  | Some (_, ch) =>
      let approvals := <[role_key role := true]> (Challenge.approvals ch) in
      let status :=
        if approved_by approvals "challenger" && approved_by approvals "opponent"
        then Challenge.approved else Challenge.status ch in
      update_by_id challenge challenge_id
        (Challenge.set [Challenge.set_approvals approvals; Challenge.set_status status]);;
      doc ← find_by_id challenge challenge_id;
      mret (serialize doc)
  end.

(** ** Booking flow *)

Definition create_booking_for_challenge (challenge_id : string)
    (payload : CreateBookingRequest.t) : M (option (string * Booking.t)) :=
  ch ← find_by_id challenge challenge_id;
  match ch with
  | None => raise (HTTPException 404 "Challenge not found")
  | Some (_, ch) =>
      if negb (bool_decide (Challenge.status ch ∈
                 [Challenge.approved; Challenge.negotiating; Challenge.proposed]))
      then raise (HTTPException 400 "Challenge not eligible for booking")
      else
        let booking_doc := Booking.mk challenge_id
          (CreateBookingRequest.venue_id payload)
          (CreateBookingRequest.start_datetime payload)
          (CreateBookingRequest.end_datetime payload)
          Booking.pending in
        bid ← create_document booking booking_doc;
        update_by_id challenge challenge_id
          (Challenge.set [Challenge.set_status Challenge.booked;
                          Challenge.set_venue_id (CreateBookingRequest.venue_id payload)]);;
        doc ← find_by_id booking bid;
        mret (serialize doc)
  end.

Definition confirm_booking (booking_id : string) (confirm : bool)
  : M (option (string * Booking.t)) :=
  bk ← find_by_id booking booking_id;
  match bk with
  | None => raise (HTTPException 404 "Booking not found")
  | Some (_, bk) =>
      let new_status := if confirm then Booking.confirmed else Booking.cancelled in
      update_by_id booking booking_id (Booking.set_status new_status);;
      (* Keep challenge in booked unless cancelled *)
      (if bool_decide (new_status = Booking.cancelled)
       then update_by_id challenge (Booking.challenge_id bk)
              (Challenge.set [Challenge.set_status Challenge.approved])
       else mret ());;
      doc ← find_by_id booking booking_id;
      mret (serialize doc)
  end.

(** ** Match result and stats update *)

(** [stats[k] = stats.get(k, 0) + n] *)
Definition incr (k : string) (n : Z) (stats : gmap string Any)
  : Exception + gmap string Any :=
  match add (default (AInt 0) (stats !! k)) n with
  | inl e => inl e
  | inr v => inr (<[k := v]> stats)
  end.

(** What the nested [update_stats] of [record_match_result] does to the
    [stats] dict before it writes it back. *)
Definition bump (stats : gmap string Any) (won draw : bool)
  : Exception + gmap string Any :=
  match incr "matches" 1 stats with
  | inl e => inl e
  | inr stats =>
      if draw then
        match incr "draws" 1 stats with
        | inl e => inl e
        | inr stats => incr "points" 1 stats
        end
      else if won then
        match incr "wins" 1 stats with
        | inl e => inl e
        | inr stats => incr "points" 3 stats
        end
      else incr "losses" 1 stats
  end.

(** A [TypeError] of the additions is raised before the write. *)
Definition update_stats (team_id : string) (won draw : bool) : M unit :=
  tm ← find_by_id team team_id;
  match tm with
  | None => mret ()
  | Some (_, tm) =>
      match bump (Team.stats tm) won draw with
      | inl e => raise e
      | inr stats => update_by_id team team_id (Team.set_stats stats)
      end
  end.

Definition record_match_result (payload : RecordResultRequest.t)
  : M (option (string * Match.t)) :=
  ch ← find_by_id challenge (RecordResultRequest.challenge_id payload);
  match ch with
  | None => raise (HTTPException 404 "Challenge not found")
  | Some (_, ch) =>
      let team_a := Challenge.challenger_team_id ch in
      let team_b := Challenge.opponent_team_id ch in
      if negb (bool_decide (RecordResultRequest.winner_team_id payload ∈ [team_a; team_b]))
      then raise (HTTPException 400 "Winner must be one of the teams in the challenge")
      else
        (* [ch.get("venue_id", "")] is the stored value, the default only
           standing in for a missing key; [Match.venue_id] is a required [str]. *)
        match Challenge.venue_id ch with
        | None => raise (ValidationError "Match" "venue_id")
        | Some v =>
            let match_doc := Match.mk
              (RecordResultRequest.challenge_id payload) v
              (Challenge.game ch) (Challenge.format ch) team_a team_b
              (Some (Match.mk_result
                       (RecordResultRequest.winner_team_id payload)
                       (RecordResultRequest.score_a payload)
                       (RecordResultRequest.score_b payload)))
              Match.completed in
            mid ← create_document match_ match_doc;
            update_by_id challenge (RecordResultRequest.challenge_id payload)
              (Challenge.set [Challenge.set_status Challenge.completed]);;
            (if bool_decide (RecordResultRequest.score_a payload
                             = RecordResultRequest.score_b payload)
             then
               update_stats team_a false true;;
               update_stats team_b false true
             else
               let winner := RecordResultRequest.winner_team_id payload in
               let loser := if bool_decide (winner = team_a) then team_b else team_a in
               update_stats winner true false;;
               update_stats loser false false);;
            doc ← find_by_id match_ mid;
            mret (serialize doc)
        end
  end.

(** ** Leaderboard *)

(** The sort key [(stats.get("points", 0), stats.get("wins", 0))], and the
    pair of integers it is when both values are [int]s. *)
Definition key (t : ObjectId * Team.t) : Any * Any :=
  (default (AInt 0) (Team.stats t.2 !! "points"),
   default (AInt 0) (Team.stats t.2 !! "wins")).

Definition int_key (t : ObjectId * Team.t) : bool :=
  is_int (Team.stats t.2 !! "points") && is_int (Team.stats t.2 !! "wins").

Definition sort_key (t : ObjectId * Team.t) : Z * Z :=
  (get0 (Team.stats t.2) "points", get0 (Team.stats t.2) "wins").

(** Python's order on pairs of integers. *)
Definition key_lt (a b : Z * Z) : Prop := a.1 < b.1 ∨ (a.1 = b.1 ∧ a.2 < b.2).
Definition key_le (a b : Z * Z) : Prop := a = b ∨ key_lt a b.

#[global] Instance key_lt_dec a b : Decision (key_lt a b).
Proof. unfold key_lt. apply _. Defined.

(** [list.sort(key=..., reverse=True)] is stable: it orders by decreasing key
    and keeps elements of equal key in their original order.  An element
    enters the sorted tail in front of the first one whose key is not greater. *)
Fixpoint insert_desc {A} (key : A → Z * Z) (x : A) (l : list A) : list A :=
  match l with
  | [] => [x]
  | y :: l' =>
      if decide (key_lt (key x) (key y)) then y :: insert_desc key x l' else x :: y :: l'
  end.

Fixpoint sort_desc {A} (key : A → Z * Z) (l : list A) : list A :=
  match l with
  | [] => []
  | x :: l' => insert_desc key x (sort_desc key l')
  end.

(** [l[:limit]] *)
Definition slice_to {A} (l : list A) (limit : Z) : list A :=
  if decide (0 ≤ limit) then take (Z.to_nat limit) l
  else take (length l - Z.to_nat (- limit))%nat l.

(** The query document [filt], an exact match on the keys it holds. *)
Record Filter : Type := mkFilter {
  filt_game : option string;
  filt_country : option string
}.

Definition matches (filt : Filter) (t : ObjectId * Team.t) : bool :=
  match filt_game filt with Some g => bool_decide (Team.game t.2 = g) | None => true end
  && match filt_country filt with
     | Some c => bool_decide (Team.country t.2 = c) | None => true end.

(** [list(db["team"].find(filt))] *)
Definition find_teams (filt : Filter) : M (list (ObjectId * Team.t)) :=
  reading (λ db, filter (λ t, matches filt t = true) (get team db)).

(** [teams.sort(key=..., reverse=True)] *)
Definition sort_teams (teams : list (ObjectId * Team.t))
  : M (list (ObjectId * Team.t)) :=
  if forallb int_key teams then mret (sort_desc sort_key teams)
  else match sort_keys (key <$> teams) with
       | inl e => raise e
       | inr order => mret (omap (λ i, teams !! i) order)
       end.

Definition row (t : ObjectId * Team.t) : Row.t :=
  Row.mk (str t.1) (Team.name t.2) (Team.game t.2) (Team.country t.2) (Team.stats t.2).

(** An omitted query parameter takes its default: [scope="global"],
    [limit=20]. *)
Definition leaderboard (scope : option Scope) (game country : option string)
    (limit : option Z) : M (list Row.t) :=
  let scope := default global scope in
  let limit := default 20 limit in
  let filt := mkFilter (if truthy_opt game then game else None) None in
  filt ← match scope with
         | local =>
             if negb (truthy_opt country)
             then raise (HTTPException 400 "Country is required for local leaderboard")
             else mret (mkFilter (filt_game filt) country)
         | global => mret filt
         end;
  teams ← find_teams filt;
  teams ← sort_teams teams;
  mret (row <$> slice_to teams limit).

End Store.

Arguments get {_ _} _ _.
Arguments put {_ _} _ _ _.

(** The database after, and the outcome of, running a handler. *)
Definition exec `{Bson} {A} (m : M A) (db : DB) : DB := (m db).2.
Definition outcome `{Bson} {A} (m : M A) (db : DB) : Exception + A := (m db).1.

(** ** The vocabulary of the statements *)

Section Vocabulary.
Context `{Bson} `{Python}.

(** What [{"$set": update}] of [negotiate_challenge] leaves in a document. *)
Definition overwritten {A} (new : option A) (old : option A) : option A :=
  match new with Some a => Some a | None => old end.

(** The [update] dict that [negotiate_challenge] builds. *)
Definition negotiation (payload : NegotiateChallengeRequest.t)
  : list Challenge.assignment :=
  [Challenge.set_status Challenge.negotiating]
  ++ if_present (NegotiateChallengeRequest.proposed_datetime payload)
       Challenge.set_proposed_datetime
  ++ if_present (NegotiateChallengeRequest.format payload) Challenge.set_format
  ++ if_present (NegotiateChallengeRequest.venue_id payload) Challenge.set_venue_id
  ++ if_present (NegotiateChallengeRequest.notes payload) Challenge.set_notes
  ++ [Challenge.set_approvals no_approvals].

(** Both sides have approved the challenge. *)
Definition both_approved (ch : Challenge.t) : bool :=
  approved_by (Challenge.approvals ch) "challenger"
  && approved_by (Challenge.approvals ch) "opponent".

(** The approvals and the status [approve_challenge] writes back. *)
Definition approval (role : team_role) (ch : Challenge.t) : list Challenge.assignment :=
  let approvals := <[role_key role := true]> (Challenge.approvals ch) in
  [Challenge.set_approvals approvals;
   Challenge.set_status
     (if approved_by approvals "challenger" && approved_by approvals "opponent"
      then Challenge.approved else Challenge.status ch)].

(** The statuses [create_booking_for_challenge] accepts. *)
Definition bookable (s : Challenge.Status) : Prop :=
  s ∈ [Challenge.proposed; Challenge.negotiating; Challenge.approved].

#[global] Instance bookable_dec s : Decision (bookable s).
Proof. unfold bookable. apply _. Defined.

(** The two teams, or a team and the request, disagree on country or game. *)
Definition mismatch (t1 t2 : Team.t) (payload : ProposeChallengeRequest.t) : Prop :=
  Team.country t1 ≠ Team.country t2
  ∨ Team.country t1 ≠ ProposeChallengeRequest.country payload
  ∨ Team.game t1 ≠ Team.game t2
  ∨ Team.game t1 ≠ ProposeChallengeRequest.game payload.

#[global] Instance mismatch_dec t1 t2 payload : Decision (mismatch t1 t2 payload).
Proof. unfold mismatch. apply _. Defined.

(** The challenge document that [propose_challenge] builds. *)
Definition proposal (payload : ProposeChallengeRequest.t) : Challenge.t :=
  Challenge.mk
    (ProposeChallengeRequest.challenger_team_id payload)
    (ProposeChallengeRequest.opponent_team_id payload)
    (ProposeChallengeRequest.game payload)
    (ProposeChallengeRequest.country payload)
    (ProposeChallengeRequest.proposed_datetime payload)
    (ProposeChallengeRequest.format payload)
    (ProposeChallengeRequest.venue_id payload)
    Challenge.proposed no_approvals
    (ProposeChallengeRequest.notes payload).

(** The payload as [create_team] stores it. *)
Definition enrolled (payload : Team.t) : Team.t :=
  if truthy (Team.captain_user_id payload)
     && negb (bool_decide (Team.captain_user_id payload ∈ Team.member_user_ids payload))
  then Team.set_member_user_ids
         (Team.member_user_ids payload ++ [Team.captain_user_id payload]) payload
  else payload.

(** The five counters are integers; a counter missing from the dict reads
    as 0, as it does in [update_stats]. *)
Definition integral (s : gmap string Any) : Prop :=
  ∀ k, k ∈ counters → is_int (s !! k) = true.

(** The invariant the specification states for team statistics: the five
    counters are non-negative integers, and every match is a win, a loss or
    a draw. *)
Definition stats_ok (s : gmap string Any) : Prop :=
  integral s
  ∧ 0 ≤ get0 s "matches" ∧ 0 ≤ get0 s "wins" ∧ 0 ≤ get0 s "losses"
  ∧ 0 ≤ get0 s "draws" ∧ 0 ≤ get0 s "points"
  ∧ get0 s "matches" = get0 s "wins" + get0 s "losses" + get0 s "draws".

Definition teams_ok (db : DB) : Prop :=
  Forall (λ x, stats_ok (Team.stats x.2)) (db_team db).

(** How the five counters moved between two stats dicts, every other key
    being left alone and the counters of [s'] being integers. *)
Definition gains (s s' : gmap string Any) (matches wins losses draws points : Z) : Prop :=
  get0 s' "matches" = get0 s "matches" + matches
  ∧ get0 s' "wins" = get0 s "wins" + wins
  ∧ get0 s' "losses" = get0 s "losses" + losses
  ∧ get0 s' "draws" = get0 s "draws" + draws
  ∧ get0 s' "points" = get0 s "points" + points
  ∧ (∀ k, k ∉ ["matches"; "wins"; "losses"; "draws"; "points"] → s' !! k = s !! k)
  ∧ integral s'.

(** What [bump] answers on integer counters. *)
Definition bumped (stats : gmap string Any) (won draw : bool) : gmap string Any :=
  let stats := <["matches" := AInt (get0 stats "matches" + 1)]> stats in
  if draw then
    let stats := <["draws" := AInt (get0 stats "draws" + 1)]> stats in
    <["points" := AInt (get0 stats "points" + 1)]> stats
  else if won then
    let stats := <["wins" := AInt (get0 stats "wins" + 1)]> stats in
    <["points" := AInt (get0 stats "points" + 3)]> stats
  else
    <["losses" := AInt (get0 stats "losses" + 1)]> stats.

(** A computation that keeps an invariant of the database, also when it
    raises. *)
Definition preserves (I : DB → Prop) {A} (m : M A) : Prop :=
  ∀ db, I db → I (exec m db).

(** [x] may stand before [y] in a list of decreasing keys. *)
Definition key_ge {A} (key : A → Z * Z) (x y : A) : Prop := key_le (key y) (key x).

(** The teams a leaderboard query keeps: the game filter applies when a
    non-empty game is given, the country filter only in the local scope. *)
Definition selected (scope : Scope) (game country : option string)
    (t : ObjectId * Team.t) : bool :=
  match game with
  | Some g => if truthy g then bool_decide (Team.game t.2 = g) else true
  | None => true
  end
  && match scope, country with
     | local, Some c => bool_decide (Team.country t.2 = c)
     | _, _ => true
     end.

End Vocabulary.

(** ** The other endpoints *)

Section Endpoints.
Context `{Bson} `{Python}.

(** [serialize_list]: every stored document has its [_id]. *)
Definition serialize_list {D} (docs : Collection D) : list (string * D) :=
  prod_map str id <$> docs.

(** Modelled from the spec: [get_documents] of [database.py] is not among
    the sources; the specification's [find_many] returns the documents of a
    collection that match every key of the filter, in no order that it
    names: in the order [arrange] the store chooses. *)
Definition get_documents {D} (c : Coll D) (matching : D → bool) : M (Collection D) :=
  reading (λ db, arrange (filter (λ d, matching d.2 = true) (get c db))).

Definition create_venue (payload : Venue.t) : M (option (string * Venue.t)) :=
  venue_id ← create_document venue payload;
  doc ← find_by_id venue venue_id;
  mret (serialize doc).

Definition list_venues (country : option string) : M (list (string * Venue.t)) :=
  let filt := if truthy_opt country then country else None in
  docs ← get_documents venue
           (λ v, match filt with
                 | Some c => bool_decide (Venue.country v = c)
                 | None => true
                 end);
  mret (serialize_list docs).

Definition list_teams (country game : option string) : M (list (string * Team.t)) :=
  let filt_country := if truthy_opt country then country else None in
  let filt_game := if truthy_opt game then game else None in
  teams ← get_documents team
            (λ t, match filt_country with
                  | Some c => bool_decide (Team.country t = c)
                  | None => true
                  end
                  && match filt_game with
                     | Some g => bool_decide (Team.game t = g)
                     | None => true
                     end);
  mret (serialize_list teams).

(** [serialize] as [get_team_stats] applies it to [stats], a dict of JSON
    values: no value is an [ObjectId] or a [datetime], an empty dict is
    returned as it is, and a key [_id] is replaced by [id] holding [str] of
    its value. *)
Definition serialize_stats (doc : gmap string Any) : gmap string Any :=
  if decide (size doc = 0%nat) then doc
  else
    match doc !! "_id" with
    | Some v => delete "_id" (<["id" := AStr (pystr v)]> doc)
    | None => doc
    end.

Definition get_team_stats (team_id : string) : M (gmap string Any) :=
  tm ← find_by_id team team_id;
  match tm with
  | None => raise (HTTPException 404 "Team not found")
  | Some (_, tm) => mret (serialize_stats (Team.stats tm))
  end.

(** The routes of the application that reach the store. *)
Inductive Call : Type :=
| CreateVenue (payload : Venue.t)
| ListVenues (country : option string)
| CreateTeam (payload : Team.t)
| ListTeams (country game : option string)
| GetTeamStats (team_id : string)
| ProposeChallenge (payload : ProposeChallengeRequest.t)
| NegotiateChallenge (challenge_id : string) (payload : NegotiateChallengeRequest.t)
| ApproveChallenge (challenge_id : string) (role : team_role)
| CreateBookingForChallenge (challenge_id : string) (payload : CreateBookingRequest.t)
| ConfirmBooking (booking_id : string) (confirm : bool)
| RecordMatchResult (payload : RecordResultRequest.t)
| Leaderboard (scope : option Scope) (game country : option string) (limit : option Z).

(** The database after a request, answered or refused. *)
Definition step (db : DB) (c : Call) : DB :=
  match c with
  | CreateVenue payload => exec (create_venue payload) db
  | ListVenues country => exec (list_venues country) db
  | CreateTeam payload => exec (create_team payload) db
  | ListTeams country game => exec (list_teams country game) db
  | GetTeamStats team_id => exec (get_team_stats team_id) db
  | ProposeChallenge payload => exec (propose_challenge payload) db
  | NegotiateChallenge challenge_id payload =>
      exec (negotiate_challenge challenge_id payload) db
  | ApproveChallenge challenge_id role => exec (approve_challenge challenge_id role) db
  | CreateBookingForChallenge challenge_id payload =>
      exec (create_booking_for_challenge challenge_id payload) db
  | ConfirmBooking booking_id confirm => exec (confirm_booking booking_id confirm) db
  | RecordMatchResult payload => exec (record_match_result payload) db
  | Leaderboard scope game country limit =>
      exec (leaderboard scope game country limit) db
  end.

(** The database after a sequence of requests. *)
Definition run (db : DB) (calls : list Call) : DB := foldl step db calls.

(** The store before the first request. *)
Definition no_documents : DB := mkDB [] [] [] [] [].

End Endpoints.

(** ** [serialize] on an arbitrary document

    A document is a dict from keys to values; a [datetime] is held as its
    ISO-8601 text, which is what [isoformat] returns. *)
Module Json.
Section Json.
Context `{Bson}.

#[warnings="-register-all"]
Inductive Value : Type :=
| VNone
| VBool (b : bool)
| VInt (z : Z)
| VStr (s : string)
| VObjectId (i : ObjectId)
| VDatetime (d : datetime)
| VList (l : list Value)
| VDict (d : gmap string Value).

(** Python's [str] on a value that is no [ObjectId]. *)
Variable py_str : Value → string.

Definition to_str (v : Value) : string :=
  match v with VObjectId i => str i | _ => py_str v end.

(** One pass of the loop of [serialize]. *)
Definition convert (v : Value) : Value :=
  match v with
  | VObjectId i => VStr (str i)
  | VDatetime d => VStr d
  | _ => v
  end.

Definition serialize (doc : gmap string Value) : gmap string Value :=
  if decide (size doc = 0%nat) then doc
  else
    let result := convert <$> doc in
    match doc !! "_id" with
    | Some v => delete "_id" (<["id" := VStr (to_str v)]> result)
    | None => result
    end.

(** No [ObjectId] and no [datetime] is left at the top of the document. *)
Definition plain (v : Value) : Prop :=
  match v with VObjectId _ | VDatetime _ => False | _ => True end.

End Json.
End Json.

(** ** The vocabulary of the further properties *)

Section Requests.
Context `{Bson} `{Python}.

(** What a lookup by identifier raises when it finds nothing. *)
Definition lookup_error (what id_str : string) : Exception :=
  match ObjectId_of id_str with
  | None => InvalidId
  | Some _ => NotFound what
  end.

(** No document of the collection answers to the string. *)
Definition absent {D} (c : Collection D) (id_str : string) : Prop :=
  ∀ i, ObjectId_of id_str = Some i → find_one c i = None.

(** The [Match] document of [record_match_result]. *)
Definition match_of (payload : RecordResultRequest.t) (ch : Challenge.t) (v : string)
  : Match.t :=
  Match.mk (RecordResultRequest.challenge_id payload) v
    (Challenge.game ch) (Challenge.format ch)
    (Challenge.challenger_team_id ch) (Challenge.opponent_team_id ch)
    (Some (Match.mk_result (RecordResultRequest.winner_team_id payload)
             (RecordResultRequest.score_a payload) (RecordResultRequest.score_b payload)))
    Match.completed.

(** The challenge collection after approving role [r1] and then [r2]. *)
Definition approved_twice (r1 r2 : team_role) (ch : Challenge.t) : Challenge.t :=
  Challenge.set (approval r2 (Challenge.set (approval r1 ch) ch))
    (Challenge.set (approval r1 ch) ch).

(** The booking [create_booking_for_challenge] builds. *)
Definition booking_of (challenge_id : string) (payload : CreateBookingRequest.t)
  : Booking.t :=
  Booking.mk challenge_id (CreateBookingRequest.venue_id payload)
    (CreateBookingRequest.start_datetime payload)
    (CreateBookingRequest.end_datetime payload) Booking.pending.

(** The writes the handlers make: a document appended to a collection, or
    the [$set] of one stored document. *)
Inductive Write : Type :=
| InsertVenue (d : Venue.t)
| InsertTeam (d : Team.t)
| InsertChallenge (d : Challenge.t)
| InsertBooking (d : Booking.t)
| InsertMatch (d : Match.t)
| SetChallenge (i : ObjectId) (update : list Challenge.assignment)
| SetBooking (i : ObjectId) (status : Booking.Status)
| SetStats (i : ObjectId) (stats : gmap string Any).

Definition inserted {D} (c : Collection D) (d : D) : Collection D :=
  c ++ [(generate (fst <$> c), d)].

Definition apply_write (db : DB) (w : Write) : DB :=
  match w with
  | InsertVenue d => put venue (inserted (db_venue db) d) db
  | InsertTeam d => put team (inserted (db_team db) d) db
  | InsertChallenge d => put challenge (inserted (db_challenge db) d) db
  | InsertBooking d => put booking (inserted (db_booking db) d) db
  | InsertMatch d => put match_ (inserted (db_match db) d) db
  | SetChallenge i update =>
      put challenge (update_one (db_challenge db) i (Challenge.set update)) db
  | SetBooking i status =>
      put booking (update_one (db_booking db) i (Booking.set_status status)) db
  | SetStats i stats => put team (update_one (db_team db) i (Team.set_stats stats)) db
  end.

(** The string names a document of the collection. *)
Definition present {D} (c : Collection D) (id_str : string) : Prop :=
  ∃ i, ObjectId_of id_str = Some i ∧ i ∈ fst <$> c.

(** What is known of the store when a write is made: the documents a new
    one refers to exist, and statistics are written from those the team
    had, with one more result counted. *)
Definition guarded (db : DB) (w : Write) : Prop :=
  match w with
  | InsertChallenge d =>
      present (db_team db) (Challenge.challenger_team_id d)
      ∧ present (db_team db) (Challenge.opponent_team_id d)
  | InsertBooking d => present (db_challenge db) (Booking.challenge_id d)
  | InsertMatch d => present (db_challenge db) (Match.challenge_id d)
  | SetStats i stats =>
      ∃ tm won draw, find_one (db_team db) i = Some (i, tm)
                     ∧ bump (Team.stats tm) won draw = inr stats
  | _ => True
  end.

(** The writes each route makes. *)
Definition allowed (c : Call) (w : Write) : Prop :=
  match c with
  | CreateVenue payload => w = InsertVenue payload
  | CreateTeam payload => w = InsertTeam (enrolled payload)
  | ProposeChallenge payload => w = InsertChallenge (proposal payload)
  | NegotiateChallenge challenge_id payload =>
      ∃ i, ObjectId_of challenge_id = Some i ∧ w = SetChallenge i (negotiation payload)
  | ApproveChallenge challenge_id role =>
      ∃ i ch, ObjectId_of challenge_id = Some i ∧ w = SetChallenge i (approval role ch)
  | CreateBookingForChallenge challenge_id payload =>
      w = InsertBooking (booking_of challenge_id payload)
      ∨ ∃ i, ObjectId_of challenge_id = Some i
             ∧ w = SetChallenge i
                     [Challenge.set_status Challenge.booked;
                      Challenge.set_venue_id (CreateBookingRequest.venue_id payload)]
  | ConfirmBooking booking_id confirm =>
      (∃ i, ObjectId_of booking_id = Some i
            ∧ w = SetBooking i (if confirm then Booking.confirmed else Booking.cancelled))
      ∨ (confirm = false
         ∧ ∃ i, w = SetChallenge i [Challenge.set_status Challenge.approved])
  | RecordMatchResult payload =>
      (∃ ch v, w = InsertMatch (match_of payload ch v))
      ∨ (∃ i, ObjectId_of (RecordResultRequest.challenge_id payload) = Some i
              ∧ w = SetChallenge i [Challenge.set_status Challenge.completed])
      ∨ (∃ i stats, w = SetStats i stats)
  | ListVenues _ | ListTeams _ _ | GetTeamStats _ | Leaderboard _ _ _ _ => False
  end.

(** [wrote P db db']: [db'] is [db] after a sequence of writes that satisfy
    [P], each one guarded in the store it is made on. *)
Inductive wrote (P : Write → Prop) (db : DB) : DB → Prop :=
| wrote_nothing : wrote P db db
| wrote_then db' w : wrote P db db' → P w → guarded db' w → wrote P db (apply_write db' w).

(** The [_id]s of the five collections. *)
Definition ids (db : DB) : list (list ObjectId) :=
  [fst <$> db_venue db; fst <$> db_team db; fst <$> db_challenge db;
   fst <$> db_booking db; fst <$> db_match db].

Definition unique_ids (db : DB) : Prop := Forall NoDup (ids db).

(** [db'] still holds every document of [db], changed at most in the fields
    a [$set] of the handlers can reach: a team's statistics, a booking's
    status, and of a challenge anything but its teams, game and country. *)
Definition kept (db db' : DB) : Prop :=
  (∀ i d, find_one (db_venue db) i = Some (i, d) → find_one (db_venue db') i = Some (i, d))
  ∧ (∀ i d, find_one (db_team db) i = Some (i, d) →
       ∃ stats, find_one (db_team db') i = Some (i, Team.set_stats stats d))
  ∧ (∀ i d, find_one (db_challenge db) i = Some (i, d) →
       ∃ d', find_one (db_challenge db') i = Some (i, d')
             ∧ Challenge.challenger_team_id d' = Challenge.challenger_team_id d
             ∧ Challenge.opponent_team_id d' = Challenge.opponent_team_id d
             ∧ Challenge.game d' = Challenge.game d
             ∧ Challenge.country d' = Challenge.country d)
  ∧ (∀ i d, find_one (db_booking db) i = Some (i, d) →
       ∃ status, find_one (db_booking db') i = Some (i, Booking.set_status status d))
  ∧ (∀ i d, find_one (db_match db) i = Some (i, d) → find_one (db_match db') i = Some (i, d)).

(** Every challenge names two stored teams, every booking and every match a
    stored challenge. *)
Definition referenced (db : DB) : Prop :=
  Forall (λ x, present (db_team db) (Challenge.challenger_team_id x.2)
               ∧ present (db_team db) (Challenge.opponent_team_id x.2))
    (db_challenge db)
  ∧ Forall (λ x, present (db_challenge db) (Booking.challenge_id x.2)) (db_booking db)
  ∧ Forall (λ x, present (db_challenge db) (Match.challenge_id x.2)) (db_match db).

(** The counters agree with each other: they are not negative, every match
    is a win, a loss or a draw, and the points are three for a win and one
    for a draw. *)
Definition consistent (s : gmap string Any) : Prop :=
  stats_ok s ∧ get0 s "points" = 3 * get0 s "wins" + get0 s "draws".

(** The statistics a request brings into the store satisfy [Q]. *)
Definition registers (Q : gmap string Any → Prop) (c : Call) : Prop :=
  match c with CreateTeam payload => Q (Team.stats payload) | _ => True end.

Definition teams_satisfy (Q : gmap string Any → Prop) (db : DB) : Prop :=
  Forall (λ x, Q (Team.stats x.2)) (db_team db).

(** The parts of the store that have a single writer. *)
Inductive Part : Type :=
| TeamDocuments | Approvals | BookingDocuments | Venues | Matches | Anything.

(** [db'] has the part as [db] had it: the stored teams, the approvals of
    the stored challenges, the stored bookings, the venue collection, the
    match collection, the whole store. *)
Definition intact (part : Part) (db db' : DB) : Prop :=
  match part with
  | TeamDocuments =>
      ∀ i tm, find_one (db_team db) i = Some (i, tm) →
              find_one (db_team db') i = Some (i, tm)
  | Approvals =>
      ∀ i ch, find_one (db_challenge db) i = Some (i, ch) →
              ∃ ch', find_one (db_challenge db') i = Some (i, ch')
                     ∧ Challenge.approvals ch' = Challenge.approvals ch
  | BookingDocuments =>
      ∀ i bk, find_one (db_booking db) i = Some (i, bk) →
              find_one (db_booking db') i = Some (i, bk)
  | Venues => db_venue db' = db_venue db
  | Matches => db_match db' = db_match db
  | Anything => db' = db
  end.

(** The routes that write the part. *)
Definition writer (part : Part) (c : Call) : bool :=
  match part, c with
  | TeamDocuments, RecordMatchResult _ => true
  | Approvals, (NegotiateChallenge _ _ | ApproveChallenge _ _) => true
  | BookingDocuments, ConfirmBooking _ _ => true
  | Venues, CreateVenue _ => true
  | Matches, RecordMatchResult _ => true
  | Anything, (ListVenues _ | ListTeams _ _ | GetTeamStats _ | Leaderboard _ _ _ _) => false
  | Anything, _ => true
  | _, _ => false
  end.

Definition keeps_approvals (a : Challenge.assignment) : bool :=
  match a with Challenge.set_approvals _ => false | _ => true end.

(** The writes that leave the part as it is. *)
Definition spares (part : Part) (w : Write) : bool :=
  match part, w with
  | TeamDocuments, SetStats _ _ => false
  | Approvals, SetChallenge _ update => forallb keeps_approvals update
  | BookingDocuments, SetBooking _ _ => false
  | Venues, InsertVenue _ => false
  | Matches, InsertMatch _ => false
  | Anything, _ => false
  | _, _ => true
  end.

(** The venues a [country] parameter keeps: all of them when it is omitted
    or empty. *)
Definition venue_listed (country : option string) (v : Venue.t) : bool :=
  match country with
  | Some c => if truthy c then bool_decide (Venue.country v = c) else true
  | None => true
  end.

Definition team_listed (country game : option string) (t : Team.t) : bool :=
  match country with
  | Some c => if truthy c then bool_decide (Team.country t = c) else true
  | None => true
  end
  && match game with
     | Some g => if truthy g then bool_decide (Team.game t = g) else true
     | None => true
     end.

(** The leaderboard row of a listed team. *)
Definition row_of (x : string * Team.t) : Row.t :=
  Row.mk x.1 (Team.name x.2) (Team.game x.2) (Team.country x.2) (Team.stats x.2).

End Requests.

(** ** A concrete store

    Identifiers are natural numbers, written as the strings [#], [##],
    [###], ... (0 is [#]); any other string is malformed.  A collection's next
    identifier is one more than its greatest, and a scan answers in insertion
    order. *)
Fixpoint hashes (n : nat) : string :=
  match n with O => "" | S n => String "#"%char (hashes n) end.

Definition parse_hashes (s : string) : option nat :=
  match String.length s with
  | O => None
  | S n => if decide (s = hashes (S n)) then Some n else None
  end.

#[local] Instance hash_ids : Bson.
Proof.
  refine {| ObjectId := nat;
            ObjectId_eq_dec := _;
            ObjectId_of := parse_hashes;
            str := λ n, hashes (S n);
            generate := λ l, match l with [] => O | _ => S (max_list l) end;
            arrange := λ D l, l |}.
  - intros n. unfold parse_hashes.
    assert (∀ k, String.length (hashes k) = k) as ->.
    { intros k. induction k as [|k IH]; [done|]. cbn. by rewrite IH. }
    by rewrite decide_True.
  - intros [|x l] Hin; [by apply not_elem_of_nil in Hin|].
    apply max_list_elem_of_le in Hin. lia.
  - done.
Defined.

(** A Python for the examples: [str] on the values whose text is immediate
    (no example asks for another), and a sort that raises on keys that are
    not all pairs of integers. *)
#[local] Instance python : Python.
Proof.
  refine {| pystr := λ v, match v with
                          | AInt z => pretty z
                          | AStr s => s
                          | ABool true => "True"
                          | ABool false => "False"
                          | _ => "None"
                          end;
            sort_keys := λ _, inl TypeError |}.
  - done.
  - done.
Defined.

Definition empty_db : @DB hash_ids := mkDB [] [] [] [] [].

Definition team_of (name game country captain : string) (members : list string) : Team.t :=
  Team.mk name game country captain members [] Team.default_stats.

Definition team_A : Team.t := team_of "Alpha" "valkyrie" "US" "u1" [].
Definition team_B : Team.t := team_of "Bravo" "valkyrie" "US" "u2" ["u2"; "u3"].

(** Two teams registered: [#] is Alpha, [##] is Bravo. *)
Definition db_teams : DB :=
  exec (create_team team_A;; create_team team_B) empty_db.

Definition request : ProposeChallengeRequest.t :=
  ProposeChallengeRequest.mk "#" "##" "valkyrie" "US" None BO3 None None.

Definition request_at (v : string) : ProposeChallengeRequest.t :=
  ProposeChallengeRequest.mk "#" "##" "valkyrie" "US" None BO3 (Some v) None.

(** Alpha has challenged Bravo: the challenge is [#]. *)
Definition db_proposed : DB := exec (propose_challenge request) db_teams.

Definition db_proposed_at (v : string) : DB :=
  exec (propose_challenge (request_at v)) db_teams.

Definition booking_request : CreateBookingRequest.t :=
  CreateBookingRequest.mk "arena" "2026-11-04T18:00:00" None.

(** The challenge was booked (booking [#]) and the booking then cancelled. *)
Definition db_booked : DB :=
  exec (create_booking_for_challenge "#" booking_request) db_proposed.
Definition db_cancelled : DB := exec (confirm_booking "#" false) db_booked.

(** The challenge was played at the arena, Alpha winning 3 to 1. *)
Definition db_completed : DB :=
  exec (record_match_result (RecordResultRequest.mk "#" "#" 3 1)) (db_proposed_at "arena").

(** Gamma was registered with statistics that count its matches in words;
    it has challenged Bravo at the arena. *)
Definition team_C : Team.t :=
  Team.mk "Gamma" "valkyrie" "US" "u4" ["u4"] []
    (<["matches" := AStr "many"]> Team.default_stats).

Definition db_words : DB :=
  exec (create_team team_C;; create_team team_B;; propose_challenge (request_at "arena"))
    empty_db.

(** Delta was registered with its points in words, beside Bravo. *)
Definition team_D : Team.t :=
  Team.mk "Delta" "valkyrie" "US" "u5" ["u5"] []
    (<["points" := AStr "lots"]> Team.default_stats).

Definition db_delta : DB := exec (create_team team_D;; create_team team_B) empty_db.

Definition ranked (name : string) (points wins : Z) : Team.t :=
  Team.mk name "valkyrie" "US" "u" ["u"] []
    (<["points" := AInt points]> (<["wins" := AInt wins]> Team.default_stats)).

(** A season: two teams, a challenge at the arena, a win of Alpha and a
    draw. *)
Definition season : list Call :=
  [CreateTeam team_A; CreateTeam team_B; ProposeChallenge (request_at "arena");
   RecordMatchResult (RecordResultRequest.mk "#" "#" 3 1);
   RecordMatchResult (RecordResultRequest.mk "#" "##" 2 2)].

(** A challenge proposed, approved by one side, booked and cancelled, with
    two reads at the end. *)
Definition booking_dance : list Call :=
  [ProposeChallenge request; ApproveChallenge "#" challenger;
   CreateBookingForChallenge "#" booking_request; ConfirmBooking "#" false;
   ListTeams None None; Leaderboard None None None None].

(** * Properties *)

Section Proofs.
Context `{Bson} `{Python}.

(** ** The store *)

Lemma find_one_update_one {D} (c : Collection D) i j (f : D → D) :
  find_one (update_one c i f) j =
  if decide (i = j) then prod_map id f <$> find_one c j else find_one c j.
Proof.
  induction c as [|[k e] c IH]; simpl.
  - by case_decide.
  - repeat (case_decide; simplify_eq/=); try done;
      repeat (case_decide; simplify_eq/=); done.
Qed.

Lemma find_one_update_one_eq {D} (c : Collection D) i (f : D → D) d :
  find_one c i = Some (i, d) → find_one (update_one c i f) i = Some (i, f d).
Proof. intros Hc. by rewrite find_one_update_one, decide_True, Hc. Qed.

Lemma find_one_update_one_ne {D} (c : Collection D) i j (f : D → D) :
  i ≠ j → find_one (update_one c i f) j = find_one c j.
Proof. intros Hne. by rewrite find_one_update_one, decide_False. Qed.

Lemma find_one_None {D} (c : Collection D) i :
  i ∉ fst <$> c → find_one c i = None.
Proof.
  induction c as [|[k e] c IH]; simpl; [done|].
  rewrite not_elem_of_cons. intros [Hne Hnin].
  rewrite decide_False by done. auto.
Qed.

Lemma find_one_app {D} (c c' : Collection D) i :
  find_one (c ++ c') i =
  match find_one c i with Some x => Some x | None => find_one c' i end.
Proof.
  induction c as [|[k e] c IH]; simpl; [done|]. by case_decide.
Qed.

Lemma find_one_inserted {D} (c : Collection D) (d : D) :
  find_one (c ++ [(generate (fst <$> c), d)]) (generate (fst <$> c))
  = Some (generate (fst <$> c), d).
Proof.
  rewrite find_one_app, find_one_None by apply generate_fresh.
  simpl. by rewrite decide_True.
Qed.

Lemma update_one_Forall {D} (P : D → Prop) (c : Collection D) i (f : D → D) :
  (∀ d, P d → P (f d)) →
  Forall (λ x, P x.2) c → Forall (λ x, P x.2) (update_one c i f).
Proof.
  intros Hf. induction 1 as [|[k e] c Hx Hc IH]; simpl; [done|].
  case_decide; constructor; simpl in *; auto.
Qed.

(** ** Running a handler *)

Ltac store :=
  repeat progress
    cbn [get put team venue challenge booking match_
         db_team db_venue db_challenge db_booking db_match] in *.

Lemma run_bind {A B} (m : M A) (f : A → M B) db :
  (m ≫= f) db =
  match m db with (inl e, db') => (inl e, db') | (inr a, db') => f a db' end.
Proof. done. Qed.

Lemma run_find_by_id {D} (c : Coll D) s i db :
  ObjectId_of s = Some i →
  find_by_id c s db = (inr (find_one (get c db) i), db).
Proof. intros Hs. unfold find_by_id, oid. by rewrite Hs. Qed.

Lemma run_update_by_id {D} (c : Coll D) s i (f : D → D) db :
  ObjectId_of s = Some i →
  update_by_id c s f db = (inr (), put c (update_one (get c db) i f) db).
Proof. intros Hs. unfold update_by_id, oid. by rewrite Hs. Qed.

(** ** Negotiate *)

Lemma run_negotiate db challenge_id i ch payload :
  ObjectId_of challenge_id = Some i →
  find_one (db_challenge db) i = Some (i, ch) →
  let upd := Challenge.set (negotiation payload) in
  negotiate_challenge challenge_id payload db
  = (inr (Some (str i, upd ch)),
     mkDB (db_team db) (db_venue db) (update_one (db_challenge db) i upd)
          (db_booking db) (db_match db))
  ∧ find_one (update_one (db_challenge db) i upd) i = Some (i, upd ch).
Proof.
  intros Hid Hch. cbv zeta. unfold negotiate_challenge.
  rewrite run_bind, (run_find_by_id _ _ _ _ Hid). store. rewrite Hch.
  rewrite run_bind, (run_update_by_id _ _ _ _ _ Hid).
  rewrite run_bind, (run_find_by_id _ _ _ _ Hid). store.
  rewrite find_one_update_one, decide_True, Hch by done.
  split; [done|]. by rewrite find_one_update_one, decide_True, Hch.
Qed.

(** C2: on an existing challenge every negotiate call succeeds and leaves
    the document with both approvals false and status negotiating, whatever
    the status was; a field absent from the request keeps its value, the
    identifying fields are never touched, and no other document changes. *)
Theorem negotiate_challenge_resets
    (db : DB) (challenge_id : string) (i : ObjectId) (ch : Challenge.t)
    (payload : NegotiateChallengeRequest.t) :
  ObjectId_of challenge_id = Some i →
  find_one (db_challenge db) i = Some (i, ch) →
  ∃ ch' db',
    negotiate_challenge challenge_id payload db = (inr (Some (str i, ch')), db')
    ∧ find_one (db_challenge db') i = Some (i, ch')
    ∧ Challenge.approvals ch' = no_approvals
    ∧ Challenge.approvals ch' !! "challenger" = Some false
    ∧ Challenge.approvals ch' !! "opponent" = Some false
    ∧ Challenge.status ch' = Challenge.negotiating
    ∧ Challenge.proposed_datetime ch'
      = overwritten (NegotiateChallengeRequest.proposed_datetime payload)
          (Challenge.proposed_datetime ch)
    ∧ Challenge.format ch'
      = default (Challenge.format ch) (NegotiateChallengeRequest.format payload)
    ∧ Challenge.venue_id ch'
      = overwritten (NegotiateChallengeRequest.venue_id payload) (Challenge.venue_id ch)
    ∧ Challenge.notes ch'
      = overwritten (NegotiateChallengeRequest.notes payload) (Challenge.notes ch)
    ∧ Challenge.challenger_team_id ch' = Challenge.challenger_team_id ch
    ∧ Challenge.opponent_team_id ch' = Challenge.opponent_team_id ch
    ∧ Challenge.game ch' = Challenge.game ch
    ∧ Challenge.country ch' = Challenge.country ch
    ∧ (∀ j, j ≠ i → find_one (db_challenge db') j = find_one (db_challenge db) j)
    ∧ db_team db' = db_team db ∧ db_venue db' = db_venue db
    ∧ db_booking db' = db_booking db ∧ db_match db' = db_match db.
Proof.
  intros Hid Hch.
  destruct (run_negotiate db _ _ _ payload Hid Hch) as [Hrun Hfind].
  eexists _, _. split; [exact Hrun|]. store. split; [exact Hfind|].
  destruct payload as [[d|] [f|] [v|] [n|]], ch; cbn;
    repeat split; try done; intros j Hj; by apply find_one_update_one_ne.
Qed.

(** ** Approve *)

Lemma run_approve db challenge_id i ch role :
  ObjectId_of challenge_id = Some i →
  find_one (db_challenge db) i = Some (i, ch) →
  let upd := Challenge.set (approval role ch) in
  approve_challenge challenge_id role db
  = (inr (Some (str i, upd ch)),
     mkDB (db_team db) (db_venue db) (update_one (db_challenge db) i upd)
          (db_booking db) (db_match db))
  ∧ find_one (update_one (db_challenge db) i upd) i = Some (i, upd ch).
Proof.
  intros Hid Hch. cbv zeta. unfold approve_challenge.
  rewrite run_bind, (run_find_by_id _ _ _ _ Hid). store. rewrite Hch.
  rewrite run_bind, (run_update_by_id _ _ _ _ _ Hid).
  rewrite run_bind, (run_find_by_id _ _ _ _ Hid). store.
  fold (approval role ch).
  rewrite find_one_update_one, decide_True, Hch by done.
  by split.
Qed.

Lemma approval_status role ch :
  let ch' := Challenge.set (approval role ch) ch in
  Challenge.approvals ch' = <[role_key role := true]> (Challenge.approvals ch)
  ∧ (both_approved ch' = true → Challenge.status ch' = Challenge.approved)
  ∧ (both_approved ch' = false → Challenge.status ch' = Challenge.status ch).
Proof.
  unfold both_approved, approval. destruct ch as [ta tb g c d f v s a n]; cbn.
  split; [done|]. by split; intros ->.
Qed.

(** C1 (amended): on an existing challenge, approve succeeds and sets
    [approvals[role]] to true.  When both approvals are then true the status
    is approved, otherwise it keeps its prior value; so the status after the
    call is approved exactly when both approvals are true or it was approved
    already.  One approval on a fresh proposed challenge leaves it proposed. *)
Theorem approve_challenge_sets_role
    (db : DB) (challenge_id : string) (i : ObjectId) (ch : Challenge.t)
    (role : team_role) :
  ObjectId_of challenge_id = Some i →
  find_one (db_challenge db) i = Some (i, ch) →
  ∃ ch' db',
    approve_challenge challenge_id role db = (inr (Some (str i, ch')), db')
    ∧ find_one (db_challenge db') i = Some (i, ch')
    ∧ Challenge.approvals ch' = <[role_key role := true]> (Challenge.approvals ch)
    ∧ Challenge.approvals ch' !! role_key role = Some true
    ∧ (both_approved ch' = true → Challenge.status ch' = Challenge.approved)
    ∧ (both_approved ch' = false → Challenge.status ch' = Challenge.status ch)
    ∧ (Challenge.status ch' = Challenge.approved
       ↔ both_approved ch' = true ∨ Challenge.status ch = Challenge.approved)
    ∧ (Challenge.status ch = Challenge.proposed →
       Challenge.approvals ch = no_approvals →
       Challenge.status ch' = Challenge.proposed).
Proof.
  intros Hid Hch.
  destruct (run_approve db _ _ _ role Hid Hch) as [Hrun Hfind].
  destruct (approval_status role ch) as (Happr & Hboth & Hnot).
  eexists _, _. split; [exact Hrun|]. store. split; [exact Hfind|].
  split; [exact Happr|]. split; [rewrite Happr; apply lookup_insert_eq|].
  split; [exact Hboth|]. split; [exact Hnot|]. split; [split|].
  - intros Hs. destruct (both_approved _) eqn:Hb; [by left|].
    right. by rewrite <- Hnot.
  - intros [Hb|Hs]; [by apply Hboth|].
    destruct (both_approved _) eqn:Hb; [by apply Hboth|]. by rewrite Hnot.
  - intros Hs Ha. rewrite <- Hs. apply Hnot.
    unfold both_approved. rewrite Happr, Ha. by destruct role.
Qed.

(** ** Book *)

Lemma bookable_guard (s : Challenge.Status) :
  bool_decide (s ∈ [Challenge.approved; Challenge.negotiating; Challenge.proposed])
  = bool_decide (bookable s).
Proof. by destruct s. Qed.

Lemma run_book_refused db challenge_id i ch payload :
  ObjectId_of challenge_id = Some i →
  find_one (db_challenge db) i = Some (i, ch) →
  ¬ bookable (Challenge.status ch) →
  create_booking_for_challenge challenge_id payload db
  = (inl (HTTPException 400 "Challenge not eligible for booking"), db).
Proof.
  intros Hid Hch Hs. unfold create_booking_for_challenge.
  rewrite run_bind, (run_find_by_id _ _ _ _ Hid). store. rewrite Hch.
  by rewrite bookable_guard, bool_decide_eq_false_2.
Qed.

Lemma run_book_accepted db challenge_id i ch payload :
  ObjectId_of challenge_id = Some i →
  find_one (db_challenge db) i = Some (i, ch) →
  bookable (Challenge.status ch) →
  let bk := Booking.mk challenge_id (CreateBookingRequest.venue_id payload)
              (CreateBookingRequest.start_datetime payload)
              (CreateBookingRequest.end_datetime payload) Booking.pending in
  let bid := generate (fst <$> db_booking db) in
  let upd := Challenge.set
               [Challenge.set_status Challenge.booked;
                Challenge.set_venue_id (CreateBookingRequest.venue_id payload)] in
  create_booking_for_challenge challenge_id payload db
  = (inr (Some (str bid, bk)),
     mkDB (db_team db) (db_venue db) (update_one (db_challenge db) i upd)
          (db_booking db ++ [(bid, bk)]) (db_match db))
  ∧ find_one (update_one (db_challenge db) i upd) i = Some (i, upd ch).
Proof.
  intros Hid Hch Hs. cbv zeta. unfold create_booking_for_challenge.
  rewrite run_bind, (run_find_by_id _ _ _ _ Hid). store. rewrite Hch.
  rewrite bookable_guard, bool_decide_eq_true_2 by done. cbn [negb].
  rewrite run_bind. unfold create_document at 1. store. unfold insert_one.
  rewrite run_bind, (run_update_by_id _ _ _ _ _ Hid). store.
  rewrite run_bind, (run_find_by_id _ _ _ _ (ObjectId_of_str _)). store.
  rewrite find_one_inserted.
  split; [done|]. by rewrite find_one_update_one, decide_True, Hch.
Qed.

(** C4: on an existing challenge, booking fails with a constraint violation
    exactly when the status is not proposed, negotiating or approved, and then
    writes nothing; otherwise it succeeds, appends a pending booking that
    references the challenge, puts the challenge in status booked and
    overwrites its venue with the supplied one.  The approvals are neither
    read nor changed. *)
Theorem create_booking_for_challenge_guard
    (db : DB) (challenge_id : string) (i : ObjectId) (ch : Challenge.t)
    (payload : CreateBookingRequest.t) :
  ObjectId_of challenge_id = Some i →
  find_one (db_challenge db) i = Some (i, ch) →
  ((∃ e, outcome (create_booking_for_challenge challenge_id payload) db = inl e
         ∧ ConstraintViolation e)
   ↔ ¬ bookable (Challenge.status ch))
  ∧ ((∃ e, outcome (create_booking_for_challenge challenge_id payload) db = inl e)
     ↔ ¬ bookable (Challenge.status ch))
  ∧ (¬ bookable (Challenge.status ch) →
     exec (create_booking_for_challenge challenge_id payload) db = db)
  ∧ (bookable (Challenge.status ch) →
     ∃ bid bk ch' db',
       create_booking_for_challenge challenge_id payload db
       = (inr (Some (str bid, bk)), db')
       ∧ db_booking db' = db_booking db ++ [(bid, bk)]
       ∧ Booking.status bk = Booking.pending
       ∧ Booking.challenge_id bk = challenge_id
       ∧ Booking.venue_id bk = CreateBookingRequest.venue_id payload
       ∧ Booking.start_datetime bk = CreateBookingRequest.start_datetime payload
       ∧ Booking.end_datetime bk = CreateBookingRequest.end_datetime payload
       ∧ find_one (db_challenge db') i = Some (i, ch')
       ∧ Challenge.status ch' = Challenge.booked
       ∧ Challenge.venue_id ch' = Some (CreateBookingRequest.venue_id payload)
       ∧ Challenge.approvals ch' = Challenge.approvals ch
       ∧ db_team db' = db_team db ∧ db_match db' = db_match db).
Proof.
  intros Hid Hch.
  destruct (decide (bookable (Challenge.status ch))) as [Hs|Hs].
  - destruct (run_book_accepted db _ _ _ payload Hid Hch Hs) as [Hrun Hfind].
    unfold outcome, exec. rewrite Hrun. cbn [fst snd].
    split; [split; [by intros (e & [=] & _)|done]|].
    split; [split; [by intros (e & [=])|done]|].
    split; [done|]. intros _. eexists _, _, _, _. split; [reflexivity|].
    store. rewrite Hfind. by destruct ch.
  - unfold outcome, exec. rewrite (run_book_refused db _ _ _ payload Hid Hch Hs).
    cbn [fst snd]. split; [|split; [|done]].
    + split; [done|]. intros _. eexists. split; [done|].
      eexists. split; [done|]. unfold ConstraintViolation_details. set_solver.
    + split; [done|]. intros _. by eexists.
Qed.

(** ** Venue identifiers are taken on trust *)

Ltac unfold_M :=
  unfold outcome, exec, find_by_id, update_by_id, create_document, insert_one,
    oid, raise, reading, writing, mbind, M_bind, mret, M_ret.

Lemma book_ignores_venues db vs challenge_id payload :
  create_booking_for_challenge challenge_id payload (put venue vs db)
  = (outcome (create_booking_for_challenge challenge_id payload) db,
     put venue vs (exec (create_booking_for_challenge challenge_id payload) db)).
Proof.
  unfold create_booking_for_challenge. unfold_M. store.
  destruct (ObjectId_of challenge_id) as [i|] eqn:Hid; simpl; [|done].
  destruct (find_one (db_challenge db) i) as [[k ch]|]; simpl; [|done].
  destruct (bool_decide _); simpl; [|done].
  by rewrite ObjectId_of_str.
Qed.

Lemma negotiate_ignores_venues db vs challenge_id payload :
  negotiate_challenge challenge_id payload (put venue vs db)
  = (outcome (negotiate_challenge challenge_id payload) db,
     put venue vs (exec (negotiate_challenge challenge_id payload) db)).
Proof.
  unfold negotiate_challenge. unfold_M. store.
  destruct (ObjectId_of challenge_id) as [i|] eqn:Hid; simpl; [|done].
  by destruct (find_one (db_challenge db) i) as [[k ch]|].
Qed.

Lemma book_never_InvalidReference db challenge_id payload :
  outcome (create_booking_for_challenge challenge_id payload) db ≠ inl InvalidReference.
Proof.
  unfold create_booking_for_challenge. unfold_M. store.
  destruct (ObjectId_of challenge_id) as [i|] eqn:Hid; simpl; [|done].
  destruct (find_one (db_challenge db) i) as [[k ch]|]; simpl; [|done].
  destruct (bool_decide _); simpl; [|done].
  by rewrite ObjectId_of_str.
Qed.

Lemma negotiate_never_InvalidReference db challenge_id payload :
  outcome (negotiate_challenge challenge_id payload) db ≠ inl InvalidReference.
Proof.
  unfold negotiate_challenge. unfold_M. store.
  destruct (ObjectId_of challenge_id) as [i|] eqn:Hid; simpl; [|done].
  by destruct (find_one (db_challenge db) i) as [[k ch]|].
Qed.

(** C10: neither booking nor negotiating looks at the venue collection.  For
    every string [v], booking an eligible challenge and negotiating any
    existing challenge succeed and store [v] as the challenge's venue,
    whatever venues exist; both handlers answer the same over any other venue
    collection, and neither ever raises the invalid-reference error. *)
Theorem venue_id_is_not_checked
    (db : DB) (challenge_id : string) (i : ObjectId) (ch : Challenge.t) (v : string) :
  ObjectId_of challenge_id = Some i →
  find_one (db_challenge db) i = Some (i, ch) →
  (bookable (Challenge.status ch) →
   ∀ start_datetime end_datetime, ∃ r db' ch',
     create_booking_for_challenge challenge_id
       (CreateBookingRequest.mk v start_datetime end_datetime) db = (inr r, db')
     ∧ find_one (db_challenge db') i = Some (i, ch')
     ∧ Challenge.venue_id ch' = Some v)
  ∧ (∀ proposed_datetime format notes, ∃ r db' ch',
       negotiate_challenge challenge_id
         (NegotiateChallengeRequest.mk proposed_datetime format (Some v) notes) db
       = (inr r, db')
       ∧ find_one (db_challenge db') i = Some (i, ch')
       ∧ Challenge.venue_id ch' = Some v)
  ∧ (∀ vs payload,
       create_booking_for_challenge challenge_id payload (put venue vs db)
       = (outcome (create_booking_for_challenge challenge_id payload) db,
          put venue vs (exec (create_booking_for_challenge challenge_id payload) db)))
  ∧ (∀ vs payload,
       negotiate_challenge challenge_id payload (put venue vs db)
       = (outcome (negotiate_challenge challenge_id payload) db,
          put venue vs (exec (negotiate_challenge challenge_id payload) db)))
  ∧ (∀ db0 id0 payload,
       outcome (create_booking_for_challenge id0 payload) db0 ≠ inl InvalidReference)
  ∧ (∀ db0 id0 payload,
       outcome (negotiate_challenge id0 payload) db0 ≠ inl InvalidReference).
Proof.
  intros Hid Hch. repeat split.
  - intros Hs start_datetime end_datetime.
    destruct (run_book_accepted db _ _ _
                (CreateBookingRequest.mk v start_datetime end_datetime) Hid Hch Hs)
      as [Hrun Hfind].
    eexists _, _, _. split; [exact Hrun|]. store. split; [exact Hfind|].
    by destruct ch.
  - intros d f n.
    destruct (run_negotiate db _ _ _
                (NegotiateChallengeRequest.mk d f (Some v) n) Hid Hch)
      as [Hrun Hfind].
    eexists _, _, _. split; [exact Hrun|]. store. split; [exact Hfind|].
    by destruct d, f, n, ch.
  - intros. apply book_ignores_venues.
  - intros. apply negotiate_ignores_venues.
  - intros. apply book_never_InvalidReference.
  - intros. apply negotiate_never_InvalidReference.
Qed.

(** ** Propose *)

Lemma run_propose db payload i1 i2 t1 t2 :
  ObjectId_of (ProposeChallengeRequest.challenger_team_id payload) = Some i1 →
  ObjectId_of (ProposeChallengeRequest.opponent_team_id payload) = Some i2 →
  find_one (db_team db) i1 = Some (i1, t1) →
  find_one (db_team db) i2 = Some (i2, t2) →
  propose_challenge payload db =
  if decide (Team.country t1 ≠ Team.country t2
             ∨ Team.country t1 ≠ ProposeChallengeRequest.country payload)
  then (inl (HTTPException 400 "Teams must be from the same country"), db)
  else if decide (Team.game t1 ≠ Team.game t2
                  ∨ Team.game t1 ≠ ProposeChallengeRequest.game payload)
  then (inl (HTTPException 400 "Both teams must play the same game"), db)
  else (inr (Some (str (generate (fst <$> db_challenge db)), proposal payload)),
        put challenge
          (db_challenge db ++ [(generate (fst <$> db_challenge db), proposal payload)])
          db).
Proof.
  intros Hid1 Hid2 Ht1 Ht2. unfold propose_challenge.
  rewrite run_bind, (run_find_by_id _ _ _ _ Hid1). store. rewrite Ht1.
  rewrite run_bind, (run_find_by_id _ _ _ _ Hid2). store. rewrite Ht2.
  destruct (decide (Team.country t1 ≠ Team.country t2 ∨ _)) as [Hc|Hc].
  { by rewrite bool_decide_eq_true_2. }
  rewrite (bool_decide_eq_false_2 _ Hc).
  destruct (decide (Team.game t1 ≠ Team.game t2 ∨ _)) as [Hg|Hg].
  { by rewrite bool_decide_eq_true_2. }
  rewrite (bool_decide_eq_false_2 _ Hg).
  rewrite run_bind. unfold create_document at 1, insert_one. store.
  rewrite run_bind, (run_find_by_id _ _ _ _ (ObjectId_of_str _)). store.
  by rewrite find_one_inserted.
Qed.

(** C5: when both teams exist, proposing fails with a constraint violation
    exactly when the teams' countries or games disagree with each other or
    with the request, and then writes nothing; otherwise it succeeds and
    appends a challenge in status proposed, with both approvals false, that
    carries the request's fields. *)
Theorem propose_challenge_checks
    (db : DB) (payload : ProposeChallengeRequest.t) (i1 i2 : ObjectId) (t1 t2 : Team.t) :
  ObjectId_of (ProposeChallengeRequest.challenger_team_id payload) = Some i1 →
  ObjectId_of (ProposeChallengeRequest.opponent_team_id payload) = Some i2 →
  find_one (db_team db) i1 = Some (i1, t1) →
  find_one (db_team db) i2 = Some (i2, t2) →
  ((∃ e, outcome (propose_challenge payload) db = inl e ∧ ConstraintViolation e)
   ↔ mismatch t1 t2 payload)
  ∧ ((∃ e, outcome (propose_challenge payload) db = inl e) ↔ mismatch t1 t2 payload)
  ∧ (mismatch t1 t2 payload → exec (propose_challenge payload) db = db)
  ∧ (¬ mismatch t1 t2 payload →
     ∃ cid ch,
       propose_challenge payload db
       = (inr (Some (str cid, ch)), put challenge (db_challenge db ++ [(cid, ch)]) db)
       ∧ Challenge.status ch = Challenge.proposed
       ∧ Challenge.approvals ch = no_approvals
       ∧ Challenge.approvals ch !! "challenger" = Some false
       ∧ Challenge.approvals ch !! "opponent" = Some false
       ∧ Challenge.challenger_team_id ch
         = ProposeChallengeRequest.challenger_team_id payload
       ∧ Challenge.opponent_team_id ch
         = ProposeChallengeRequest.opponent_team_id payload
       ∧ Challenge.game ch = ProposeChallengeRequest.game payload
       ∧ Challenge.country ch = ProposeChallengeRequest.country payload
       ∧ Challenge.proposed_datetime ch = ProposeChallengeRequest.proposed_datetime payload
       ∧ Challenge.format ch = ProposeChallengeRequest.format payload
       ∧ Challenge.venue_id ch = ProposeChallengeRequest.venue_id payload
       ∧ Challenge.notes ch = ProposeChallengeRequest.notes payload).
Proof.
  intros Hid1 Hid2 Ht1 Ht2.
  unfold outcome, exec. rewrite (run_propose db payload _ _ _ _ Hid1 Hid2 Ht1 Ht2).
  assert (∀ d, d ∈ ConstraintViolation_details → mismatch t1 t2 payload →
    ((∃ e, (inl (HTTPException 400 d) : Exception + option (string * Challenge.t)) = inl e
           ∧ ConstraintViolation e) ↔ mismatch t1 t2 payload)
    ∧ ((∃ e, (inl (HTTPException 400 d) : Exception + option (string * Challenge.t)) = inl e)
       ↔ mismatch t1 t2 payload)) as Hrefused.
  { intros d Hd Hm. split; (split; [done|intros _]).
    - eexists. split; [done|]. by eexists.
    - by eexists. }
  destruct (decide (Team.country t1 ≠ Team.country t2 ∨ _)) as [Hc|Hc].
  { assert (mismatch t1 t2 payload) as Hm by (unfold mismatch; tauto).
    destruct (Hrefused "Teams must be from the same country") as [? ?];
      [by apply (bool_decide_unpack _)|done|].
    cbn [fst snd]. repeat split; try tauto; done. }
  destruct (decide (Team.game t1 ≠ Team.game t2 ∨ _)) as [Hg|Hg].
  { assert (mismatch t1 t2 payload) as Hm by (unfold mismatch; tauto).
    destruct (Hrefused "Both teams must play the same game") as [? ?];
      [by apply (bool_decide_unpack _)|done|].
    cbn [fst snd]. repeat split; try tauto; done. }
  assert (¬ mismatch t1 t2 payload) as Hm by (unfold mismatch; tauto).
  cbn [fst snd].
  split; [split; [by intros (e & [=] & _)|done]|].
  split; [split; [by intros (e & [=])|done]|].
  split; [done|]. intros _. by eexists _, _.
Qed.

(** ** Team creation *)

Lemma run_create_team db payload :
  create_team payload db
  = (inr (Some (str (generate (fst <$> db_team db)), enrolled payload)),
     put team (db_team db ++ [(generate (fst <$> db_team db), enrolled payload)]) db).
Proof.
  unfold create_team. fold (enrolled payload).
  rewrite run_bind. unfold create_document at 1, insert_one. store.
  rewrite run_bind, (run_find_by_id _ _ _ _ (ObjectId_of_str _)). store.
  by rewrite find_one_inserted.
Qed.

Lemma truthy_spec (s : string) : truthy s = true ↔ s ≠ "".
Proof.
  unfold truthy. rewrite negb_true_iff. apply String.eqb_neq.
Qed.

(** C8 (amended): a team created with a non-empty captain id is stored with
    the captain among its members; the members supplied are kept, and only
    the captain is ever added. *)
Theorem create_team_enrols_captain (db : DB) (payload : Team.t) :
  Team.captain_user_id payload ≠ "" →
  ∃ i t,
    create_team payload db
    = (inr (Some (str i, t)), put team (db_team db ++ [(i, t)]) db)
    ∧ Team.captain_user_id t = Team.captain_user_id payload
    ∧ Team.captain_user_id t ∈ Team.member_user_ids t
    ∧ (∀ u, u ∈ Team.member_user_ids t
            ↔ u ∈ Team.member_user_ids payload ∨ u = Team.captain_user_id payload)
    ∧ Team.name t = Team.name payload
    ∧ Team.game t = Team.game payload
    ∧ Team.country t = Team.country payload
    ∧ Team.stats t = Team.stats payload.
Proof.
  intros Hcap. rewrite run_create_team. eexists _, _. split; [reflexivity|].
  unfold enrolled. apply truthy_spec in Hcap. rewrite Hcap. cbn [andb].
  destruct payload as [nm g c cap ms ach st]. cbn in *.
  case_bool_decide as Hin; cbn.
  - repeat split; try done; [tauto|]. by intros [?| ->].
  - repeat split; try done.
    + apply elem_of_app. right. by apply list_elem_of_singleton.
    + rewrite elem_of_app, list_elem_of_singleton. tauto.
    + rewrite elem_of_app, list_elem_of_singleton. tauto.
Qed.

(** ** Team statistics *)

Lemma get0_insert (s : gmap string Any) (k k' : string) (z : Z) :
  get0 (<[k := AInt z]> s) k' = if decide (k = k') then z else get0 s k'.
Proof.
  unfold get0. case_decide as Hk.
  - subst k'. by rewrite lookup_insert_eq.
  - by rewrite lookup_insert_ne.
Qed.

Lemma is_int_insert (s : gmap string Any) (k k' : string) (z : Z) :
  is_int (s !! k') = true → is_int (<[k := AInt z]> s !! k') = true.
Proof.
  intros Hk'. destruct (decide (k = k')) as [->|Hk].
  - by rewrite lookup_insert_eq.
  - by rewrite lookup_insert_ne.
Qed.

Lemma incr_int (k : string) (n : Z) (s : gmap string Any) :
  is_int (s !! k) = true → incr k n s = inr (<[k := AInt (get0 s k + n)]> s).
Proof. unfold incr, get0. by destruct (s !! k) as [[]|]. Qed.

Lemma integral_forallb (s : gmap string Any) :
  forallb (λ k, is_int (s !! k)) counters = true → integral s.
Proof.
  intros Hall k Hk. cbn in Hall.
  repeat (apply andb_true_iff in Hall as [? Hall]).
  unfold counters in Hk.
  repeat (apply elem_of_cons in Hk as [->|Hk]; [done|]).
  by apply elem_of_nil in Hk.
Qed.

Lemma counter_integral (s : gmap string Any) (k : string) :
  integral s → bool_decide (k ∈ counters) = true → is_int (s !! k) = true.
Proof. intros Hs Hk. apply Hs. by apply bool_decide_eq_true in Hk. Qed.

(** On integer counters the additions do not raise. *)
Lemma bump_integral s won draw : integral s → bump s won draw = inr (bumped s won draw).
Proof.
  intros Hs. unfold bump, bumped. cbv zeta.
  rewrite incr_int by (by apply counter_integral).
  destruct draw; [|destruct won].
  - rewrite incr_int by (by apply is_int_insert, counter_integral).
    by rewrite incr_int by (by do 2 apply is_int_insert; apply counter_integral).
  - rewrite incr_int by (by apply is_int_insert, counter_integral).
    by rewrite incr_int by (by do 2 apply is_int_insert; apply counter_integral).
  - by rewrite incr_int by (by apply is_int_insert, counter_integral).
Qed.

Lemma integral_bumped s won draw : integral s → integral (bumped s won draw).
Proof.
  intros Hs k Hk. unfold bumped. cbv zeta.
  destruct draw; [|destruct won]; repeat apply is_int_insert; by apply Hs.
Qed.

Lemma bumped_draw s won : integral s → gains s (bumped s won true) 1 0 0 1 1.
Proof.
  intros Hs. unfold gains. split_and!; [..|by apply integral_bumped];
    unfold bumped; rewrite ?get0_insert; simpl; try lia.
  intros k Hk.
  rewrite !lookup_insert_ne; [done|intros <-; apply Hk..];
    by apply (bool_decide_unpack _).
Qed.

Lemma bumped_win s : integral s → gains s (bumped s true false) 1 1 0 0 3.
Proof.
  intros Hs. unfold gains. split_and!; [..|by apply integral_bumped];
    unfold bumped; rewrite ?get0_insert; simpl; try lia.
  intros k Hk.
  rewrite !lookup_insert_ne; [done|intros <-; apply Hk..];
    by apply (bool_decide_unpack _).
Qed.

Lemma bumped_loss s : integral s → gains s (bumped s false false) 1 0 1 0 0.
Proof.
  intros Hs. unfold gains. split_and!; [..|by apply integral_bumped];
    unfold bumped; rewrite ?get0_insert; simpl; try lia.
  intros k Hk.
  rewrite !lookup_insert_ne; [done|intros <-; apply Hk..];
    by apply (bool_decide_unpack _).
Qed.

Lemma bumped_ok s won draw : stats_ok s → stats_ok (bumped s won draw).
Proof.
  unfold stats_ok. intros [Hint Hs]. split; [by apply integral_bumped|].
  destruct draw; [|destruct won].
  - destruct (bumped_draw s won Hint) as (-> & -> & -> & -> & -> & _). lia.
  - destruct (bumped_win s Hint) as (-> & -> & -> & -> & -> & _). lia.
  - destruct (bumped_loss s Hint) as (-> & -> & -> & -> & -> & _). lia.
Qed.

Lemma bump_ok s won draw :
  stats_ok s → ∃ s', bump s won draw = inr s' ∧ stats_ok s'.
Proof.
  intros Hs. exists (bumped s won draw).
  split; [apply bump_integral, Hs|by apply bumped_ok].
Qed.

Lemma find_one_elem_of {D} (c : Collection D) i x : find_one c i = Some x → x ∈ c.
Proof.
  induction c as [|[k e] c IH]; simpl; [done|].
  case_decide.
  - intros [= <-]. apply list_elem_of_here.
  - intros Hx. by apply list_elem_of_further, IH.
Qed.

Lemma preserves_bind I {A B} (m : M A) (f : A → M B) :
  preserves I m → (∀ a, preserves I (f a)) → preserves I (m ≫= f).
Proof.
  intros Hm Hf db Hdb. specialize (Hm db Hdb). unfold exec in *.
  rewrite run_bind. destruct (m db) as [[e|a] db']; simpl in *; [done|].
  by apply Hf.
Qed.

Lemma preserves_ret I {A} (a : A) : preserves I (mret a).
Proof. by intros db. Qed.

Lemma preserves_raise I {A} e : preserves I (raise e : M A).
Proof. by intros db. Qed.

Lemma preserves_find_by_id I {D} (c : Coll D) s : preserves I (find_by_id c s).
Proof.
  intros db Hdb. unfold exec, find_by_id, oid.
  by destruct (ObjectId_of s).
Qed.

Lemma preserves_update_challenge s f :
  preserves teams_ok (update_by_id challenge s f).
Proof.
  intros db Hdb. unfold exec, update_by_id, oid.
  by destruct (ObjectId_of s).
Qed.

Lemma preserves_create_match d : preserves teams_ok (create_document match_ d).
Proof. by intros db Hdb. Qed.

Lemma preserves_update_stats team_id won draw :
  preserves teams_ok (update_stats team_id won draw).
Proof.
  intros db Hdb. unfold exec, update_stats, find_by_id, update_by_id, oid.
  destruct (ObjectId_of team_id) as [i|] eqn:Hid; [|done].
  rewrite !run_bind. unfold mret at 1, M_ret at 1, reading. store.
  destruct (find_one (db_team db) i) as [[k tm]|] eqn:Htm; [|done].
  assert (stats_ok (Team.stats tm)) as Hok.
  { apply find_one_elem_of in Htm.
    by apply (proj1 (Forall_forall _ _) Hdb) in Htm. }
  rewrite (bump_integral _ _ _ (proj1 Hok)).
  rewrite !run_bind. unfold mret, M_ret, writing. store.
  unfold teams_ok in *. store.
  apply (update_one_Forall (λ t, stats_ok (Team.stats t))); [|done].
  intros d _. destruct d; cbn. by apply bumped_ok.
Qed.

Lemma preserves_record_match_result payload :
  preserves teams_ok (record_match_result payload).
Proof.
  unfold record_match_result.
  apply preserves_bind; [apply preserves_find_by_id|].
  intros [[k ch]|]; [|apply preserves_raise].
  case_match; [apply preserves_raise|].
  case_match; [|apply preserves_raise].
  apply preserves_bind; [apply preserves_create_match|]. intros mid.
  apply preserves_bind; [apply preserves_update_challenge|]. intros _.
  apply preserves_bind.
  - case_match; (apply preserves_bind; [|intros _]); apply preserves_update_stats.
  - intros _. apply preserves_bind; [apply preserves_find_by_id|].
    intros doc. apply preserves_ret.
Qed.

(** C9 (amended): a team created with the schema's default statistics is
    stored with all five counters at zero, so non-negative integers with
    [matches = wins + losses + draws]; and every statistics update, which
    does not raise on such counters, hence every recorded result, keeps these
    properties on every stored team. *)
Theorem stats_ok_preserved :
  (∀ db payload,
     Team.stats payload = Team.default_stats →
     ∃ i t, db_team (exec (create_team payload) db) = db_team db ++ [(i, t)]
            ∧ Team.stats t = Team.default_stats
            ∧ stats_ok (Team.stats t))
  ∧ (∀ s won draw, stats_ok s → ∃ s', bump s won draw = inr s' ∧ stats_ok s')
  ∧ (∀ db team_id won draw,
       teams_ok db → teams_ok (exec (update_stats team_id won draw) db))
  ∧ (∀ db payload,
       teams_ok db → teams_ok (exec (record_match_result payload) db)).
Proof.
  split; [|split; [|split]].
  - intros db payload Hstats. unfold exec. rewrite run_create_team. store.
    eexists _, _. split; [done|].
    assert (Team.stats (enrolled payload) = Team.default_stats) as ->.
    { unfold enrolled. by destruct (_ && _), payload. }
    split; [done|]. split; [by apply integral_forallb|by vm_compute].
  - intros s won draw. apply bump_ok.
  - intros db team_id won draw. apply preserves_update_stats.
  - intros db payload. apply preserves_record_match_result.
Qed.

(** ** Record result *)

Lemma run_update_stats db team_id i tm won draw :
  ObjectId_of team_id = Some i →
  find_one (db_team db) i = Some (i, tm) →
  integral (Team.stats tm) →
  update_stats team_id won draw db
  = (inr (), put team (update_one (db_team db) i
                         (Team.set_stats (bumped (Team.stats tm) won draw))) db).
Proof.
  intros Hid Htm Hint. unfold update_stats.
  rewrite run_bind, (run_find_by_id _ _ _ _ Hid). store. rewrite Htm.
  rewrite (bump_integral _ _ _ Hint).
  by rewrite (run_update_by_id _ _ _ _ _ Hid).
Qed.

(** Two statistics updates in a row, on two different teams. *)
Lemma run_update_stats_twice db id1 id2 i1 i2 t1 t2 won1 draw1 won2 draw2 :
  ObjectId_of id1 = Some i1 → ObjectId_of id2 = Some i2 → i1 ≠ i2 →
  find_one (db_team db) i1 = Some (i1, t1) →
  find_one (db_team db) i2 = Some (i2, t2) →
  integral (Team.stats t1) → integral (Team.stats t2) →
  ∃ c',
    (update_stats id1 won1 draw1;; update_stats id2 won2 draw2) db
    = (inr (), put team c' db)
    ∧ find_one c' i1 = Some (i1, Team.set_stats (bumped (Team.stats t1) won1 draw1) t1)
    ∧ find_one c' i2 = Some (i2, Team.set_stats (bumped (Team.stats t2) won2 draw2) t2)
    ∧ ∀ j, j ≠ i1 → j ≠ i2 → find_one c' j = find_one (db_team db) j.
Proof.
  intros Hid1 Hid2 Hne Ht1 Ht2 Hint1 Hint2.
  rewrite run_bind, (run_update_stats _ _ _ _ _ _ Hid1 Ht1 Hint1).
  erewrite (run_update_stats _ _ _ t2 _ _ Hid2);
    [|store; by rewrite find_one_update_one_ne|done].
  store. eexists. split; [reflexivity|]. split; [|split].
  - rewrite find_one_update_one_ne by done. by apply find_one_update_one_eq.
  - apply find_one_update_one_eq. by rewrite find_one_update_one_ne.
  - intros j Hj1 Hj2. by rewrite !find_one_update_one_ne.
Qed.

(** What [record_match_result] answers and leaves when nothing stands in its
    way: the challenge exists and has a venue, the winner takes part, the two
    teams are two stored documents and their counters are integers. *)
Lemma run_record_match_result
    (db : DB) (payload : RecordResultRequest.t) (i : ObjectId) (ch : Challenge.t)
    (v : string) (ia ib : ObjectId) (ta tb : Team.t) :
  ObjectId_of (RecordResultRequest.challenge_id payload) = Some i →
  find_one (db_challenge db) i = Some (i, ch) →
  RecordResultRequest.winner_team_id payload
    ∈ [Challenge.challenger_team_id ch; Challenge.opponent_team_id ch] →
  Challenge.venue_id ch = Some v →
  ObjectId_of (Challenge.challenger_team_id ch) = Some ia →
  ObjectId_of (Challenge.opponent_team_id ch) = Some ib →
  ia ≠ ib →
  find_one (db_team db) ia = Some (ia, ta) →
  find_one (db_team db) ib = Some (ib, tb) →
  integral (Team.stats ta) →
  integral (Team.stats tb) →
  ∃ c' sa sb,
    record_match_result payload db
    = (inr (Some (str (generate (fst <$> db_match db)), match_of payload ch v)),
       mkDB c' (db_venue db)
         (update_one (db_challenge db) i
            (Challenge.set [Challenge.set_status Challenge.completed]))
         (db_booking db)
         (db_match db ++ [(generate (fst <$> db_match db), match_of payload ch v)]))
    ∧ find_one c' ia = Some (ia, Team.set_stats sa ta)
    ∧ find_one c' ib = Some (ib, Team.set_stats sb tb)
    ∧ (RecordResultRequest.score_a payload = RecordResultRequest.score_b payload →
       gains (Team.stats ta) sa 1 0 0 1 1 ∧ gains (Team.stats tb) sb 1 0 0 1 1)
    ∧ (RecordResultRequest.score_a payload ≠ RecordResultRequest.score_b payload →
       RecordResultRequest.winner_team_id payload = Challenge.challenger_team_id ch →
       gains (Team.stats ta) sa 1 1 0 0 3 ∧ gains (Team.stats tb) sb 1 0 1 0 0)
    ∧ (RecordResultRequest.score_a payload ≠ RecordResultRequest.score_b payload →
       RecordResultRequest.winner_team_id payload = Challenge.opponent_team_id ch →
       gains (Team.stats tb) sb 1 1 0 0 3 ∧ gains (Team.stats ta) sa 1 0 1 0 0)
    ∧ (∀ j, j ≠ ia → j ≠ ib → find_one c' j = find_one (db_team db) j).
Proof.
  intros Hid Hch Hwin Hv Hia Hib Hne Hta Htb Hinta Hintb.
  assert (Challenge.challenger_team_id ch ≠ Challenge.opponent_team_id ch) as Hstr
    by congruence.
  unfold record_match_result.
  rewrite run_bind, (run_find_by_id _ _ _ _ Hid). store. rewrite Hch. cbv zeta.
  rewrite bool_decide_eq_true_2 by done. cbn [negb]. rewrite Hv.
  fold (match_of payload ch v).
  rewrite run_bind. unfold create_document at 1, insert_one. store.
  rewrite run_bind, (run_update_by_id _ _ _ _ _ Hid). store.
  rewrite run_bind.
  destruct (decide (RecordResultRequest.score_a payload
                    = RecordResultRequest.score_b payload)) as [Hdraw|Hdiff].
  - rewrite bool_decide_eq_true_2 by done.
    edestruct (run_update_stats_twice) as (c' & -> & Ha & Hb & Hother);
      [exact Hia|exact Hib|exact Hne|store; exact Hta|store; exact Htb
      |exact Hinta|exact Hintb|].
    rewrite run_bind, (run_find_by_id _ _ _ _ (ObjectId_of_str _)). store.
    rewrite find_one_inserted.
    eexists c', _, _. split; [reflexivity|].
    split; [exact Ha|]. split; [exact Hb|].
    split; [intros _; split; by apply bumped_draw|].
    split; [done|]. split; [done|]. exact Hother.
  - rewrite bool_decide_eq_false_2 by done.
    apply elem_of_cons in Hwin as [Hw|Hw];
      [|apply list_elem_of_singleton in Hw]; rewrite Hw.
    + rewrite bool_decide_eq_true_2 by done.
      edestruct (run_update_stats_twice) as (c' & -> & Ha & Hb & Hother);
        [exact Hia|exact Hib|exact Hne|store; exact Hta|store; exact Htb
        |exact Hinta|exact Hintb|].
      rewrite run_bind, (run_find_by_id _ _ _ _ (ObjectId_of_str _)). store.
      rewrite find_one_inserted.
      eexists c', _, _. split; [reflexivity|].
      split; [exact Ha|]. split; [exact Hb|].
      split; [done|].
      split; [intros _ _; split; [by apply bumped_win|by apply bumped_loss]|].
      split; [|exact Hother]. intros _ Heq. by destruct Hstr.
    + rewrite bool_decide_eq_false_2 by done.
      edestruct (run_update_stats_twice) as (c' & -> & Hb & Ha & Hother);
        [exact Hib|exact Hia|by apply not_eq_sym|store; exact Htb|store; exact Hta
        |exact Hintb|exact Hinta|].
      rewrite run_bind, (run_find_by_id _ _ _ _ (ObjectId_of_str _)). store.
      rewrite find_one_inserted.
      eexists c', _, _. split; [reflexivity|].
      split; [exact Ha|]. split; [exact Hb|].
      split; [done|].
      split; [intros _ Heq; by destruct Hstr|].
      split; [intros _ _; split; [by apply bumped_win|by apply bumped_loss]|].
      intros j Hja Hjb. by apply Hother.
Qed.

(** C3 (amended): when the challenge exists and has a venue, the winner is
    a participant, the two teams exist and are different documents and their
    five counters are integers, recording a result succeeds; with different
    scores the winner gains one match, one win and three points and the other
    team one match and one loss; with equal scores both gain one match, one
    draw and one point.  Nothing else changes in these two teams, nor in any
    other team. *)
Theorem record_match_result_updates_stats
    (db : DB) (payload : RecordResultRequest.t) (i : ObjectId) (ch : Challenge.t)
    (v : string) (ia ib : ObjectId) (ta tb : Team.t) :
  ObjectId_of (RecordResultRequest.challenge_id payload) = Some i →
  find_one (db_challenge db) i = Some (i, ch) →
  RecordResultRequest.winner_team_id payload
    ∈ [Challenge.challenger_team_id ch; Challenge.opponent_team_id ch] →
  Challenge.venue_id ch = Some v →
  ObjectId_of (Challenge.challenger_team_id ch) = Some ia →
  ObjectId_of (Challenge.opponent_team_id ch) = Some ib →
  ia ≠ ib →
  find_one (db_team db) ia = Some (ia, ta) →
  find_one (db_team db) ib = Some (ib, tb) →
  integral (Team.stats ta) →
  integral (Team.stats tb) →
  ∃ r db' sa sb,
    record_match_result payload db = (inr r, db')
    ∧ find_one (db_team db') ia = Some (ia, Team.set_stats sa ta)
    ∧ find_one (db_team db') ib = Some (ib, Team.set_stats sb tb)
    ∧ (RecordResultRequest.score_a payload = RecordResultRequest.score_b payload →
       gains (Team.stats ta) sa 1 0 0 1 1 ∧ gains (Team.stats tb) sb 1 0 0 1 1)
    ∧ (RecordResultRequest.score_a payload ≠ RecordResultRequest.score_b payload →
       RecordResultRequest.winner_team_id payload = Challenge.challenger_team_id ch →
       gains (Team.stats ta) sa 1 1 0 0 3 ∧ gains (Team.stats tb) sb 1 0 1 0 0)
    ∧ (RecordResultRequest.score_a payload ≠ RecordResultRequest.score_b payload →
       RecordResultRequest.winner_team_id payload = Challenge.opponent_team_id ch →
       gains (Team.stats tb) sb 1 1 0 0 3 ∧ gains (Team.stats ta) sa 1 0 1 0 0)
    ∧ (∀ j, j ≠ ia → j ≠ ib → find_one (db_team db') j = find_one (db_team db) j).
Proof.
  intros Hid Hch Hwin Hv Hia Hib Hne Hta Htb Hinta Hintb.
  destruct (run_record_match_result db payload i ch v ia ib ta tb
              Hid Hch Hwin Hv Hia Hib Hne Hta Htb Hinta Hintb)
    as (c' & sa & sb & Hrun & Hrest).
  eexists _, _, sa, sb. split; [exact Hrun|]. exact Hrest.
Qed.

(** ** Leaderboard *)

Section sort_desc.
Context {A : Type} (key : A → Z * Z).

Lemma not_key_lt (a b : Z * Z) : ¬ key_lt a b ↔ key_le b a.
Proof.
  unfold key_le, key_lt. destruct a as [a1 a2], b as [b1 b2]; simpl.
  split.
  - intros Hn. destruct (decide (b1 = a1 ∧ b2 = a2)) as [[-> ->]|Hne]; [by left|].
    right. lia.
  - intros [[= -> ->]|Hlt]; lia.
Qed.

Lemma key_ge_trans x y z : key_ge key x y → key_ge key y z → key_ge key x z.
Proof.
  unfold key_ge, key_le, key_lt.
  destruct (key x) as [x1 x2], (key y) as [y1 y2], (key z) as [z1 z2]; simpl.
  intros [[= -> ->]|Hxy] [[= -> ->]|Hyz]; auto. right. lia.
Qed.

Lemma insert_desc_Permutation x l : insert_desc key x l ≡ₚ x :: l.
Proof.
  induction l as [|y l IH]; simpl; [done|].
  case_decide; [|done]. rewrite IH. apply Permutation_swap.
Qed.

Lemma sort_desc_Permutation l : sort_desc key l ≡ₚ l.
Proof.
  induction l as [|x l IH]; simpl; [done|].
  by rewrite insert_desc_Permutation, IH.
Qed.

Lemma insert_desc_sorted x l :
  StronglySorted (key_ge key) l → StronglySorted (key_ge key) (insert_desc key x l).
Proof.
  induction l as [|y l IH]; simpl; intros Hl.
  - by repeat constructor.
  - apply StronglySorted_inv in Hl as [Hl Hy].
    case_decide as Hlt.
    + constructor; [by apply IH|].
      rewrite insert_desc_Permutation. constructor; [|done].
      unfold key_ge, key_le. by right.
    + apply not_key_lt in Hlt.
      constructor; [by constructor|]. constructor; [done|].
      eapply Forall_impl; [exact Hy|]. intros z Hz. by eapply key_ge_trans.
Qed.

Lemma sort_desc_sorted l : StronglySorted (key_ge key) (sort_desc key l).
Proof.
  induction l as [|x l IH]; simpl; [constructor|]. by apply insert_desc_sorted.
Qed.

Lemma insert_desc_stable k x l :
  filter (λ y, key y = k) (insert_desc key x l) = filter (λ y, key y = k) (x :: l).
Proof.
  induction l as [|y l IH]; simpl; [done|].
  case_decide as Hlt; [|done].
  rewrite !filter_cons in *. rewrite IH.
  destruct (decide (key y = k)) as [Hy|Hy], (decide (key x = k)) as [Hx|Hx]; try done.
  exfalso. rewrite Hx, Hy in Hlt. unfold key_lt in Hlt. lia.
Qed.

Lemma sort_desc_stable k l :
  filter (λ y, key y = k) (sort_desc key l) = filter (λ y, key y = k) l.
Proof.
  induction l as [|x l IH]; simpl; [done|].
  rewrite insert_desc_stable, !filter_cons. by rewrite IH.
Qed.

End sort_desc.

Lemma slice_to_nonneg {A} (l : list A) (limit : Z) :
  0 ≤ limit → slice_to l limit = take (Z.to_nat limit) l.
Proof. intros Hl. unfold slice_to. by rewrite decide_True. Qed.

Lemma filter_selected db scope game country :
  ¬ (scope = local ∧ truthy_opt country = false) →
  filter (λ t, matches (mkFilter (if truthy_opt game then game else None)
                          (match scope with local => country | global => None end)) t
               = true) (db_team db)
  = filter (λ t, selected scope game country t = true) (db_team db).
Proof.
  intros Hscope. apply list_filter_iff. intros t. unfold matches, selected. cbn.
  destruct scope, game as [g|], country as [c|]; cbn in *; try done;
    try (by destruct (truthy g)); by destruct Hscope.
Qed.

Lemma run_sort_teams teams db :
  forallb int_key teams = true →
  sort_teams teams db = (inr (sort_desc sort_key teams), db).
Proof. intros Hint. unfold sort_teams. by rewrite Hint. Qed.

Lemma exec_sort_teams teams db : exec (sort_teams teams) db = db.
Proof.
  unfold exec, sort_teams. destruct (forallb int_key teams); [done|].
  by destruct (sort_keys (key <$> teams)).
Qed.

Lemma run_leaderboard db scope game country limit :
  leaderboard scope game country limit db =
  if decide (default global scope = local ∧ truthy_opt country = false)
  then (inl (HTTPException 400 "Country is required for local leaderboard"), db)
  else (teams ← sort_teams
                  (filter (λ t, selected (default global scope) game country t = true)
                     (db_team db));
        mret (row <$> slice_to teams (default 20 limit))) db.
Proof.
  unfold leaderboard. cbv zeta. rewrite run_bind.
  case_decide as Hscope.
  - destruct Hscope as [-> ->]. done.
  - rewrite <- (filter_selected db (default global scope) game country Hscope).
    destruct (default global scope) eqn:Hs.
    + destruct (truthy_opt country) eqn:Hc; cbn [negb]; [|by destruct Hscope].
      unfold mret at 1, M_ret at 1. rewrite run_bind. unfold find_teams, reading. by store.
    + unfold mret at 1, M_ret at 1. rewrite run_bind. unfold find_teams, reading. by store.
Qed.

Lemma exec_leaderboard db scope game country limit :
  exec (leaderboard scope game country limit) db = db.
Proof.
  unfold exec. rewrite run_leaderboard.
  case_decide; [done|]. rewrite run_bind.
  pose proof (exec_sort_teams
                (filter (λ t, selected (default global scope) game country t = true)
                   (db_team db)) db) as Hsort.
  unfold exec in Hsort. by destruct (sort_teams _ db) as [[e|teams] db']; subst.
Qed.

(** C7 (amended): a local query without a (non-empty) country fails with a
    constraint violation.  Any other query, when the points and wins of the
    teams it selects are integers, answers with the rows of these teams (the
    teams of the game when a non-empty game is given, of the country in the
    local scope only), sorted by decreasing [(points, wins)], points first and
    wins breaking ties, teams of equal key staying in collection order, and
    cut by [teams[:limit]]: the first [limit] rows when [limit] is not
    negative, the first 20 when it is omitted.  No query writes. *)
Theorem leaderboard_ranks
    (db : DB) (scope : option Scope) (game country : option string) (limit : option Z) :
  (default global scope = local ∧ truthy_opt country = false →
   leaderboard scope game country limit db
   = (inl (HTTPException 400 "Country is required for local leaderboard"), db)
   ∧ ConstraintViolation (HTTPException 400 "Country is required for local leaderboard"))
  ∧ (¬ (default global scope = local ∧ truthy_opt country = false) →
     forallb int_key
       (filter (λ t, selected (default global scope) game country t = true) (db_team db))
     = true →
     ∃ teams,
       leaderboard scope game country limit db
       = (inr (row <$> slice_to teams (default 20 limit)), db)
       ∧ teams ≡ₚ filter (λ t, selected (default global scope) game country t = true)
                    (db_team db)
       ∧ StronglySorted (key_ge sort_key) teams
       ∧ (∀ k, filter (λ t, sort_key t = k) teams
               = filter (λ t, sort_key t = k)
                   (filter (λ t, selected (default global scope) game country t = true)
                      (db_team db)))
       ∧ (0 ≤ default 20 limit →
          slice_to teams (default 20 limit) = take (Z.to_nat (default 20 limit)) teams)
       ∧ (limit = None → slice_to teams (default 20 limit) = take 20 teams))
  ∧ exec (leaderboard scope game country limit) db = db.
Proof.
  split; [|split; [|apply exec_leaderboard]]; rewrite run_leaderboard.
  - intros Hlocal. rewrite decide_True by done. split; [done|].
    eexists. split; [done|]. by apply (bool_decide_unpack _).
  - intros Hok Hint. rewrite decide_False by done.
    rewrite run_bind, (run_sort_teams _ _ Hint).
    eexists. split; [reflexivity|].
    split; [apply sort_desc_Permutation|].
    split; [apply sort_desc_sorted|].
    split; [intros k; apply sort_desc_stable|].
    split; [apply slice_to_nonneg|]. by intros ->.
Qed.

(** ** Terminal states *)

Lemma terminal_not_bookable (st : Challenge.Status) :
  Challenge.terminal st = true → ¬ bookable st.
Proof. unfold bookable. destruct st; intros [=]; by apply (bool_decide_unpack _). Qed.

Lemma update_stats_keeps_challenges c team_id won draw :
  preserves (λ db, db_challenge db = c) (update_stats team_id won draw).
Proof.
  intros db Hdb. unfold exec, update_stats, find_by_id, update_by_id, oid.
  destruct (ObjectId_of team_id) as [i|] eqn:Hid; [|done].
  rewrite !run_bind. unfold mret at 1, M_ret at 1, reading. store.
  destruct (find_one (db_team db) i) as [[k tm]|]; [|done].
  by destruct (bump (Team.stats tm) won draw).
Qed.

Lemma confirm_keeps_challenges db booking_id :
  db_challenge (exec (confirm_booking booking_id true) db) = db_challenge db.
Proof.
  unfold confirm_booking. unfold_M. store.
  destruct (ObjectId_of booking_id) as [ib|] eqn:Hib; simpl; [|done].
  by destruct (find_one (db_booking db) ib) as [[k bk]|].
Qed.

Lemma run_cancel db booking_id ib bk i ch :
  ObjectId_of booking_id = Some ib →
  find_one (db_booking db) ib = Some (ib, bk) →
  ObjectId_of (Booking.challenge_id bk) = Some i →
  find_one (db_challenge db) i = Some (i, ch) →
  find_one (db_challenge (exec (confirm_booking booking_id false) db)) i
  = Some (i, Challenge.set [Challenge.set_status Challenge.approved] ch)
  ∧ find_one (db_booking (exec (confirm_booking booking_id false) db)) ib
    = Some (ib, Booking.set_status Booking.cancelled bk).
Proof.
  intros Hib Hbk Hid Hch. unfold exec, confirm_booking.
  rewrite run_bind, (run_find_by_id _ _ _ _ Hib). store. rewrite Hbk.
  rewrite run_bind, (run_update_by_id _ _ _ _ _ Hib). store.
  rewrite run_bind. cbn [bool_decide decide_rel].
  rewrite bool_decide_eq_true_2 by done.
  rewrite (run_update_by_id _ _ _ _ _ Hid). store.
  rewrite run_bind, (run_find_by_id _ _ _ _ Hib). store.
  unfold mret, M_ret. store.
  split; by apply find_one_update_one_eq.
Qed.

Lemma run_record_status db payload i ch v :
  ObjectId_of (RecordResultRequest.challenge_id payload) = Some i →
  find_one (db_challenge db) i = Some (i, ch) →
  RecordResultRequest.winner_team_id payload
    ∈ [Challenge.challenger_team_id ch; Challenge.opponent_team_id ch] →
  Challenge.venue_id ch = Some v →
  find_one (db_challenge (exec (record_match_result payload) db)) i
  = Some (i, Challenge.set [Challenge.set_status Challenge.completed] ch).
Proof.
  intros Hid Hch Hwin Hv. unfold exec, record_match_result.
  rewrite run_bind, (run_find_by_id _ _ _ _ Hid). store. rewrite Hch. cbv zeta.
  rewrite bool_decide_eq_true_2 by done. cbn [negb]. rewrite Hv.
  rewrite run_bind. unfold create_document at 1, insert_one. store.
  rewrite run_bind, (run_update_by_id _ _ _ _ _ Hid). store.
  match goal with
  | |- find_one (db_challenge (?m ?d).2) _ = _ =>
      assert (preserves (λ db', db_challenge db' = db_challenge d) m) as Hrest
  end.
  { apply preserves_bind.
    - case_match; (apply preserves_bind; [|intros _]);
        apply update_stats_keeps_challenges.
    - intros _. apply preserves_bind; [apply preserves_find_by_id|].
      intros doc. apply preserves_ret. }
  unfold preserves, exec in Hrest. rewrite Hrest by done. store.
  by apply find_one_update_one_eq.
Qed.

(** C6 (amended): a challenge in a terminal state is not frozen.  Booking it
    is refused with a constraint violation and writes nothing, confirming a
    booking changes no challenge, and an approve that does not complete both
    approvals keeps its status; but negotiating puts it in status
    negotiating, an approve that completes both approvals and the
    cancellation of one of its bookings put it in status approved, and
    recording a result puts it in status completed. *)
Theorem terminal_status_moves
    (db : DB) (challenge_id : string) (i : ObjectId) (ch : Challenge.t) :
  ObjectId_of challenge_id = Some i →
  find_one (db_challenge db) i = Some (i, ch) →
  Challenge.terminal (Challenge.status ch) = true →
  (∀ payload,
     create_booking_for_challenge challenge_id payload db
     = (inl (HTTPException 400 "Challenge not eligible for booking"), db)
     ∧ ConstraintViolation (HTTPException 400 "Challenge not eligible for booking"))
  ∧ (∀ booking_id,
       db_challenge (exec (confirm_booking booking_id true) db) = db_challenge db)
  ∧ (∀ role, ∃ ch',
       find_one (db_challenge (exec (approve_challenge challenge_id role) db)) i
       = Some (i, ch')
       ∧ (both_approved ch' = false → Challenge.status ch' = Challenge.status ch)
       ∧ (both_approved ch' = true → Challenge.status ch' = Challenge.approved))
  ∧ (∀ payload, ∃ ch',
       find_one (db_challenge (exec (negotiate_challenge challenge_id payload) db)) i
       = Some (i, ch')
       ∧ Challenge.status ch' = Challenge.negotiating)
  ∧ (∀ booking_id ib bk,
       ObjectId_of booking_id = Some ib →
       find_one (db_booking db) ib = Some (ib, bk) →
       ObjectId_of (Booking.challenge_id bk) = Some i →
       ∃ ch',
         find_one (db_challenge (exec (confirm_booking booking_id false) db)) i
         = Some (i, ch')
         ∧ Challenge.status ch' = Challenge.approved)
  ∧ (∀ payload v,
       RecordResultRequest.challenge_id payload = challenge_id →
       RecordResultRequest.winner_team_id payload
         ∈ [Challenge.challenger_team_id ch; Challenge.opponent_team_id ch] →
       Challenge.venue_id ch = Some v →
       ∃ ch',
         find_one (db_challenge (exec (record_match_result payload) db)) i
         = Some (i, ch')
         ∧ Challenge.status ch' = Challenge.completed).
Proof.
  intros Hid Hch Hterm. split; [|split; [|split; [|split; [|split]]]].
  - intros payload. split.
    + apply (run_book_refused db _ _ _ payload Hid Hch).
      by apply terminal_not_bookable.
    + eexists. split; [done|]. by apply (bool_decide_unpack _).
  - intros booking_id. apply confirm_keeps_challenges.
  - intros role.
    destruct (run_approve db _ _ _ role Hid Hch) as [Hrun Hfind].
    destruct (approval_status role ch) as (_ & Hboth & Hnot).
    unfold exec. rewrite Hrun. store. by eexists.
  - intros payload.
    destruct (run_negotiate db _ _ _ payload Hid Hch) as [Hrun Hfind].
    unfold exec. rewrite Hrun. store. eexists. split; [exact Hfind|].
    by destruct payload as [[d|] [f|] [v|] [n|]], ch.
  - intros booking_id ib bk Hib Hbk Hcid.
    destruct (run_cancel db _ _ _ _ _ Hib Hbk Hcid Hch) as [Hc _].
    eexists. split; [exact Hc|]. by destruct ch.
  - intros payload v <- Hwin Hv.
    eexists. split; [by eapply run_record_status|]. by destruct ch.
Qed.

End Proofs.

(** * The theorems at work on the concrete store *)

Ltac by_computation := vm_compute; reflexivity.

(** C1, violated: after a booking and its cancellation the challenge is
    approved with no approval at all; one approval then leaves it approved
    although the opponent has not approved. *)
Lemma approve_challenge_counterexample :
  ∃ ch ch',
    find_one (db_challenge db_cancelled) 0%nat = Some (0%nat, ch)
    ∧ Challenge.status ch = Challenge.approved
    ∧ Challenge.approvals ch = no_approvals
    ∧ outcome (approve_challenge "#" challenger) db_cancelled = inr (Some ("#", ch'))
    ∧ Challenge.status ch' = Challenge.approved
    ∧ approved_by (Challenge.approvals ch') "challenger" = true
    ∧ approved_by (Challenge.approvals ch') "opponent" = false.
Proof. eexists _, _. repeat split; by_computation. Qed.

Lemma approve_challenge_sets_role_witness :
  ObjectId_of "#" = Some 0%nat
  ∧ find_one (db_challenge db_proposed) 0%nat = Some (0%nat, proposal request)
  ∧ ∃ ch',
      outcome (approve_challenge "#" challenger) db_proposed = inr (Some ("#", ch'))
      ∧ Challenge.approvals ch' !! "challenger" = Some true
      ∧ Challenge.status ch' = Challenge.proposed.
Proof.
  assert (find_one (db_challenge db_proposed) 0%nat = Some (0%nat, proposal request))
    as Hch by by_computation.
  split; [reflexivity|]. split; [exact Hch|].
  destruct (approve_challenge_sets_role db_proposed "#" 0%nat (proposal request)
              challenger eq_refl Hch)
    as (ch' & db' & Hrun & _ & _ & Hrole & _ & _ & _ & Hfresh).
  exists ch'. unfold outcome. rewrite Hrun.
  split; [reflexivity|]. split; [exact Hrole|]. apply Hfresh; reflexivity.
Defined.

Lemma negotiate_challenge_resets_witness :
  ObjectId_of "#" = Some 0%nat
  ∧ (∃ ch, find_one (db_challenge db_completed) 0%nat = Some (0%nat, ch)
           ∧ Challenge.status ch = Challenge.completed)
  ∧ ∃ ch',
      outcome (negotiate_challenge "#"
                 (NegotiateChallengeRequest.mk None (Some BO5) None None)) db_completed
      = inr (Some ("#", ch'))
      ∧ Challenge.status ch' = Challenge.negotiating
      ∧ Challenge.approvals ch' = no_approvals
      ∧ Challenge.format ch' = BO5
      ∧ Challenge.venue_id ch' = Some "arena".
Proof.
  assert (find_one (db_challenge db_completed) 0%nat
          = Some (0%nat, Challenge.set [Challenge.set_status Challenge.completed]
                         (proposal (request_at "arena"))))
    as Hch by by_computation.
  split; [reflexivity|]. split; [by eexists|].
  destruct (negotiate_challenge_resets db_completed "#" 0%nat _
              (NegotiateChallengeRequest.mk None (Some BO5) None None) eq_refl Hch)
    as (ch' & db' & Hrun & _ & Happr & _ & _ & Hst & _ & Hf & Hv & _).
  exists ch'. unfold outcome. rewrite Hrun. repeat split; assumption.
Defined.

(** C3, violated: nothing stops a team from challenging itself, and a result
    recorded for such a challenge counts twice for the one team: two matches,
    a win and a loss. *)
Lemma record_match_result_counterexample :
  ∃ db r t,
    db = exec (propose_challenge
                 (ProposeChallengeRequest.mk "#" "#" "valkyrie" "US" None BO3
                    (Some "arena") None)) db_teams
    ∧ find_one (db_team db) 0%nat = Some (0%nat, enrolled team_A)
    ∧ outcome (record_match_result (RecordResultRequest.mk "#" "#" 3 1)) db = inr r
    ∧ find_one (db_team (exec (record_match_result (RecordResultRequest.mk "#" "#" 3 1)) db))
        0%nat = Some (0%nat, t)
    ∧ get0 (Team.stats (enrolled team_A)) "matches" = 0
    ∧ get0 (Team.stats t) "matches" = 2
    ∧ get0 (Team.stats t) "wins" = 1
    ∧ get0 (Team.stats t) "losses" = 1
    ∧ get0 (Team.stats t) "points" = 3.
Proof. eexists _, _, _. repeat split; by_computation. Qed.

Lemma record_match_result_updates_stats_witness :
  ∃ ta' tb',
    find_one (db_team db_teams) 0%nat = Some (0%nat, enrolled team_A)
    ∧ find_one (db_team db_teams) 1%nat = Some (1%nat, team_B)
    ∧ integral (Team.stats (enrolled team_A))
    ∧ integral (Team.stats team_B)
    ∧ find_one (db_team db_completed) 0%nat = Some (0%nat, ta')
    ∧ find_one (db_team db_completed) 1%nat = Some (1%nat, tb')
    ∧ gains (Team.stats (enrolled team_A)) (Team.stats ta') 1 1 0 0 3
    ∧ gains (Team.stats team_B) (Team.stats tb') 1 0 1 0 0.
Proof.
  assert (find_one (db_challenge (db_proposed_at "arena")) 0%nat
          = Some (0%nat, proposal (request_at "arena"))) as Hch by by_computation.
  assert (find_one (db_team (db_proposed_at "arena")) 0%nat = Some (0%nat, enrolled team_A))
    as Hta by by_computation.
  assert (find_one (db_team (db_proposed_at "arena")) 1%nat = Some (1%nat, team_B))
    as Htb by by_computation.
  assert ((0 : nat) ≠ 1%nat) as Hne by discriminate.
  assert (integral (Team.stats (enrolled team_A))) as Hinta by (by apply integral_forallb).
  assert (integral (Team.stats team_B)) as Hintb by (by apply integral_forallb).
  destruct (record_match_result_updates_stats (db_proposed_at "arena")
              (RecordResultRequest.mk "#" "#" 3 1) 0%nat _ "arena" 0%nat 1%nat
              (enrolled team_A) team_B
              eq_refl Hch (list_elem_of_here _ _) eq_refl eq_refl eq_refl Hne Hta Htb
              Hinta Hintb)
    as (r & db' & sa & sb & Hrun & Ha & Hb & _ & Hwin & _).
  destruct Hwin as [Hga Hgb]; [discriminate|reflexivity|].
  exists (Team.set_stats sa (enrolled team_A)), (Team.set_stats sb team_B).
  unfold db_completed, exec. rewrite Hrun.
  split; [by_computation|]. split; [by_computation|].
  split; [exact Hinta|]. split; [exact Hintb|].
  split; [exact Ha|]. split; [exact Hb|]. split; assumption.
Defined.

Lemma create_booking_for_challenge_guard_witness :
  (∃ ch, find_one (db_challenge db_proposed) 0%nat = Some (0%nat, ch)
         ∧ Challenge.status ch = Challenge.proposed)
  ∧ ∃ bid bk ch',
      outcome (create_booking_for_challenge "#" booking_request) db_proposed
      = inr (Some (bid, bk))
      ∧ Booking.status bk = Booking.pending
      ∧ Booking.challenge_id bk = "#"
      ∧ find_one (db_challenge db_booked) 0%nat = Some (0%nat, ch')
      ∧ Challenge.status ch' = Challenge.booked
      ∧ Challenge.venue_id ch' = Some "arena".
Proof.
  assert (find_one (db_challenge db_proposed) 0%nat = Some (0%nat, proposal request))
    as Hch by by_computation.
  split; [by eexists|].
  destruct (create_booking_for_challenge_guard db_proposed "#" 0%nat _ booking_request
              eq_refl Hch) as (_ & _ & _ & Hbook).
  destruct Hbook as (bid & bk & ch' & db' & Hrun & Hbks & Hst & Hcid & _ & _ & _
                     & Hfind & Hbooked & Hvenue & _).
  { by apply (bool_decide_unpack _). }
  exists (str bid), bk, ch'. unfold db_booked, outcome, exec. rewrite Hrun.
  repeat split; assumption.
Defined.

Lemma propose_challenge_checks_witness :
  find_one (db_team db_teams) 0%nat = Some (0%nat, enrolled team_A)
  ∧ find_one (db_team db_teams) 1%nat = Some (1%nat, team_B)
  ∧ ¬ mismatch (enrolled team_A) team_B request
  ∧ ∃ cid ch,
      propose_challenge request db_teams = (inr (Some (cid, ch)), db_proposed)
      ∧ Challenge.status ch = Challenge.proposed
      ∧ Challenge.approvals ch = no_approvals.
Proof.
  assert (find_one (db_team db_teams) 0%nat = Some (0%nat, enrolled team_A)) as Hta by by_computation.
  assert (find_one (db_team db_teams) 1%nat = Some (1%nat, team_B)) as Htb by by_computation.
  assert (¬ mismatch (enrolled team_A) team_B request) as Hok by (by apply (bool_decide_unpack _)).
  split; [exact Hta|]. split; [exact Htb|]. split; [exact Hok|].
  destruct (propose_challenge_checks db_teams request 0%nat 1%nat (enrolled team_A) team_B
              eq_refl eq_refl Hta Htb) as (_ & _ & _ & Hnew).
  destruct (Hnew Hok) as (cid & ch & Hrun & Hst & Happr & _).
  exists (str cid), ch. unfold db_proposed, exec. rewrite Hrun.
  repeat split; assumption.
Defined.

(** C6, violated: a completed challenge that is negotiated again leaves its
    terminal state for negotiating. *)
Lemma terminal_status_counterexample :
  ∃ ch ch',
    find_one (db_challenge db_completed) 0%nat = Some (0%nat, ch)
    ∧ Challenge.status ch = Challenge.completed
    ∧ Challenge.terminal (Challenge.status ch) = true
    ∧ outcome (negotiate_challenge "#" (NegotiateChallengeRequest.mk None None None None))
        db_completed = inr (Some ("#", ch'))
    ∧ find_one
        (db_challenge
           (exec (negotiate_challenge "#" (NegotiateChallengeRequest.mk None None None None))
              db_completed)) 0%nat = Some (0%nat, ch')
    ∧ Challenge.status ch' = Challenge.negotiating
    ∧ Challenge.terminal (Challenge.status ch') = false.
Proof. eexists _, _. repeat split; by_computation. Qed.

Lemma terminal_status_moves_witness :
  ∃ ch,
    find_one (db_challenge db_completed) 0%nat = Some (0%nat, ch)
    ∧ Challenge.terminal (Challenge.status ch) = true
    ∧ outcome (create_booking_for_challenge "#" booking_request) db_completed
      = inl (HTTPException 400 "Challenge not eligible for booking")
    ∧ exec (create_booking_for_challenge "#" booking_request) db_completed = db_completed
    ∧ ∃ ch',
        find_one
          (db_challenge
             (exec (negotiate_challenge "#"
                      (NegotiateChallengeRequest.mk None None None None)) db_completed))
          0%nat = Some (0%nat, ch')
        ∧ Challenge.status ch' = Challenge.negotiating.
Proof.
  assert (find_one (db_challenge db_completed) 0%nat
          = Some (0%nat, Challenge.set [Challenge.set_status Challenge.completed]
                         (proposal (request_at "arena"))))
    as Hch by by_computation.
  eexists. split; [exact Hch|]. split; [reflexivity|].
  destruct (terminal_status_moves db_completed "#" 0%nat _ eq_refl Hch eq_refl)
    as (Hbook & _ & _ & Hneg & _).
  destruct (Hbook booking_request) as [Hrun _].
  unfold outcome, exec. rewrite Hrun. split; [reflexivity|]. split; [reflexivity|].
  apply Hneg.
Defined.

(** C7, violated: a global query given a country does not filter by it. *)
Lemma leaderboard_counterexample :
  ∃ db rows,
    db = exec (create_team (team_of "Alpha" "valkyrie" "US" "u1" []);;
               create_team (team_of "Berlin" "valkyrie" "DE" "u2" [])) empty_db
    ∧ outcome (leaderboard (Some global) None (Some "US") None) db = inr rows
    ∧ Row.country <$> rows = ["US"; "DE"].
Proof. eexists _, _. repeat split; by_computation. Qed.

Lemma leaderboard_ranks_witness :
  ∃ teams,
    forallb int_key
      (filter (λ t, selected local (Some "valkyrie") (Some "US") t = true)
         (db_team db_completed)) = true
    ∧ outcome (leaderboard (Some local) (Some "valkyrie") (Some "US") (Some 1)) db_completed
      = inr (row <$> take 1 teams)
    ∧ StronglySorted (key_ge sort_key) teams
    ∧ outcome (leaderboard (Some local) None None None) db_completed
      = inl (HTTPException 400 "Country is required for local leaderboard").
Proof.
  assert (forallb int_key
            (filter (λ t, selected local (Some "valkyrie") (Some "US") t = true)
               (db_team db_completed)) = true) as Hint by by_computation.
  destruct (leaderboard_ranks db_completed (Some local) (Some "valkyrie") (Some "US")
              (Some 1)) as (_ & Hok & _).
  destruct Hok as (teams & Hrun & _ & Hsorted & _ & Htake & _);
    [by intros [_ [=]]|exact Hint|].
  destruct (leaderboard_ranks db_completed (Some local) None None None) as [Hfail _].
  destruct Hfail as [Hfail _]; [by split|].
  exists teams. unfold outcome. rewrite Hrun, Hfail. simpl default in *.
  rewrite Htake by done. split; [exact Hint|]. by repeat split.
Defined.

(** A negative limit drops rows from the end instead of limiting the answer. *)
Example leaderboard_negative_limit :
  ∃ rows,
    outcome (leaderboard None None None (Some (-1))) db_teams = inr rows
    ∧ Row.name <$> rows = ["Alpha"].
Proof. eexists. split; by_computation. Qed.

(** The specification's example: points first, wins breaking the tie, two
    rows kept. *)
Example leaderboard_example :
  outcome (leaderboard None None None (Some 2))
    (mkDB [(0%nat, ranked "T1" 10 5); (1%nat, ranked "T2" 10 3); (2%nat, ranked "T3" 7 9)]
       [] [] [] [])
  = inr [row (0%nat, ranked "T1" 10 5); row (1%nat, ranked "T2" 10 3)].
Proof. by_computation. Qed.

Example leaderboard_example_unsorted :
  ∃ rows,
    outcome (leaderboard (Some local) (Some "valkyrie") (Some "US") None)
      (mkDB [(0%nat, ranked "T3" 7 9); (1%nat, ranked "T2" 10 3); (2%nat, ranked "T1" 10 5);
             (3%nat, ranked "T4" 10 3)]
         [] [] [] [])
    = inr rows
    ∧ Row.name <$> rows = ["T1"; "T2"; "T4"; "T3"].
Proof. eexists. split; by_computation. Qed.

(** C8, violated: with an empty captain id nobody is enrolled, and the stored
    team's captain is not among its members. *)
Lemma create_team_counterexample :
  ∃ t,
    db_team (exec (create_team (team_of "Alpha" "valkyrie" "US" "" [])) empty_db)
    = [(0%nat, t)]
    ∧ Team.captain_user_id t = ""
    ∧ Team.member_user_ids t = [].
Proof. eexists. repeat split; by_computation. Qed.

Lemma create_team_enrols_captain_witness :
  Team.captain_user_id team_A ≠ ""
  ∧ Team.member_user_ids team_A = []
  ∧ ∃ i t,
      create_team team_A empty_db = (inr (Some (str i, t)), mkDB [(i, t)] [] [] [] [])
      ∧ Team.captain_user_id t ∈ Team.member_user_ids t.
Proof.
  assert (Team.captain_user_id team_A ≠ "") as Hcap by discriminate.
  split; [exact Hcap|]. split; [reflexivity|].
  destruct (create_team_enrols_captain empty_db team_A Hcap)
    as (i & t & Hrun & _ & Hin & _).
  exists i, t. split; [exact Hrun|exact Hin].
Defined.

(** C9, violated: statistics sent with the team are stored as they come. *)
Lemma stats_counterexample :
  ∃ t,
    db_team
      (exec (create_team
               (Team.mk "Alpha" "valkyrie" "US" "u1" ["u1"] []
                  (<["matches" := AInt 1]> (<["points" := AInt (-5)]> Team.default_stats))))
         empty_db)
    = [(0%nat, t)]
    ∧ get0 (Team.stats t) "matches" = 1
    ∧ get0 (Team.stats t) "wins" + get0 (Team.stats t) "losses"
      + get0 (Team.stats t) "draws" = 0
    ∧ get0 (Team.stats t) "points" = -5.
Proof. eexists. repeat split; by_computation. Qed.

Lemma stats_ok_preserved_witness :
  teams_ok db_teams ∧ teams_ok db_completed.
Proof.
  assert (stats_ok Team.default_stats) as Hdefault
    by (split; [by apply integral_forallb|by vm_compute]).
  assert (teams_ok db_teams) as Hok.
  { unfold teams_ok. apply Forall_forall. intros x Hx.
    vm_compute in Hx. repeat (apply elem_of_cons in Hx as [->|Hx]); [..|by inversion Hx];
      exact Hdefault. }
  split; [exact Hok|].
  destruct stats_ok_preserved as (_ & _ & _ & Hrec).
  apply Hrec. unfold db_proposed_at, teams_ok, exec.
  rewrite (run_propose db_teams (request_at "arena") 0%nat 1%nat (enrolled team_A) team_B)
    by by_computation.
  exact Hok.
Defined.

Lemma venue_id_is_not_checked_witness :
  db_venue db_proposed = []
  ∧ (∃ ch, find_one (db_challenge db_proposed) 0%nat = Some (0%nat, ch)
           ∧ bookable (Challenge.status ch))
  ∧ (∃ r db' ch',
       create_booking_for_challenge "#"
         (CreateBookingRequest.mk "no such venue" "2026-11-04T18:00:00" None) db_proposed
       = (inr r, db')
       ∧ find_one (db_challenge db') 0%nat = Some (0%nat, ch')
       ∧ Challenge.venue_id ch' = Some "no such venue")
  ∧ (∃ r db' ch',
       negotiate_challenge "#"
         (NegotiateChallengeRequest.mk None None (Some "no such venue") None) db_proposed
       = (inr r, db')
       ∧ find_one (db_challenge db') 0%nat = Some (0%nat, ch')
       ∧ Challenge.venue_id ch' = Some "no such venue").
Proof.
  assert (find_one (db_challenge db_proposed) 0%nat = Some (0%nat, proposal request))
    as Hch by by_computation.
  assert (bookable (Challenge.status (proposal request))) as Hs
    by (by apply (bool_decide_unpack _)).
  split; [reflexivity|]. split; [by eexists|].
  destruct (venue_id_is_not_checked db_proposed "#" 0%nat _ "no such venue" eq_refl Hch)
    as (Hbook & Hneg & _).
  split; [apply (Hbook Hs)|apply Hneg].
Defined.

(** A challenge that never received a venue cannot be settled: the [Match]
    model refuses the null venue before anything is written. *)
Example record_match_result_without_venue :
  record_match_result (RecordResultRequest.mk "#" "#" 3 1) db_proposed
  = (inl (ValidationError "Match" "venue_id"), db_proposed).
Proof. by_computation. Qed.

(** A string that is no identifier is refused before the store is read. *)
Example negotiate_challenge_invalid_id :
  negotiate_challenge "arena" (NegotiateChallengeRequest.mk None None None None) db_proposed
  = (inl InvalidId, db_proposed).
Proof. by_computation. Qed.

(** The specification's scenarios: two approvals approve the challenge, a
    negotiation then resets it; a cancelled booking puts it back to approved. *)
Example scenario_approve_then_negotiate :
  ∃ ch ch',
    find_one
      (db_challenge
         (exec (approve_challenge "#" challenger;; approve_challenge "#" opponent)
            db_proposed)) 0%nat = Some (0%nat, ch)
    ∧ Challenge.status ch = Challenge.approved
    ∧ both_approved ch = true
    ∧ find_one
        (db_challenge
           (exec (approve_challenge "#" challenger;; approve_challenge "#" opponent;;
                  negotiate_challenge "#"
                    (NegotiateChallengeRequest.mk (Some "2026-12-01T20:00:00")
                       None None None))
              db_proposed)) 0%nat = Some (0%nat, ch')
    ∧ Challenge.status ch' = Challenge.negotiating
    ∧ Challenge.approvals ch' = no_approvals.
Proof. eexists _, _. repeat split; by_computation. Qed.

Example scenario_book_then_cancel :
  ∃ bk ch,
    find_one (db_booking db_cancelled) 0%nat = Some (0%nat, bk)
    ∧ Booking.status bk = Booking.cancelled
    ∧ find_one (db_challenge db_cancelled) 0%nat = Some (0%nat, ch)
    ∧ Challenge.status ch = Challenge.approved.
Proof. eexists _, _. repeat split; by_computation. Qed.

(** * Further properties of the handlers *)

Section Coverage.
Context `{Bson} `{Python}.

Ltac store :=
  repeat progress
    cbn [get put team venue challenge booking match_
         db_team db_venue db_challenge db_booking db_match] in *.

Ltac unfold_M :=
  unfold outcome, exec, find_by_id, update_by_id, create_document, insert_one,
    get_documents, find_teams, oid, raise, reading, writing, mbind, M_bind, mret, M_ret.

(** ** Identifiers that lead nowhere *)

Lemma find_one_key {D} (c : Collection D) i j d :
  find_one c i = Some (j, d) → j = i.
Proof.
  induction c as [|[k e] c IH]; simpl; [done|].
  case_decide; [|done]. by intros [= -> _].
Qed.

Lemma run_find_absent {D} (c : Coll D) id_str db :
  absent (get c db) id_str →
  find_by_id c id_str db = (inl InvalidId, db) ∧ ObjectId_of id_str = None
  ∨ find_by_id c id_str db = (inr None, db) ∧ is_Some (ObjectId_of id_str).
Proof.
  intros Habs. unfold find_by_id, oid.
  destruct (ObjectId_of id_str) as [i|] eqn:Hid; [right|left; done].
  rewrite run_bind. unfold mret at 1, M_ret at 1, reading.
  by rewrite (Habs i).
Qed.

Lemma run_find_invalid {D} (c : Coll D) id_str db :
  ObjectId_of id_str = None → find_by_id c id_str db = (inl InvalidId, db).
Proof. intros Hid. unfold find_by_id, oid. by rewrite Hid. Qed.

Lemma run_update_invalid {D} (c : Coll D) id_str (f : D → D) db :
  ObjectId_of id_str = None → update_by_id c id_str f db = (inl InvalidId, db).
Proof. intros Hid. unfold update_by_id, oid. by rewrite Hid. Qed.

(** X1: negotiate, approve, book and record result, given a challenge id
    that is malformed or that no challenge has, raise the invalid-id error
    or the 404 and write nothing. *)
Theorem unknown_challenge_is_refused (db : DB) (challenge_id : string) :
  absent (db_challenge db) challenge_id →
  (∀ payload, negotiate_challenge challenge_id payload db
              = (inl (lookup_error "Challenge" challenge_id), db))
  ∧ (∀ role, approve_challenge challenge_id role db
             = (inl (lookup_error "Challenge" challenge_id), db))
  ∧ (∀ payload, create_booking_for_challenge challenge_id payload db
                = (inl (lookup_error "Challenge" challenge_id), db))
  ∧ (∀ winner_team_id score_a score_b,
       record_match_result
         (RecordResultRequest.mk challenge_id winner_team_id score_a score_b) db
       = (inl (lookup_error "Challenge" challenge_id), db)).
Proof.
  intros Habs. unfold lookup_error.
  unfold negotiate_challenge, approve_challenge, create_booking_for_challenge,
    record_match_result. cbn [RecordResultRequest.challenge_id].
  destruct (run_find_absent challenge challenge_id db Habs) as [[Hrun ->]|[Hrun [i ->]]];
    repeat split; intros; by rewrite run_bind, Hrun.
Qed.

(** X2: confirming or cancelling a booking whose id is malformed or unknown
    raises the invalid-id error or the 404 and writes nothing. *)
Theorem unknown_booking_is_refused (db : DB) (booking_id : string) (confirm : bool) :
  absent (db_booking db) booking_id →
  confirm_booking booking_id confirm db = (inl (lookup_error "Booking" booking_id), db).
Proof.
  intros Habs. unfold lookup_error, confirm_booking.
  destruct (run_find_absent booking booking_id db Habs) as [[Hrun ->]|[Hrun [i ->]]];
    by rewrite run_bind, Hrun.
Qed.

(** X3: proposing a challenge with a malformed team id raises the
    invalid-id error, the challenger's id being read first; with two
    well-formed ids of which one has no team it raises the invalid-reference
    error.  Nothing is written. *)
Theorem propose_challenge_missing_team (db : DB) (payload : ProposeChallengeRequest.t) :
  (ObjectId_of (ProposeChallengeRequest.challenger_team_id payload) = None →
   propose_challenge payload db = (inl InvalidId, db))
  ∧ (is_Some (ObjectId_of (ProposeChallengeRequest.challenger_team_id payload)) →
     ObjectId_of (ProposeChallengeRequest.opponent_team_id payload) = None →
     propose_challenge payload db = (inl InvalidId, db))
  ∧ (∀ i1 i2,
       ObjectId_of (ProposeChallengeRequest.challenger_team_id payload) = Some i1 →
       ObjectId_of (ProposeChallengeRequest.opponent_team_id payload) = Some i2 →
       find_one (db_team db) i1 = None ∨ find_one (db_team db) i2 = None →
       propose_challenge payload db = (inl InvalidReference, db)).
Proof.
  unfold propose_challenge. split; [|split].
  - intros Hid. by rewrite run_bind, run_find_invalid.
  - intros [i1 Hid1] Hid2.
    rewrite run_bind, (run_find_by_id _ _ _ _ Hid1).
    by rewrite run_bind, run_find_invalid.
  - intros i1 i2 Hid1 Hid2 Hnone.
    rewrite run_bind, (run_find_by_id _ _ _ _ Hid1).
    rewrite run_bind, (run_find_by_id _ _ _ _ Hid2). store.
    destruct (find_one (db_team db) i1) as [[k1 t1]|],
             (find_one (db_team db) i2) as [[k2 t2]|]; try done.
    by destruct Hnone.
Qed.

(** X4: a result whose winner is neither team of the challenge is refused
    with a constraint violation, and a result for a challenge without a venue
    fails on the [Match] model; in both cases nothing is written: no match,
    no status change, no statistics. *)
Theorem record_match_result_refusals
    (db : DB) (payload : RecordResultRequest.t) (i : ObjectId) (ch : Challenge.t) :
  ObjectId_of (RecordResultRequest.challenge_id payload) = Some i →
  find_one (db_challenge db) i = Some (i, ch) →
  (RecordResultRequest.winner_team_id payload ≠ Challenge.challenger_team_id ch →
   RecordResultRequest.winner_team_id payload ≠ Challenge.opponent_team_id ch →
   record_match_result payload db
   = (inl (HTTPException 400 "Winner must be one of the teams in the challenge"), db))
  ∧ (RecordResultRequest.winner_team_id payload
       ∈ [Challenge.challenger_team_id ch; Challenge.opponent_team_id ch] →
     Challenge.venue_id ch = None →
     record_match_result payload db = (inl (ValidationError "Match" "venue_id"), db)).
Proof.
  intros Hid Hch. unfold record_match_result.
  rewrite run_bind, (run_find_by_id _ _ _ _ Hid). store. rewrite Hch. cbv zeta.
  split.
  - intros Ha Hb. rewrite bool_decide_eq_false_2; [done|].
    rewrite !elem_of_cons, elem_of_nil. tauto.
  - intros Hwin Hv. rewrite bool_decide_eq_true_2 by done. by rewrite Hv.
Qed.

(** ** Confirming and cancelling a booking *)

Lemma run_confirm_booking
    (db : DB) (booking_id : string) (ib : ObjectId) (bk : Booking.t) :
  ObjectId_of booking_id = Some ib →
  find_one (db_booking db) ib = Some (ib, bk) →
  confirm_booking booking_id true db
  = (inr (Some (str ib, Booking.set_status Booking.confirmed bk)),
     put booking (update_one (db_booking db) ib (Booking.set_status Booking.confirmed)) db)
  ∧ (∀ i, ObjectId_of (Booking.challenge_id bk) = Some i →
       confirm_booking booking_id false db
       = (inr (Some (str ib, Booking.set_status Booking.cancelled bk)),
          put challenge
            (update_one (db_challenge db) i
               (Challenge.set [Challenge.set_status Challenge.approved]))
            (put booking
               (update_one (db_booking db) ib (Booking.set_status Booking.cancelled)) db))
       ∧ (∀ ch, find_one (db_challenge db) i = Some (i, ch) →
            ∃ ch',
              find_one (db_challenge (exec (confirm_booking booking_id false) db)) i
              = Some (i, ch')
              ∧ Challenge.status ch' = Challenge.approved
              ∧ Challenge.approvals ch' = Challenge.approvals ch
              ∧ Challenge.venue_id ch' = Challenge.venue_id ch
              ∧ Challenge.proposed_datetime ch' = Challenge.proposed_datetime ch
              ∧ Challenge.format ch' = Challenge.format ch
              ∧ Challenge.notes ch' = Challenge.notes ch)
       ∧ (find_one (db_challenge db) i = None →
          db_challenge (exec (confirm_booking booking_id false) db) = db_challenge db))
  ∧ (ObjectId_of (Booking.challenge_id bk) = None →
     confirm_booking booking_id false db
     = (inl InvalidId,
        put booking
          (update_one (db_booking db) ib (Booking.set_status Booking.cancelled)) db)).
Proof.
  intros Hib Hbk.
  assert (∀ st, find_one (update_one (db_booking db) ib (Booking.set_status st)) ib
                = Some (ib, Booking.set_status st bk)) as Hafter
    by (intros st; by apply find_one_update_one_eq).
  split; [|split].
  - unfold confirm_booking.
    rewrite run_bind, (run_find_by_id _ _ _ _ Hib). store. rewrite Hbk.
    rewrite run_bind, (run_update_by_id _ _ _ _ _ Hib). store.
    rewrite run_bind. cbn [bool_decide decide_rel]. rewrite bool_decide_eq_false_2 by done.
    unfold mret at 1, M_ret at 1.
    rewrite run_bind, (run_find_by_id _ _ _ _ Hib). store. by rewrite Hafter.
  - intros i Hi.
    assert (confirm_booking booking_id false db
            = (inr (Some (str ib, Booking.set_status Booking.cancelled bk)),
               put challenge
                 (update_one (db_challenge db) i
                    (Challenge.set [Challenge.set_status Challenge.approved]))
                 (put booking
                    (update_one (db_booking db) ib
                       (Booking.set_status Booking.cancelled)) db))) as Hrun.
    { unfold confirm_booking.
      rewrite run_bind, (run_find_by_id _ _ _ _ Hib). store. rewrite Hbk.
      rewrite run_bind, (run_update_by_id _ _ _ _ _ Hib). store.
      rewrite run_bind. cbn [bool_decide decide_rel]. rewrite bool_decide_eq_true_2 by done.
      rewrite (run_update_by_id _ _ _ _ _ Hi). store.
      rewrite run_bind, (run_find_by_id _ _ _ _ Hib). store. by rewrite Hafter. }
    split; [exact Hrun|]. unfold exec. rewrite Hrun. store. split.
    + intros ch Hch. eexists. split; [by apply find_one_update_one_eq|]. by destruct ch.
    + intros Hnone. clear -Hnone.
      induction (db_challenge db) as [|[k e] c IH]; simpl in *; [done|].
      case_decide; [done|]. f_equal. by apply IH.
  - intros Hnone. unfold confirm_booking.
    rewrite run_bind, (run_find_by_id _ _ _ _ Hib). store. rewrite Hbk.
    rewrite run_bind, (run_update_by_id _ _ _ _ _ Hib). store.
    rewrite run_bind. cbn [bool_decide decide_rel]. rewrite bool_decide_eq_true_2 by done.
    by rewrite run_update_invalid.
Qed.

(** X5: on an existing booking, confirming sets the booking's status to
    confirmed and writes nothing else; cancelling sets it to cancelled and
    sets the status of the challenge the booking names to approved, leaving
    the rest of that challenge, its approvals included, as it was (and
    nothing if no challenge has that id).  When the booking's challenge id is
    malformed the cancellation raises after the booking has been written. *)
Theorem confirm_booking_effect
    (db : DB) (booking_id : string) (ib : ObjectId) (bk : Booking.t) :
  ObjectId_of booking_id = Some ib →
  find_one (db_booking db) ib = Some (ib, bk) →
  confirm_booking booking_id true db
  = (inr (Some (str ib, Booking.set_status Booking.confirmed bk)),
     put booking (update_one (db_booking db) ib (Booking.set_status Booking.confirmed)) db)
  ∧ (∀ i, ObjectId_of (Booking.challenge_id bk) = Some i →
       confirm_booking booking_id false db
       = (inr (Some (str ib, Booking.set_status Booking.cancelled bk)),
          put challenge
            (update_one (db_challenge db) i
               (Challenge.set [Challenge.set_status Challenge.approved]))
            (put booking
               (update_one (db_booking db) ib (Booking.set_status Booking.cancelled)) db))
       ∧ (∀ ch, find_one (db_challenge db) i = Some (i, ch) →
            ∃ ch',
              find_one (db_challenge (exec (confirm_booking booking_id false) db)) i
              = Some (i, ch')
              ∧ Challenge.status ch' = Challenge.approved
              ∧ Challenge.approvals ch' = Challenge.approvals ch
              ∧ Challenge.venue_id ch' = Challenge.venue_id ch
              ∧ Challenge.proposed_datetime ch' = Challenge.proposed_datetime ch
              ∧ Challenge.format ch' = Challenge.format ch
              ∧ Challenge.notes ch' = Challenge.notes ch)
       ∧ (find_one (db_challenge db) i = None →
          db_challenge (exec (confirm_booking booking_id false) db) = db_challenge db))
  ∧ (ObjectId_of (Booking.challenge_id bk) = None →
     confirm_booking booking_id false db
     = (inl InvalidId,
        put booking
          (update_one (db_booking db) ib (Booking.set_status Booking.cancelled)) db)).
Proof. apply run_confirm_booking. Qed.

(** ** Recording a result *)

Lemma run_update_stats_cases db team_id j won draw :
  ObjectId_of team_id = Some j →
  update_stats team_id won draw db
  = match find_one (db_team db) j with
    | None => (inr (), db)
    | Some (_, tm) =>
        match bump (Team.stats tm) won draw with
        | inl e => (inl e, db)
        | inr stats =>
            (inr (), put team (update_one (db_team db) j (Team.set_stats stats)) db)
        end
    end.
Proof.
  intros Hid. unfold update_stats.
  rewrite run_bind, (run_find_by_id _ _ _ _ Hid). store.
  destruct (find_one (db_team db) j) as [[k tm]|]; [|done].
  destruct (bump (Team.stats tm) won draw); [done|].
  by rewrite (run_update_by_id _ _ _ _ _ Hid).
Qed.

(** X6: the statistics update of a team that does not exist is skipped
    without an error, and one with a malformed team id raises the invalid-id
    error; neither writes. *)
Theorem update_stats_missing_team (db : DB) (team_id : string) (won draw : bool) :
  absent (db_team db) team_id →
  update_stats team_id won draw db
  = (match ObjectId_of team_id with Some _ => inr () | None => inl InvalidId end, db).
Proof.
  intros Habs. unfold update_stats.
  destruct (run_find_absent team team_id db Habs) as [[Hrun ->]|[Hrun [i ->]]];
    by rewrite run_bind, Hrun.
Qed.

Lemma bump_unaddable s x won draw :
  s !! "matches" = Some x → unaddable x = true → bump s won draw = inl TypeError.
Proof. intros Hs Hx. unfold bump, incr. rewrite Hs. by destruct x. Qed.

(** X7: a statistics dict that [create_team] took as it came can stop a
    result half way.  When the team whose statistics are updated first (the
    challenger on a draw, the winner otherwise) holds a [matches] value that
    is not a number (a string, null, a list or a dict), [record_match_result]
    raises [TypeError] after it has stored the match and set the challenge
    to completed: both writes stay, and no team is changed. *)
Theorem record_match_result_type_error
    (db : DB) (payload : RecordResultRequest.t) (i : ObjectId) (ch : Challenge.t)
    (v : string) (j : ObjectId) (tm : Team.t) (x : Any) :
  ObjectId_of (RecordResultRequest.challenge_id payload) = Some i →
  find_one (db_challenge db) i = Some (i, ch) →
  RecordResultRequest.winner_team_id payload
    ∈ [Challenge.challenger_team_id ch; Challenge.opponent_team_id ch] →
  Challenge.venue_id ch = Some v →
  ObjectId_of
    (if bool_decide (RecordResultRequest.score_a payload
                     = RecordResultRequest.score_b payload)
     then Challenge.challenger_team_id ch
     else RecordResultRequest.winner_team_id payload) = Some j →
  find_one (db_team db) j = Some (j, tm) →
  Team.stats tm !! "matches" = Some x →
  unaddable x = true →
  record_match_result payload db
  = (inl TypeError,
     mkDB (db_team db) (db_venue db)
       (update_one (db_challenge db) i
          (Challenge.set [Challenge.set_status Challenge.completed]))
       (db_booking db)
       (db_match db ++ [(generate (fst <$> db_match db), match_of payload ch v)])).
Proof.
  intros Hid Hch Hwin Hv Hj Htm Hx Hbad.
  unfold record_match_result.
  rewrite run_bind, (run_find_by_id _ _ _ _ Hid). store. rewrite Hch. cbv zeta.
  rewrite bool_decide_eq_true_2 by done. cbn [negb]. rewrite Hv.
  fold (match_of payload ch v).
  rewrite run_bind. unfold create_document at 1, insert_one. store.
  rewrite run_bind, (run_update_by_id _ _ _ _ _ Hid). store.
  rewrite run_bind.
  destruct (bool_decide (RecordResultRequest.score_a payload = _));
    rewrite run_bind, (run_update_stats_cases _ _ _ _ _ Hj); store;
    by rewrite Htm, (bump_unaddable _ _ _ _ Hx Hbad).
Qed.

Lemma gains_trans s1 s2 s3 m1 w1 l1 d1 p1 m2 w2 l2 d2 p2 :
  gains s1 s2 m1 w1 l1 d1 p1 → gains s2 s3 m2 w2 l2 d2 p2 →
  gains s1 s3 (m1 + m2) (w1 + w2) (l1 + l2) (d1 + d2) (p1 + p2).
Proof.
  intros (?&?&?&?&?&Hk1&?) (?&?&?&?&?&Hk2&?). split_and!; try lia; [|done].
  intros k Hk. by rewrite Hk2, Hk1.
Qed.

(** X8: recording the same result twice is not refused.  For two different
    existing teams whose counters are integers, both calls succeed, two
    matches with the same content are stored under different identifiers,
    and the statistics are counted twice: after a win of the challenger, the
    challenger has two more matches, two more wins and six more points and
    the opponent two more matches and two more losses; after a draw both
    have two more matches, two more draws and two more points. *)
Theorem record_match_result_twice
    (db : DB) (payload : RecordResultRequest.t) (i : ObjectId) (ch : Challenge.t)
    (v : string) (ia ib : ObjectId) (ta tb : Team.t) :
  ObjectId_of (RecordResultRequest.challenge_id payload) = Some i →
  find_one (db_challenge db) i = Some (i, ch) →
  RecordResultRequest.winner_team_id payload
    ∈ [Challenge.challenger_team_id ch; Challenge.opponent_team_id ch] →
  Challenge.venue_id ch = Some v →
  ObjectId_of (Challenge.challenger_team_id ch) = Some ia →
  ObjectId_of (Challenge.opponent_team_id ch) = Some ib →
  ia ≠ ib →
  find_one (db_team db) ia = Some (ia, ta) →
  find_one (db_team db) ib = Some (ib, tb) →
  integral (Team.stats ta) →
  integral (Team.stats tb) →
  ∃ mid1 mid2 r db' sa sb,
    (record_match_result payload;; record_match_result payload) db = (inr r, db')
    ∧ mid1 ≠ mid2
    ∧ db_match db'
      = db_match db ++ [(mid1, match_of payload ch v); (mid2, match_of payload ch v)]
    ∧ find_one (db_team db') ia = Some (ia, Team.set_stats sa ta)
    ∧ find_one (db_team db') ib = Some (ib, Team.set_stats sb tb)
    ∧ (RecordResultRequest.score_a payload ≠ RecordResultRequest.score_b payload →
       RecordResultRequest.winner_team_id payload = Challenge.challenger_team_id ch →
       gains (Team.stats ta) sa 2 2 0 0 6 ∧ gains (Team.stats tb) sb 2 0 2 0 0)
    ∧ (RecordResultRequest.score_a payload = RecordResultRequest.score_b payload →
       gains (Team.stats ta) sa 2 0 0 2 2 ∧ gains (Team.stats tb) sb 2 0 0 2 2).
Proof.
  intros Hid Hch Hwin Hv Hia Hib Hne Hta Htb Hinta Hintb.
  destruct (run_record_match_result db payload i ch v ia ib ta tb
              Hid Hch Hwin Hv Hia Hib Hne Hta Htb Hinta Hintb)
    as (c1 & sa1 & sb1 & Hrun1 & Ha1 & Hb1 & Hdraw1 & Hwin1 & Hlose1 & _).
  assert (integral sa1 ∧ integral sb1) as [Hinta1 Hintb1].
  { destruct (decide (RecordResultRequest.score_a payload
                      = RecordResultRequest.score_b payload)) as [Hd|Hd].
    - destruct (Hdraw1 Hd) as [Ga Gb]. split; [apply Ga|apply Gb].
    - apply elem_of_cons in Hwin as [Hw|Hw];
        [|apply list_elem_of_singleton in Hw].
      + destruct (Hwin1 Hd Hw) as [Ga Gb]. split; [apply Ga|apply Gb].
      + destruct (Hlose1 Hd Hw) as [Gb Ga]. split; [apply Ga|apply Gb]. }
  set (ch1 := Challenge.set [Challenge.set_status Challenge.completed] ch).
  set (db1 := (record_match_result payload db).2).
  assert (find_one (db_challenge db1) i = Some (i, ch1)) as Hch1.
  { unfold db1. rewrite Hrun1. store. by apply find_one_update_one_eq. }
  assert (Challenge.challenger_team_id ch1 = Challenge.challenger_team_id ch
          ∧ Challenge.opponent_team_id ch1 = Challenge.opponent_team_id ch
          ∧ Challenge.venue_id ch1 = Challenge.venue_id ch
          ∧ match_of payload ch1 v = match_of payload ch v)
    as (Hta1 & Htb1 & Hv1 & Hm) by (by destruct ch).
  assert (find_one (db_team db1) ia = Some (ia, Team.set_stats sa1 ta)) as Ha1'
    by (unfold db1; by rewrite Hrun1).
  assert (find_one (db_team db1) ib = Some (ib, Team.set_stats sb1 tb)) as Hb1'
    by (unfold db1; by rewrite Hrun1).
  assert (RecordResultRequest.winner_team_id payload
            ∈ [Challenge.challenger_team_id ch1; Challenge.opponent_team_id ch1]) as Hwin'
    by (by rewrite Hta1, Htb1).
  assert (Challenge.venue_id ch1 = Some v) as Hv' by (by rewrite Hv1).
  assert (ObjectId_of (Challenge.challenger_team_id ch1) = Some ia) as Hia'
    by (by rewrite Hta1).
  assert (ObjectId_of (Challenge.opponent_team_id ch1) = Some ib) as Hib'
    by (by rewrite Htb1).
  assert (integral (Team.stats (Team.set_stats sa1 ta))) as Hinta' by (by destruct ta).
  assert (integral (Team.stats (Team.set_stats sb1 tb))) as Hintb' by (by destruct tb).
  destruct (run_record_match_result db1 payload i ch1 v ia ib _ _
              Hid Hch1 Hwin' Hv' Hia' Hib' Hne Ha1' Hb1' Hinta' Hintb')
    as (c2 & sa2 & sb2 & Hrun2 & Ha2 & Hb2 & Hdraw2 & Hwin2 & _ & _).
  rewrite Hta1 in Hwin2. rewrite Hm in Hrun2.
  assert (db_match db1 = db_match db ++ [(generate (fst <$> db_match db), match_of payload ch v)])
    as Hm1 by (unfold db1; by rewrite Hrun1).
  eexists (generate (fst <$> db_match db)), (generate (fst <$> db_match db1)), _, _,
    sa2, sb2.
  split.
  { rewrite run_bind.
    replace (record_match_result payload db)
      with (outcome (record_match_result payload) db, db1)
      by (unfold outcome, db1; by destruct (record_match_result payload db)).
    unfold outcome. rewrite Hrun1. cbn [fst]. exact Hrun2. }
  store. split; [|split; [|split; [|split; [|split]]]].
  - intros Heq. pose proof (generate_fresh (fst <$> db_match db1)) as Hfresh.
    rewrite <- Heq, Hm1, fmap_app in Hfresh. apply Hfresh.
    apply elem_of_app. right. by apply list_elem_of_singleton.
  - by rewrite Hm1, <- app_assoc.
  - rewrite Ha2. by destruct ta.
  - rewrite Hb2. by destruct tb.
  - intros Hd Hw. destruct (Hwin1 Hd Hw) as [Ga1 Gb1].
    destruct (Hwin2 Hd Hw) as [Ga2 Gb2].
    assert (Team.stats (Team.set_stats sa1 ta) = sa1) as Ea by (by destruct ta).
    assert (Team.stats (Team.set_stats sb1 tb) = sb1) as Eb by (by destruct tb).
    rewrite Ea in Ga2. rewrite Eb in Gb2. split.
    + exact (gains_trans _ _ _ 1 1 0 0 3 1 1 0 0 3 Ga1 Ga2).
    + exact (gains_trans _ _ _ 1 0 1 0 0 1 0 1 0 0 Gb1 Gb2).
  - intros Hd. destruct (Hdraw1 Hd) as [Ga1 Gb1]. destruct (Hdraw2 Hd) as [Ga2 Gb2].
    assert (Team.stats (Team.set_stats sa1 ta) = sa1) as Ea by (by destruct ta).
    assert (Team.stats (Team.set_stats sb1 tb) = sb1) as Eb by (by destruct tb).
    rewrite Ea in Ga2. rewrite Eb in Gb2. split.
    + exact (gains_trans _ _ _ 1 0 0 1 1 1 0 0 1 1 Ga1 Ga2).
    + exact (gains_trans _ _ _ 1 0 0 1 1 1 0 0 1 1 Gb1 Gb2).
Qed.

(** ** Requests in sequence *)

Lemma update_one_update_one {D} (c : Collection D) i (f g : D → D) :
  update_one (update_one c i f) i g = update_one c i (g ∘ f).
Proof.
  induction c as [|[k e] c IH]; simpl; [done|].
  case_decide; simpl; [by rewrite decide_True|].
  rewrite decide_False by done. by rewrite IH.
Qed.

Lemma update_one_ext {D} (c : Collection D) i d (f g : D → D) :
  find_one c i = Some (i, d) → f d = g d → update_one c i f = update_one c i g.
Proof.
  induction c as [|[k e] c IH]; simpl; [done|].
  case_decide; [intros [= -> ->] ->; done|].
  intros Hc Hfg. f_equal. by apply IH.
Qed.

Lemma update_one_absent {D} (c : Collection D) i (f : D → D) :
  find_one c i = None → update_one c i f = c.
Proof.
  induction c as [|[k e] c IH]; simpl; [done|].
  case_decide; [done|]. intros Hc. f_equal. by apply IH.
Qed.

Lemma update_one_inserted {D} (c : Collection D) i d (f : D → D) :
  i ∉ fst <$> c → update_one (c ++ [(i, d)]) i f = c ++ [(i, f d)].
Proof.
  induction c as [|[k e] c IH]; simpl; intros Hfresh.
  - by rewrite decide_True.
  - apply not_elem_of_cons in Hfresh as [Hk Hfresh].
    rewrite decide_False by done. f_equal. by apply IH.
Qed.

Lemma exec_bind {A B} (m : M A) (f : A → M B) db :
  exec (m ≫= f) db
  = match outcome m db with
    | inl _ => exec m db
    | inr a => exec (f a) (exec m db)
    end.
Proof.
  unfold exec, outcome. rewrite run_bind. by destruct (m db) as [[e|a] db'].
Qed.

Lemma exec_find_absent {D} (c : Coll D) id_str db {A} (f : _ → M A) :
  ObjectId_of id_str = None →
  exec (find_by_id c id_str ≫= f) db = db.
Proof. intros Hid. unfold exec. by rewrite run_bind, run_find_invalid. Qed.

Lemma run_approve_twice db challenge_id i ch r1 r2 :
  ObjectId_of challenge_id = Some i →
  find_one (db_challenge db) i = Some (i, ch) →
  (approve_challenge challenge_id r1;; approve_challenge challenge_id r2) db
  = (inr (Some (str i, approved_twice r1 r2 ch)),
     put challenge (update_one (db_challenge db) i (λ _, approved_twice r1 r2 ch)) db).
Proof.
  intros Hid Hch.
  destruct (run_approve db _ _ _ r1 Hid Hch) as [Hrun1 Hfind1].
  rewrite run_bind, Hrun1.
  match goal with |- approve_challenge _ _ ?d = _ => set (db1 := d) end.
  destruct (run_approve db1 challenge_id i _ r2 Hid Hfind1) as [Hrun2 _].
  rewrite Hrun2. unfold db1. store. f_equal. f_equal.
  rewrite update_one_update_one. by apply (update_one_ext _ _ ch).
Qed.

(** X9: once both sides have approved, in either order, the challenge is
    approved with both approvals true, whatever its status and approvals
    were; and the two orders leave the same database. *)
Theorem approve_both_roles
    (db : DB) (challenge_id : string) (i : ObjectId) (ch : Challenge.t)
    (r1 r2 : team_role) :
  ObjectId_of challenge_id = Some i →
  find_one (db_challenge db) i = Some (i, ch) →
  r1 ≠ r2 →
  ∃ ch',
    outcome (approve_challenge challenge_id r1;; approve_challenge challenge_id r2) db
    = inr (Some (str i, ch'))
    ∧ find_one
        (db_challenge
           (exec (approve_challenge challenge_id r1;; approve_challenge challenge_id r2) db))
        i = Some (i, ch')
    ∧ Challenge.status ch' = Challenge.approved
    ∧ both_approved ch' = true
    ∧ exec (approve_challenge challenge_id r1;; approve_challenge challenge_id r2) db
      = exec (approve_challenge challenge_id r2;; approve_challenge challenge_id r1) db.
Proof.
  intros Hid Hch Hne. unfold outcome, exec.
  rewrite !(run_approve_twice db _ _ _ _ _ Hid Hch). cbn [fst snd]. store.
  eexists. split; [done|].
  split; [by rewrite find_one_update_one, decide_True, Hch|].
  assert (∀ r1 r2, r1 ≠ r2 →
            Challenge.approvals (approved_twice r1 r2 ch)
            = <["challenger" := true]> (<["opponent" := true]> (Challenge.approvals ch)))
    as Happr.
  { clear. intros r1 r2 Hne. destruct ch, r1, r2; try done; cbn;
      first [done | by apply insert_insert_ne]. }
  assert (∀ r1 r2, r1 ≠ r2 → both_approved (approved_twice r1 r2 ch) = true) as Hboth.
  { intros q1 q2 Hq. unfold both_approved, approved_by. rewrite (Happr q1 q2 Hq).
    rewrite lookup_insert_eq, lookup_insert_ne, lookup_insert_eq by done. done. }
  assert (∀ r1 r2, r1 ≠ r2 → Challenge.status (approved_twice r1 r2 ch) = Challenge.approved)
    as Hst.
  { intros q1 q2 Hq. specialize (Hboth q1 q2 Hq). revert Hboth.
    unfold approved_twice at 2. unfold approval at 1, both_approved.
    set (ch1 := Challenge.set (approval q1 ch) ch).
    assert (Challenge.approvals (approved_twice q1 q2 ch)
            = <[role_key q2 := true]> (Challenge.approvals ch1)) as -> by (by destruct ch).
    intros Hb. destruct ch1. cbn in *. by rewrite Hb. }
  split; [by apply Hst|]. split; [by apply Hboth|].
  assert (approved_twice r1 r2 ch = approved_twice r2 r1 ch) as ->; [|done].
  assert (r2 ≠ r1) as Hne' by done.
  pose proof (Happr r1 r2 Hne) as Ha1. pose proof (Happr r2 r1 Hne') as Ha2.
  pose proof (Hst r1 r2 Hne) as Hs1. pose proof (Hst r2 r1 Hne') as Hs2.
  assert (∀ q1 q2,
            approved_twice q1 q2 ch
            = Challenge.mk (Challenge.challenger_team_id ch) (Challenge.opponent_team_id ch)
                (Challenge.game ch) (Challenge.country ch) (Challenge.proposed_datetime ch)
                (Challenge.format ch) (Challenge.venue_id ch)
                (Challenge.status (approved_twice q1 q2 ch))
                (Challenge.approvals (approved_twice q1 q2 ch)) (Challenge.notes ch))
    as Heta by (intros q1 q2; by destruct ch).
  rewrite (Heta r1 r2), (Heta r2 r1). by rewrite Ha1, Ha2, Hs1, Hs2.
Qed.

Lemma find_one_cases {D} (c : Collection D) (id_str : string) :
  absent c id_str ∨ ∃ i d, ObjectId_of id_str = Some i ∧ find_one c i = Some (i, d).
Proof.
  unfold absent. destruct (ObjectId_of id_str) as [i|]; [|by left].
  destruct (find_one c i) as [[k d]|] eqn:Hc.
  - right. exists i, d. by rewrite (find_one_key _ _ _ _ Hc) in Hc.
  - left. by intros ? [= <-].
Qed.

(** X10: approving the same role again changes nothing: the second call
    answers as the first did and leaves the database of the first, whether the
    challenge exists or not. *)
Theorem approve_challenge_idempotent (db : DB) (challenge_id : string) (role : team_role) :
  (approve_challenge challenge_id role;; approve_challenge challenge_id role) db
  = approve_challenge challenge_id role db.
Proof.
  destruct (find_one_cases (db_challenge db) challenge_id)
    as [Habs|(i & ch & Hid & Hch)].
  - destruct (run_find_absent challenge challenge_id db Habs) as [[Hrun _]|[Hrun _]];
      rewrite run_bind; unfold approve_challenge; by rewrite run_bind, Hrun.
  - rewrite (run_approve_twice db _ _ _ _ _ Hid Hch).
    destruct (run_approve db _ _ _ role Hid Hch) as [-> _].
    assert (approved_twice role role ch = Challenge.set (approval role ch) ch) as ->.
    { unfold approved_twice, approval. destruct ch as [ta tb g c d f v s a n]. cbn.
      rewrite insert_insert_eq.
      by destruct (approved_by (<[role_key role:=true]> a) "challenger"
                   && approved_by (<[role_key role:=true]> a) "opponent"). }
    store. f_equal. f_equal. by apply (update_one_ext _ _ ch).
Qed.

(** X11: sending the same negotiation again changes nothing either. *)
Theorem negotiate_challenge_idempotent
    (db : DB) (challenge_id : string) (payload : NegotiateChallengeRequest.t) :
  (negotiate_challenge challenge_id payload;; negotiate_challenge challenge_id payload) db
  = negotiate_challenge challenge_id payload db.
Proof.
  destruct (find_one_cases (db_challenge db) challenge_id)
    as [Habs|(i & ch & Hid & Hch)].
  - destruct (run_find_absent challenge challenge_id db Habs) as [[Hrun _]|[Hrun _]];
      rewrite run_bind; unfold negotiate_challenge; by rewrite run_bind, Hrun.
  - destruct (run_negotiate db _ _ _ payload Hid Hch) as [Hrun1 Hfind1].
    rewrite run_bind, Hrun1.
    match goal with |- negotiate_challenge _ _ ?d = _ => set (db1 := d) end.
    destruct (run_negotiate db1 challenge_id i _ payload Hid Hfind1) as [-> _].
    unfold db1. store. rewrite update_one_update_one.
    assert (Challenge.set (negotiation payload) (Challenge.set (negotiation payload) ch)
            = Challenge.set (negotiation payload) ch) as Hsame
      by (by destruct payload as [[d|] [f|] [v|] [n|]], ch).
    rewrite Hsame. do 2 f_equal. by apply (update_one_ext _ _ ch).
Qed.

(** ** The life of a booking *)

(** X12: a challenge that has just been booked cannot be booked again: the
    second booking is refused with the constraint violation and adds nothing.
    Once the booking is cancelled the challenge is approved, keeps the booked
    venue, and can be booked anew; the cancelled booking stays in the store
    beside the new pending one.  A confirmed booking leaves the challenge
    booked, so it still cannot be booked again. *)
Theorem booking_life_cycle
    (db : DB) (challenge_id : string) (i : ObjectId) (ch : Challenge.t)
    (p1 p2 : CreateBookingRequest.t) :
  ObjectId_of challenge_id = Some i →
  find_one (db_challenge db) i = Some (i, ch) →
  bookable (Challenge.status ch) →
  let bid1 := generate (fst <$> db_booking db) in
  let db1 := exec (create_booking_for_challenge challenge_id p1) db in
  create_booking_for_challenge challenge_id p2 db1
  = (inl (HTTPException 400 "Challenge not eligible for booking"), db1)
  ∧ (∀ db2, db2 = exec (confirm_booking (str bid1) true) db1 →
       create_booking_for_challenge challenge_id p2 db2
       = (inl (HTTPException 400 "Challenge not eligible for booking"), db2))
  ∧ (∀ db2, db2 = exec (confirm_booking (str bid1) false) db1 →
       (∃ ch2, find_one (db_challenge db2) i = Some (i, ch2)
               ∧ Challenge.status ch2 = Challenge.approved
               ∧ Challenge.venue_id ch2 = Some (CreateBookingRequest.venue_id p1)
               ∧ Challenge.approvals ch2 = Challenge.approvals ch)
       ∧ ∃ bid2 r db3 ch3,
           create_booking_for_challenge challenge_id p2 db2 = (inr r, db3)
           ∧ bid2 ≠ bid1
           ∧ db_booking db3
             = db_booking db
               ++ [(bid1, Booking.set_status Booking.cancelled (booking_of challenge_id p1));
                   (bid2, booking_of challenge_id p2)]
           ∧ find_one (db_challenge db3) i = Some (i, ch3)
           ∧ Challenge.status ch3 = Challenge.booked
           ∧ Challenge.venue_id ch3 = Some (CreateBookingRequest.venue_id p2)).
Proof.
  intros Hid Hch Hs. cbv zeta.
  destruct (run_book_accepted db _ _ _ p1 Hid Hch Hs) as [Hrun1 Hfind1].
  set (bid1 := generate (fst <$> db_booking db)) in *.
  set (b1 := Booking.mk challenge_id _ _ _ _) in *.
  set (ch1 := Challenge.set _ ch) in *.
  assert (exec (create_booking_for_challenge challenge_id p1) db
          = mkDB (db_team db) (db_venue db)
              (update_one (db_challenge db) i
                 (Challenge.set
                    [Challenge.set_status Challenge.booked;
                     Challenge.set_venue_id (CreateBookingRequest.venue_id p1)]))
              (db_booking db ++ [(bid1, b1)]) (db_match db)) as ->
    by (unfold exec; by rewrite Hrun1).
  set (db1 := mkDB _ _ _ _ _).
  assert (find_one (db_challenge db1) i = Some (i, ch1)) as Hch1 by exact Hfind1.
  assert (¬ bookable (Challenge.status ch1)) as Hbooked.
  { unfold ch1. destruct ch. cbn. by apply (bool_decide_unpack _). }
  assert (find_one (db_booking db1) bid1 = Some (bid1, b1)) as Hb1
    by apply find_one_inserted.
  split; [by apply (run_book_refused db1 _ _ _ p2 Hid Hch1)|]. split.
  - intros db2 ->.
    destruct (run_confirm_booking db1 (str bid1) bid1 b1 (ObjectId_of_str _) Hb1)
      as [Hrun _].
    unfold exec. rewrite Hrun. cbn [snd].
    apply (run_book_refused _ _ i ch1 p2 Hid); [|exact Hbooked]. store. exact Hch1.
  - intros db2 ->.
    destruct (run_confirm_booking db1 (str bid1) bid1 b1 (ObjectId_of_str _) Hb1)
      as (_ & Hcancel & _).
    destruct (Hcancel i Hid) as (Hrun & _ & _).
    unfold exec. rewrite Hrun. cbn [snd]. store.
    set (ch2 := Challenge.set [Challenge.set_status Challenge.approved] ch1).
    set (db2 := mkDB _ _ _ _ _).
    assert (find_one (db_challenge db2) i = Some (i, ch2)) as Hch2
      by (by apply find_one_update_one_eq).
    split.
    { exists ch2. split; [exact Hch2|]. unfold ch2, ch1. by destruct ch. }
    assert (bookable (Challenge.status ch2)) as Hs2.
    { unfold ch2, ch1. destruct ch. cbn. by apply (bool_decide_unpack _). }
    destruct (run_book_accepted db2 _ _ _ p2 Hid Hch2 Hs2) as [Hrun3 Hfind3].
    eexists _, _, _, _. split; [exact Hrun3|]. store.
    assert (db_booking db2
            = db_booking db ++ [(bid1, Booking.set_status Booking.cancelled b1)]) as Hbks.
    { unfold db2, db1. store. apply update_one_inserted, generate_fresh. }
    split.
    { intros Heq. pose proof (generate_fresh (fst <$> db_booking db2)) as Hfresh.
      rewrite Heq, Hbks, fmap_app in Hfresh. apply Hfresh.
      apply elem_of_app. right. by apply list_elem_of_singleton. }
    split; [by rewrite Hbks, <- app_assoc|].
    split; [exact Hfind3|]. unfold ch2, ch1. by destruct ch.
Qed.

(** ** What a request may write *)

Lemma wrote_one P db w : P w → guarded db w → wrote P db (apply_write db w).
Proof. intros. apply wrote_then; [constructor|done..]. Qed.

Lemma wrote_trans P db1 db2 db3 : wrote P db1 db2 → wrote P db2 db3 → wrote P db1 db3.
Proof. intros H12 H23. induction H23; [done|]. by apply wrote_then. Qed.

Lemma find_one_present {D} (c : Collection D) id_str i d :
  ObjectId_of id_str = Some i → find_one c i = Some (i, d) → present c id_str.
Proof.
  intros Hid Hc. exists i. split; [done|].
  apply find_one_elem_of in Hc. apply list_elem_of_fmap. by exists (i, d).
Qed.

Lemma fst_update_one {D} (c : Collection D) i (f : D → D) :
  fst <$> update_one c i f = fst <$> c.
Proof.
  induction c as [|[k e] c IH]; simpl; [done|].
  case_decide; simpl; [done|]. f_equal. exact IH.
Qed.

Lemma preserves_wrote_update_stats P db0 team_id won draw :
  (∀ i stats, P (SetStats i stats)) →
  preserves (wrote P db0) (update_stats team_id won draw).
Proof.
  intros HP db Hdb. unfold exec.
  destruct (ObjectId_of team_id) as [j|] eqn:Hid.
  - rewrite (run_update_stats_cases _ _ _ _ _ Hid).
    destruct (find_one (db_team db) j) as [[k tm]|] eqn:Htm; [|done].
    destruct (bump (Team.stats tm) won draw) as [e|stats] eqn:Hbump; [done|].
    cbn [snd]. apply (wrote_then _ _ _ (SetStats j _)); [done..|].
    pose proof (find_one_key _ _ _ _ Htm) as ->. by exists tm, won, draw.
  - unfold update_stats. by rewrite run_bind, run_find_invalid.
Qed.

Lemma exec_read_only (db : DB) :
  (∀ country, exec (list_venues country) db = db)
  ∧ (∀ country game, exec (list_teams country game) db = db)
  ∧ (∀ team_id, exec (get_team_stats team_id) db = db)
  ∧ (∀ scope game country limit, exec (leaderboard scope game country limit) db = db).
Proof.
  split; [|split; [|split]]; intros.
  - reflexivity.
  - reflexivity.
  - unfold get_team_stats. unfold_M.
    destruct (ObjectId_of team_id) as [i|]; simpl; [|done].
    by destruct (find_one (db_team db) i) as [[k tm]|].
  - apply exec_leaderboard.
Qed.

Lemma run_create_venue db payload :
  create_venue payload db
  = (inr (Some (str (generate (fst <$> db_venue db)), payload)),
     put venue (inserted (db_venue db) payload) db).
Proof.
  unfold create_venue, inserted.
  rewrite run_bind. unfold create_document at 1, insert_one. store.
  rewrite run_bind, (run_find_by_id _ _ _ _ (ObjectId_of_str _)). store.
  by rewrite find_one_inserted.
Qed.

Lemma exec_propose db payload :
  exec (propose_challenge payload) db = db
  ∨ (present (db_team db) (ProposeChallengeRequest.challenger_team_id payload)
     ∧ present (db_team db) (ProposeChallengeRequest.opponent_team_id payload)
     ∧ exec (propose_challenge payload) db
       = put challenge (inserted (db_challenge db) (proposal payload)) db).
Proof.
  unfold exec.
  destruct (find_one_cases (db_team db) (ProposeChallengeRequest.challenger_team_id payload))
    as [Ha|(i1 & t1 & Hid1 & Ht1)].
  { left. unfold propose_challenge.
    destruct (run_find_absent team _ db Ha) as [[Hrun _]|[Hrun _]];
      rewrite run_bind, Hrun; [done|].
    destruct (ObjectId_of (ProposeChallengeRequest.opponent_team_id payload))
      as [i2|] eqn:Hid2.
    - rewrite run_bind, (run_find_by_id _ _ _ _ Hid2).
      by destruct (find_one (get team db) i2) as [[k t]|].
    - by rewrite run_bind, run_find_invalid. }
  destruct (find_one_cases (db_team db) (ProposeChallengeRequest.opponent_team_id payload))
    as [Hb|(i2 & t2 & Hid2 & Ht2)].
  { left. unfold propose_challenge.
    rewrite run_bind, (run_find_by_id _ _ _ _ Hid1). store. rewrite Ht1.
    destruct (run_find_absent team _ db Hb) as [[Hrun _]|[Hrun _]];
      by rewrite run_bind, Hrun. }
  rewrite (run_propose db payload _ _ _ _ Hid1 Hid2 Ht1 Ht2).
  repeat case_decide; [by left..|]. right.
  split; [by eapply find_one_present|]. split; [by eapply find_one_present|]. done.
Qed.

Lemma exec_absent_challenge db challenge_id :
  absent (db_challenge db) challenge_id →
  (∀ payload, exec (negotiate_challenge challenge_id payload) db = db)
  ∧ (∀ role, exec (approve_challenge challenge_id role) db = db)
  ∧ (∀ payload, exec (create_booking_for_challenge challenge_id payload) db = db)
  ∧ (∀ w a b, exec (record_match_result (RecordResultRequest.mk challenge_id w a b)) db
              = db).
Proof.
  intros Habs. unfold exec.
  unfold negotiate_challenge, approve_challenge, create_booking_for_challenge,
    record_match_result. cbn [RecordResultRequest.challenge_id].
  destruct (run_find_absent challenge challenge_id db Habs) as [[Hrun _]|[Hrun _]];
    repeat split; intros; by rewrite run_bind, Hrun.
Qed.

Lemma wrote_record db payload :
  wrote (allowed (RecordMatchResult payload)) db (exec (record_match_result payload) db).
Proof.
  destruct (find_one_cases (db_challenge db) (RecordResultRequest.challenge_id payload))
    as [Habs|(i & ch & Hid & Hch)].
  { destruct payload as [cid w a b].
    destruct (exec_absent_challenge db cid Habs) as (_ & _ & _ & ->). constructor. }
  unfold exec, record_match_result.
  rewrite run_bind, (run_find_by_id _ _ _ _ Hid). store. rewrite Hch. cbv zeta.
  destruct (bool_decide (RecordResultRequest.winner_team_id payload ∈ _));
    cbn [negb]; [|constructor].
  destruct (Challenge.venue_id ch) as [v|]; [|constructor].
  fold (match_of payload ch v).
  rewrite run_bind. unfold create_document at 1, insert_one. store.
  rewrite run_bind, (run_update_by_id _ _ _ _ _ Hid). store.
  set (P := allowed (RecordMatchResult payload)).
  match goal with
  | |- wrote _ _ (?m ?d).2 =>
      assert (preserves (wrote P db) m) as Htail; [|apply Htail]
  end.
  - apply preserves_bind.
    + assert (∀ s w d, preserves (wrote P db) (update_stats s w d)) as Hstats.
      { intros. apply preserves_wrote_update_stats. intros j st.
        right. right. by eexists _, _. }
      case_match; (apply preserves_bind; [|intros _]); apply Hstats.
    + intros _. apply preserves_bind; [apply preserves_find_by_id|].
      intros doc. apply preserves_ret.
  - apply (wrote_then _ _ (apply_write db (InsertMatch (match_of payload ch v)))
             (SetChallenge i [Challenge.set_status Challenge.completed])).
    + apply (wrote_one _ _ (InsertMatch (match_of payload ch v))).
      * left. by eexists _, _.
      * by eapply find_one_present.
    + right. left. by exists i.
    + done.
Qed.

(** Every request changes the store by writes its route allows, each
    made when the documents it refers to exist. *)
Lemma step_wrote db c : wrote (allowed c) db (step db c).
Proof.
  destruct (exec_read_only db) as (Hlv & Hlt & Hgs & Hlb).
  destruct c as [payload|country|payload|country game|team_id|payload
                 |challenge_id payload|challenge_id role|challenge_id payload
                 |booking_id confirm|payload|scope game country limit];
    cbn [step]; rewrite ?Hlv, ?Hlt, ?Hgs, ?Hlb; try constructor.
  - unfold exec. rewrite run_create_venue. by apply (wrote_one _ _ (InsertVenue payload)).
  - unfold exec. rewrite run_create_team.
    by apply (wrote_one _ _ (InsertTeam (enrolled payload))).
  - destruct (exec_propose db payload) as [->|(Ha & Hb & ->)]; [constructor|].
    by apply (wrote_one _ _ (InsertChallenge (proposal payload))).
  - destruct (find_one_cases (db_challenge db) challenge_id)
      as [Habs|(i & ch & Hid & Hch)].
    + destruct (exec_absent_challenge db challenge_id Habs) as (-> & _). constructor.
    + destruct (run_negotiate db _ _ _ payload Hid Hch) as [Hrun _].
      unfold exec. rewrite Hrun.
      apply (wrote_one _ _ (SetChallenge i (negotiation payload))); [|done].
      by exists i.
  - destruct (find_one_cases (db_challenge db) challenge_id)
      as [Habs|(i & ch & Hid & Hch)].
    + destruct (exec_absent_challenge db challenge_id Habs) as (_ & -> & _). constructor.
    + destruct (run_approve db _ _ _ role Hid Hch) as [Hrun _].
      unfold exec. rewrite Hrun.
      apply (wrote_one _ _ (SetChallenge i (approval role ch))); [|done].
      by exists i, ch.
  - destruct (find_one_cases (db_challenge db) challenge_id)
      as [Habs|(i & ch & Hid & Hch)].
    + destruct (exec_absent_challenge db challenge_id Habs) as (_ & _ & -> & _).
      constructor.
    + destruct (decide (bookable (Challenge.status ch))) as [Hs|Hs].
      * destruct (run_book_accepted db _ _ _ payload Hid Hch Hs) as [Hrun _].
        unfold exec. rewrite Hrun.
        apply (wrote_then _ _
                 (apply_write db (InsertBooking (booking_of challenge_id payload)))
                 (SetChallenge i
                    [Challenge.set_status Challenge.booked;
                     Challenge.set_venue_id (CreateBookingRequest.venue_id payload)])).
        -- apply (wrote_one _ _ (InsertBooking (booking_of challenge_id payload)));
             [by left|]. by eapply find_one_present.
        -- right. by exists i.
        -- done.
      * unfold exec. rewrite (run_book_refused db _ _ _ payload Hid Hch Hs). constructor.
  - destruct (find_one_cases (db_booking db) booking_id)
      as [Habs|(ib & bk & Hib & Hbk)].
    + unfold exec. unfold confirm_booking.
      destruct (run_find_absent booking booking_id db Habs) as [[Hrun _]|[Hrun _]];
        rewrite run_bind, Hrun; constructor.
    + destruct (run_confirm_booking db _ _ _ Hib Hbk) as (Hconfirm & Hcancel & Hbad).
      unfold exec. destruct confirm.
      * rewrite Hconfirm. apply (wrote_one _ _ (SetBooking ib Booking.confirmed)); [|done].
        left. by exists ib.
      * destruct (ObjectId_of (Booking.challenge_id bk)) as [i|] eqn:Hi.
        -- destruct (Hcancel i eq_refl) as (-> & _).
           apply (wrote_then _ _ (apply_write db (SetBooking ib Booking.cancelled))
                    (SetChallenge i [Challenge.set_status Challenge.approved])).
           ++ apply (wrote_one _ _ (SetBooking ib Booking.cancelled)); [|done].
              left. by exists ib.
           ++ right. split; [done|]. by exists i.
           ++ done.
        -- rewrite (Hbad eq_refl).
           apply (wrote_one _ _ (SetBooking ib Booking.cancelled)); [|done].
           left. by exists ib.
  - apply wrote_record.
Qed.

Lemma wrote_impl (P Q : Write → Prop) db db' :
  (∀ w, P w → Q w) → wrote P db db' → wrote Q db db'.
Proof. intros HPQ. induction 1; [constructor|]. apply wrote_then; auto. Qed.

Lemma run_wrote db calls : wrote (λ _, True) db (run db calls).
Proof.
  unfold run. revert db. induction calls as [|c calls IH]; intros db; [constructor|].
  simpl. eapply wrote_trans; [|apply IH].
  eapply wrote_impl; [|apply step_wrote]. done.
Qed.

(** ** Identifiers *)

Lemma NoDup_inserted (l : list ObjectId) : NoDup l → NoDup (l ++ [generate l]).
Proof.
  intros Hl. apply NoDup_app. split; [done|]. split; [|apply NoDup_singleton].
  intros x Hx ->%list_elem_of_singleton. by apply (generate_fresh l).
Qed.

Lemma ids_apply_write db w :
  Forall2 prefix (ids db) (ids (apply_write db w))
  ∧ (unique_ids db → unique_ids (apply_write db w)).
Proof.
  unfold unique_ids, ids.
  destruct w; cbn [apply_write]; store; unfold inserted;
    rewrite ?fmap_app, ?fst_update_one; cbn [fmap list_fmap fst].
  all: split;
    [repeat constructor; first [done | by apply prefix_app_r]
    |rewrite !Forall_cons; intros (?&?&?&?&?&_);
     repeat split; first [done | by apply NoDup_inserted | constructor]].
Qed.

(** X13: no request removes a document or changes an [_id]: after any
    sequence of requests every collection lists the identifiers it had, in
    the same order, followed by those of the documents added since; and
    identifiers that were distinct within each collection stay distinct, as
    they are in every store built from the empty one. *)
Theorem identifiers_are_kept (db : DB) (calls : list Call) :
  Forall2 prefix (ids db) (ids (run db calls))
  ∧ (unique_ids db → unique_ids (run db calls))
  ∧ unique_ids (run no_documents calls).
Proof.
  assert (∀ db db', wrote (λ _, True) db db' →
            Forall2 prefix (ids db) (ids db') ∧ (unique_ids db → unique_ids db'))
    as Hwrote.
  { clear. intros db db'. induction 1 as [|db' w Hw [IHp IHu] _ _].
    - split; [|done]. unfold ids. by repeat constructor.
    - destruct (ids_apply_write db' w) as [Hp Hu]. split; [|auto].
      clear -IHp Hp. unfold ids in *.
      repeat match goal with
             | H : Forall2 _ (_ :: _) (_ :: _) |- _ =>
                 apply Forall2_cons in H as [? H]
             end.
      repeat constructor; by etrans. }
  destruct (Hwrote db _ (run_wrote db calls)) as [Hp Hu].
  split; [exact Hp|]. split; [exact Hu|].
  apply (Hwrote no_documents _ (run_wrote _ calls)).
  unfold unique_ids, ids. cbn. repeat constructor.
Qed.

(** ** What stays of a stored document *)

Lemma set_identity (update : list Challenge.assignment) (d : Challenge.t) :
  Challenge.challenger_team_id (Challenge.set update d) = Challenge.challenger_team_id d
  ∧ Challenge.opponent_team_id (Challenge.set update d) = Challenge.opponent_team_id d
  ∧ Challenge.game (Challenge.set update d) = Challenge.game d
  ∧ Challenge.country (Challenge.set update d) = Challenge.country d.
Proof.
  unfold Challenge.set. revert d.
  induction update as [|a update IH]; intros d; [done|].
  cbn [foldl]. destruct (IH (Challenge.assign d a)) as (-> & -> & -> & ->).
  by destruct a, d.
Qed.

Lemma find_one_inserted_old {D} (c : Collection D) (d : D) i x :
  find_one c i = Some x → find_one (inserted c d) i = Some x.
Proof. intros Hc. unfold inserted. by rewrite find_one_app, Hc. Qed.

Lemma kept_refl db : kept db db.
Proof.
  repeat split; try done.
  - intros i d Hd. exists (Team.stats d). by destruct d.
  - intros i d Hd. by exists d.
  - intros i d Hd. exists (Booking.status d). by destruct d.
Qed.

Lemma kept_trans db1 db2 db3 : kept db1 db2 → kept db2 db3 → kept db1 db3.
Proof.
  intros (Hv1 & Ht1 & Hc1 & Hb1 & Hm1) (Hv2 & Ht2 & Hc2 & Hb2 & Hm2).
  repeat split.
  - auto.
  - intros i d Hd. destruct (Ht1 i d Hd) as [s1 H1]. destruct (Ht2 i _ H1) as [s2 H2].
    exists s2. rewrite H2. by destruct d.
  - intros i d Hd. destruct (Hc1 i d Hd) as (d1 & H1 & E1 & E2 & E3 & E4).
    destruct (Hc2 i d1 H1) as (d2 & H2 & F1 & F2 & F3 & F4).
    exists d2. repeat split; [done|congruence..].
  - intros i d Hd. destruct (Hb1 i d Hd) as [s1 H1]. destruct (Hb2 i _ H1) as [s2 H2].
    exists s2. rewrite H2. by destruct d.
  - auto.
Qed.

Lemma kept_apply_write db w : kept db (apply_write db w).
Proof.
  assert (∀ d : Team.t, Team.set_stats (Team.stats d) d = d) as Eteam by (by intros []).
  assert (∀ d : Booking.t, Booking.set_status (Booking.status d) d = d) as Ebooking
    by (by intros []).
  destruct w as [x|x|x|x|x|k update|k status|k stats];
    cbn [apply_write]; repeat split; intros j e He;
    store; cbn [db_team db_venue db_challenge db_booking db_match];
    try (rewrite find_one_update_one, He; case_decide; cbn [fmap option_fmap option_map
           prod_map fst snd id]);
    first
      [ done
      | by apply find_one_inserted_old
      | exists (Team.stats e); rewrite Eteam;
        first [done | by apply find_one_inserted_old]
      | exists (Booking.status e); rewrite Ebooking;
        first [done | by apply find_one_inserted_old]
      | by eexists
      | eexists; split; [first [eassumption | by apply find_one_inserted_old | done]|];
        first [done | apply set_identity] ].
Qed.

(** X14: after any sequence of requests every document that was stored is
    still stored under its identifier.  Venues and matches are as they were;
    a team differs at most in its statistics and a booking at most in its
    status; a challenge keeps its two teams, its game and its country. *)
Theorem stored_documents_are_kept (db : DB) (calls : list Call) :
  kept db (run db calls).
Proof.
  induction (run_wrote db calls) as [|db' w _ IH _ _]; [apply kept_refl|].
  eapply kept_trans; [exact IH|apply kept_apply_write].
Qed.

(** ** References between documents *)

Lemma present_inserted {D} (c : Collection D) d id_str :
  present c id_str → present (inserted c d) id_str.
Proof.
  intros (i & Hid & Hi). exists i. split; [done|].
  unfold inserted. rewrite fmap_app. apply elem_of_app. by left.
Qed.

Lemma present_update_one {D} (c : Collection D) j (f : D → D) id_str :
  present c id_str → present (update_one c j f) id_str.
Proof. intros (i & Hid & Hi). exists i. by rewrite fst_update_one. Qed.

Lemma referenced_apply_write db w :
  guarded db w → referenced db → referenced (apply_write db w).
Proof.
  intros Hg (Hc & Hb & Hm). unfold referenced.
  destruct w; cbn [apply_write guarded] in *; store.
  - done.
  - split; [|done]. eapply Forall_impl; [exact Hc|].
    intros x [? ?]. split; by apply present_inserted.
  - split; [|split].
    + unfold inserted at 1. apply Forall_app. split; [done|]. by apply Forall_singleton.
    + eapply Forall_impl; [exact Hb|]. intros x ?. by apply present_inserted.
    + eapply Forall_impl; [exact Hm|]. intros x ?. by apply present_inserted.
  - split; [done|]. split; [|done].
    unfold inserted. apply Forall_app. split; [done|]. by apply Forall_singleton.
  - split; [done|]. split; [done|].
    unfold inserted. apply Forall_app. split; [done|]. by apply Forall_singleton.
  - split; [|split].
    + apply (update_one_Forall
               (λ d, present (db_team db) (Challenge.challenger_team_id d)
                     ∧ present (db_team db) (Challenge.opponent_team_id d))); [|done].
      intros d. destruct (set_identity update d) as (-> & -> & _). done.
    + eapply Forall_impl; [exact Hb|]. intros x ?. by apply present_update_one.
    + eapply Forall_impl; [exact Hm|]. intros x ?. by apply present_update_one.
  - split; [done|]. split; [|done].
    apply (update_one_Forall (λ d, present (db_challenge db) (Booking.challenge_id d)));
      [|done].
    intros d. by destruct d.
  - split; [|done]. eapply Forall_impl; [exact Hc|].
    intros x [? ?]. split; by apply present_update_one.
Qed.

(** X15: references never dangle.  If every challenge names two stored
    teams and every booking and match a stored challenge, this is still so
    after any sequence of requests; it is so in every store built from the
    empty one. *)
Theorem references_are_kept (db : DB) (calls : list Call) :
  (referenced db → referenced (run db calls))
  ∧ referenced (run no_documents calls).
Proof.
  assert (∀ db, referenced db → referenced (run db calls)) as Hrun.
  { clear db. intros db Hdb.
    induction (run_wrote db calls) as [|db' w _ IH _ Hg]; [done|].
    by apply referenced_apply_write. }
  split; [apply Hrun|]. apply Hrun. by repeat constructor.
Qed.

Ltac break :=
  repeat match goal with
         | H : _ ∨ _ |- _ => destruct H
         | H : ∃ _, _ |- _ => destruct H
         | H : _ ∧ _ |- _ => destruct H
         | H : False |- _ => destruct H
         end.

Lemma run_wrote_by db calls :
  wrote (λ w, ∃ c, c ∈ calls ∧ allowed c w) db (run db calls).
Proof.
  unfold run. revert db. induction calls as [|c calls IH]; intros db; [constructor|].
  simpl. eapply wrote_trans.
  - eapply wrote_impl; [|apply step_wrote].
    intros w Hw. exists c. split; [apply list_elem_of_here|done].
  - eapply wrote_impl; [|apply IH].
    intros w (c' & Hc' & Hw). exists c'. split; [by apply list_elem_of_further|done].
Qed.

(** ** Statistics over a sequence of requests *)

Lemma bump_consistent s won draw s' :
  consistent s → bump s won draw = inr s' → consistent s'.
Proof.
  intros [Hok Hpoints] Hbump.
  pose proof (proj1 Hok) as Hint.
  rewrite (bump_integral _ _ _ Hint) in Hbump. injection Hbump as <-.
  split; [by apply bumped_ok|].
  destruct draw; [|destruct won].
  - destruct (bumped_draw s won Hint) as (_ & -> & _ & -> & -> & _). lia.
  - destruct (bumped_win s Hint) as (_ & -> & _ & -> & -> & _). lia.
  - destruct (bumped_loss s Hint) as (_ & -> & _ & -> & -> & _). lia.
Qed.

Lemma stats_enrolled payload : Team.stats (enrolled payload) = Team.stats payload.
Proof. unfold enrolled. by destruct (_ && _), payload. Qed.

Lemma teams_satisfy_apply_write (Q : gmap string Any → Prop) db w :
  (∀ s won draw s', Q s → bump s won draw = inr s' → Q s') →
  match w with InsertTeam d => Q (Team.stats d) | _ => True end →
  guarded db w → teams_satisfy Q db → teams_satisfy Q (apply_write db w).
Proof.
  intros Hbump Hw Hg Hdb. unfold teams_satisfy in *.
  destruct w; cbn [apply_write guarded] in *; store; try done.
  - unfold inserted. apply Forall_app. split; [done|]. by apply Forall_singleton.
  - destruct Hg as (tm & won & draw & Htm & Hstats).
    apply (update_one_Forall (λ t, Q (Team.stats t))); [|done].
    intros d _. destruct d; cbn. apply (Hbump (Team.stats tm) won draw); [|done].
    apply find_one_elem_of in Htm.
    by apply (proj1 (Forall_forall _ _) Hdb) in Htm.
Qed.

Lemma teams_satisfy_run (Q : gmap string Any → Prop) db calls :
  (∀ s won draw s', Q s → bump s won draw = inr s' → Q s') →
  Forall (registers Q) calls → teams_satisfy Q db → teams_satisfy Q (run db calls).
Proof.
  intros Hbump Hcalls Hdb.
  induction (run_wrote_by db calls) as [|db' w _ IH (c & Hc & Hw) Hg]; [done|].
  apply teams_satisfy_apply_write; [done| |done..].
  apply (proj1 (Forall_forall _ _) Hcalls) in Hc.
  destruct w; try done.
  destruct c; cbn [allowed registers] in *; break; simplify_eq.
  by rewrite stats_enrolled.
Qed.

(** X16: whatever the requests, the statistics stay consistent.  If every
    team that a request creates has non-negative counters with
    [matches = wins + losses + draws] and [points = 3 * wins + draws] (as the
    schema's default statistics have), then a store whose teams all have such
    statistics keeps them so through the requests, and every store built from
    the empty one has them. *)
Theorem statistics_stay_consistent (db : DB) (calls : list Call) :
  Forall (registers consistent) calls →
  (teams_satisfy consistent db → teams_satisfy consistent (run db calls))
  ∧ teams_satisfy consistent (run no_documents calls).
Proof.
  intros Hcalls. split.
  - by apply teams_satisfy_run; [apply bump_consistent|].
  - apply teams_satisfy_run; [apply bump_consistent|done|]. by apply Forall_nil.
Qed.

(** ** Who writes what *)

Lemma set_keeps_approvals update ch :
  forallb keeps_approvals update = true →
  Challenge.approvals (Challenge.set update ch) = Challenge.approvals ch.
Proof.
  unfold Challenge.set. revert ch.
  induction update as [|a update IH]; intros ch; [done|].
  cbn [forallb foldl]. intros [Ha Hu]%andb_true_iff.
  rewrite (IH _ Hu). by destruct a, ch.
Qed.

Lemma intact_refl part db : intact part db db.
Proof. destruct part; cbn; try done. intros i ch Hch. by exists ch. Qed.

Lemma intact_trans part db1 db2 db3 :
  intact part db1 db2 → intact part db2 db3 → intact part db1 db3.
Proof.
  destruct part; cbn; try (intros H12 H23; by (congruence || auto)).
  intros H12 H23 i ch Hch. destruct (H12 i ch Hch) as (ch' & Hch' & E).
  destruct (H23 i ch' Hch') as (ch'' & Hch'' & E'). exists ch''. split; [done|]. congruence.
Qed.

Lemma intact_apply_write part db w :
  spares part w = true → intact part db (apply_write db w).
Proof.
  destruct part, w; cbn [spares]; try done; intros Hw;
    cbn [apply_write intact]; store;
    try done;
    try (intros j e He; by apply find_one_inserted_old);
    try (intros j e He; exists e; split; [first [done | by apply find_one_inserted_old]|done]).
  intros j e He. rewrite find_one_update_one, He. case_decide; cbn.
  - eexists. split; [done|]. by apply set_keeps_approvals.
  - by exists e.
Qed.

Lemma allowed_spares part c w :
  writer part c = false → allowed c w → spares part w = true.
Proof.
  destruct part, c; cbn [writer allowed]; try done; intros _ Hw;
    break; by subst w.
Qed.

(** X17: every part of the store has its writers.  A stored team document
    is changed by no route but [record_match_result]; the approvals of a
    stored challenge by none but [negotiate_challenge] and
    [approve_challenge]; a stored booking by none but [confirm_booking]; the
    venue collection by none but [create_venue]; the match collection by
    none but [record_match_result]; and the four reading routes change
    nothing at all. *)
Theorem parts_have_their_writers (part : Part) (db : DB) (calls : list Call) :
  Forall (λ c, writer part c = false) calls → intact part db (run db calls).
Proof.
  intros Hcalls.
  induction (run_wrote_by db calls) as [|db' w _ IH (c & Hc & Hw) _];
    [apply intact_refl|].
  eapply intact_trans; [exact IH|]. apply intact_apply_write.
  apply (allowed_spares part c); [|done].
  by apply (proj1 (Forall_forall _ _) Hcalls) in Hc.
Qed.

(** ** [serialize] *)

Lemma convert_plain (v : Json.Value) : Json.plain (Json.convert v).
Proof. by destruct v. Qed.

Lemma convert_fixed (v : Json.Value) : Json.plain v → Json.convert v = v.
Proof. by destruct v. Qed.

Lemma lookup_serialize (py_str : Json.Value → string) (doc : gmap string Json.Value) k :
  Json.serialize py_str doc !! k
  = if decide (k = "_id") then None
    else if decide (k = "id")
         then match doc !! "_id" with
              | Some v => Some (Json.VStr (Json.to_str py_str v))
              | None => Json.convert <$> doc !! "id"
              end
         else Json.convert <$> doc !! k.
Proof.
  unfold Json.serialize. case_decide as Hsize.
  - apply map_size_empty_iff in Hsize as ->. rewrite !lookup_empty.
    by repeat case_decide.
  - destruct (doc !! "_id") as [v|] eqn:Hid.
    + case_decide as Hk; [subst k; by rewrite lookup_delete_eq|].
      rewrite lookup_delete_ne by done.
      case_decide as Hk'; [subst k; by rewrite lookup_insert_eq|].
      by rewrite lookup_insert_ne, lookup_fmap.
    + rewrite lookup_fmap.
      case_decide as Hk; [subst k; by rewrite Hid|].
      case_decide as Hk'; by subst.
Qed.

(** X18: [serialize] never answers with a key [_id], and the document's
    [_id] is served as the string [id], in the place of an [id] the document
    had.  Every other value is passed on under its key, an [ObjectId] as its
    string and a [datetime] as its ISO text, so that no value of the answer
    is an [ObjectId] or a [datetime] itself; a list or a dict is passed on
    as it is, with the identifiers it holds.  Serializing an answer again
    changes nothing. *)
Theorem serialize_response (py_str : Json.Value → string) (doc : gmap string Json.Value) :
  Json.serialize py_str doc !! "_id" = None
  ∧ Json.serialize py_str doc !! "id"
    = match doc !! "_id" with
      | Some v => Some (Json.VStr (Json.to_str py_str v))
      | None => Json.convert <$> doc !! "id"
      end
  ∧ (∀ k, k ≠ "_id" → k ≠ "id" →
          Json.serialize py_str doc !! k = Json.convert <$> doc !! k)
  ∧ (∀ k v, Json.serialize py_str doc !! k = Some v → Json.plain v)
  ∧ (∀ k l, k ≠ "_id" → k ≠ "id" → doc !! k = Some (Json.VList l) →
            Json.serialize py_str doc !! k = Some (Json.VList l))
  ∧ Json.serialize py_str (Json.serialize py_str doc) = Json.serialize py_str doc.
Proof.
  assert (∀ k v, Json.serialize py_str doc !! k = Some v → Json.plain v) as Hplain.
  { intros k v. rewrite lookup_serialize. repeat case_decide; [done| |].
    - destruct (doc !! "_id"); [by intros [= <-]|].
      destruct (doc !! "id"); [|done]. intros [= <-]. apply convert_plain.
    - destruct (doc !! k); [|done]. intros [= <-]. apply convert_plain. }
  split; [by rewrite lookup_serialize|].
  split; [by rewrite lookup_serialize|].
  split; [intros k ? ?; by rewrite lookup_serialize, !decide_False|].
  split; [exact Hplain|].
  split; [intros k l ? ? Hk; by rewrite lookup_serialize, !decide_False, Hk|].
  apply map_eq. intros k. rewrite (lookup_serialize _ (Json.serialize py_str doc)).
  assert (Json.convert <$> Json.serialize py_str doc !! k = Json.serialize py_str doc !! k)
    as Hfixed.
  { destruct (Json.serialize py_str doc !! k) as [v|] eqn:Hk; [|done].
    cbn. by rewrite (convert_fixed v (Hplain k v Hk)). }
  case_decide as Hk; [subst k; by rewrite lookup_serialize|].
  case_decide as Hk'; [|exact Hfixed].
  subst k. by rewrite (lookup_serialize _ doc "_id"), decide_True.
Qed.

(** ** Reading back what was created *)

Lemma run_list_venues db country :
  list_venues country db
  = (inr (serialize_list
            (arrange (filter (λ d, venue_listed country d.2 = true) (db_venue db)))), db).
Proof.
  unfold list_venues, get_documents, reading, venue_listed.
  rewrite run_bind. store. unfold mret, M_ret. do 4 f_equal.
  apply list_filter_iff. intros d. by destruct country as [c|]; cbn; [destruct (truthy c)|].
Qed.

Lemma run_list_teams db country game :
  list_teams country game db
  = (inr (serialize_list
            (arrange (filter (λ d, team_listed country game d.2 = true) (db_team db)))), db).
Proof.
  unfold list_teams, get_documents, reading, team_listed. cbv zeta.
  rewrite run_bind. store. unfold mret, M_ret. do 4 f_equal.
  apply list_filter_iff. intros d.
  destruct country as [c|], game as [g|]; cbn; try done;
    try destruct (truthy c); try destruct (truthy g); done.
Qed.

Lemma str_inj i j : str i = str j → i = j.
Proof.
  intros Heq. pose proof (ObjectId_of_str i) as Hi.
  rewrite Heq, ObjectId_of_str in Hi. by injection Hi.
Qed.

Lemma serialize_list_arrange {D} (c : Collection D) :
  serialize_list (arrange c) ≡ₚ serialize_list c.
Proof. unfold serialize_list. by rewrite arrange_Permutation. Qed.

Lemma serialize_list_inserted {D} (c : Collection D) (d : D) (keep : D → bool) :
  serialize_list (filter (λ x, keep x.2 = true) (inserted c d))
  = serialize_list (filter (λ x, keep x.2 = true) c)
    ++ (if keep d then [(str (generate (fst <$> c)), d)] else []).
Proof.
  unfold serialize_list, inserted, Collection. rewrite filter_app, fmap_app. f_equal.
  rewrite filter_cons, filter_nil. cbn [snd].
  destruct (keep d); [by rewrite decide_True|by rewrite decide_False].
Qed.

Lemma filter_all {A} (P : A → Prop) `{!∀ x, Decision (P x)} (l : list A) :
  (∀ x, P x) → filter P l = l.
Proof.
  intros HP. induction l as [|x l IH]; [done|].
  by rewrite filter_cons_True, IH.
Qed.

Lemma fresh_id_string {D} (c : Collection D) :
  str (generate (fst <$> c)) ∉ fst <$> serialize_list (arrange c).
Proof.
  rewrite serialize_list_arrange.
  unfold serialize_list. rewrite <- list_fmap_compose.
  intros ([i d] & Heq & Hin)%list_elem_of_fmap. cbn in Heq.
  apply str_inj in Heq. apply (generate_fresh (fst <$> c)).
  rewrite Heq. apply list_elem_of_fmap. by exists (i, d).
Qed.

(** X19: a venue that was created is listed.  [create_venue] answers with
    the venue under an identifier that no listed venue has; afterwards
    [list_venues] lists, in some order, the venues it listed before and the
    new venue when the venue's country is the one asked for (or none, or an
    empty one, was asked for). *)
Theorem created_venue_is_listed (db : DB) (payload : Venue.t) :
  ∃ id_str db',
    create_venue payload db = (inr (Some (id_str, payload)), db')
    ∧ (∀ listing, list_venues None db = (inr listing, db) → id_str ∉ fst <$> listing)
    ∧ ∀ country listing,
        list_venues country db = (inr listing, db) →
        ∃ listing',
          list_venues country db' = (inr listing', db')
          ∧ listing'
            ≡ₚ listing ++ if venue_listed country payload then [(id_str, payload)] else [].
Proof.
  eexists _, _. split; [apply run_create_venue|]. split.
  - intros listing. rewrite run_list_venues. intros [= <-].
    unfold Collection. rewrite filter_all by done. apply fresh_id_string.
  - intros country listing. rewrite !run_list_venues. intros [= <-]. store.
    eexists. split; [done|].
    rewrite !serialize_list_arrange.
    by rewrite (serialize_list_inserted _ _ (venue_listed country)).
Qed.

Lemma serialize_stats_plain (s : gmap string Any) :
  s !! "_id" = None → serialize_stats s = s.
Proof. intros Hs. unfold serialize_stats. rewrite Hs. by case_decide. Qed.

Lemma run_get_team_stats db team_id i tm :
  ObjectId_of team_id = Some i →
  find_one (db_team db) i = Some (i, tm) →
  get_team_stats team_id db = (inr (serialize_stats (Team.stats tm)), db).
Proof.
  intros Hid Htm. unfold get_team_stats.
  rewrite run_bind, (run_find_by_id _ _ _ _ Hid). store. by rewrite Htm.
Qed.

(** X20: a team that was created is served.  [create_team] answers with
    the team, its captain enrolled, under an identifier that no listed team
    has; [get_team_stats] on this identifier then answers the statistics of
    the request, each value as it was given when the dict has no key [_id];
    and [list_teams] lists, in some order, the teams it listed before and the
    new team when its country and game are those asked for. *)
Theorem created_team_is_served (db : DB) (payload : Team.t) :
  ∃ id_str db',
    create_team payload db = (inr (Some (id_str, enrolled payload)), db')
    ∧ (∀ listing, list_teams None None db = (inr listing, db) → id_str ∉ fst <$> listing)
    ∧ get_team_stats id_str db' = (inr (serialize_stats (Team.stats payload)), db')
    ∧ (Team.stats payload !! "_id" = None →
       serialize_stats (Team.stats payload) = Team.stats payload)
    ∧ ∀ country game listing,
        list_teams country game db = (inr listing, db) →
        ∃ listing',
          list_teams country game db' = (inr listing', db')
          ∧ listing'
            ≡ₚ listing ++ if team_listed country game (enrolled payload)
                          then [(id_str, enrolled payload)] else [].
Proof.
  eexists _, _. split; [apply run_create_team|]. split; [|split; [|split]].
  - intros listing. rewrite run_list_teams. intros [= <-].
    unfold Collection. rewrite filter_all by done. apply fresh_id_string.
  - rewrite <- stats_enrolled.
    apply (run_get_team_stats _ _ (generate (fst <$> db_team db)));
      [apply ObjectId_of_str|]. store. apply find_one_inserted.
  - apply serialize_stats_plain.
  - intros country game listing. rewrite !run_list_teams. intros [= <-]. store.
    eexists. split; [done|].
    rewrite !serialize_list_arrange.
    by rewrite <- (serialize_list_inserted _ _ (team_listed country game)).
Qed.

(** ** The leaderboard and the list of teams *)

Lemma forallb_Forall {A} (f : A → bool) (l : list A) :
  forallb f l = true ↔ Forall (λ x, f x = true) l.
Proof.
  induction l as [|x l IH]; simpl; [by split|].
  rewrite andb_true_iff, Forall_cons. by rewrite IH.
Qed.

(** X21: the leaderboard ranks the teams that [list_teams] lists.  When the
    points and wins of the listed teams are integers and the limit is not
    below their number, the rows of the global leaderboard of a game are
    those of the teams listed for this game, and the rows of the local
    leaderboard of a country those of the teams listed for the country and
    the game: one row per listed team, holding its id, name, game, country
    and statistics. *)
Theorem leaderboard_lists_the_teams
    (db : DB) (scope : Scope) (game country : option string) (limit : Z)
    (listing : list (string * Team.t)) :
  ¬ (scope = local ∧ truthy_opt country = false) →
  list_teams (match scope with local => country | global => None end) game db
  = (inr listing, db) →
  Forall (λ x, is_int (Team.stats x.2 !! "points") = true
               ∧ is_int (Team.stats x.2 !! "wins") = true) listing →
  Z.of_nat (length listing) ≤ limit →
  ∃ rows,
    leaderboard (Some scope) game country (Some limit) db = (inr rows, db)
    ∧ rows ≡ₚ row_of <$> listing.
Proof.
  intros Hscope Hlist Hint Hlimit. rewrite run_list_teams in Hlist.
  injection Hlist as <-.
  rewrite run_leaderboard. cbn [default from_option id]. rewrite decide_False by done.
  assert (filter (λ t, selected scope game country t = true) (db_team db)
          = filter (λ d : ObjectId * Team.t,
                      team_listed (match scope with local => country | global => None end)
                        game d.2 = true) (db_team db)) as ->.
  { apply list_filter_iff. intros t. unfold selected, team_listed.
    rewrite (andb_comm (match game with Some _ => _ | None => _ end)).
    destruct scope; [|done].
    destruct country as [c|]; [|by destruct Hscope].
    cbn [truthy_opt] in Hscope. destruct (truthy c); [done|by destruct Hscope]. }
  set (teams := filter _ (db_team db)) in *.
  rewrite serialize_list_arrange in Hint. unfold serialize_list in *.
  rewrite length_fmap, arrange_Permutation in Hlimit.
  assert (forallb int_key teams = true) as Hkeys.
  { apply forallb_Forall. apply Forall_fmap in Hint.
    eapply Forall_impl; [exact Hint|]. intros [i t] [Hp Hw]. unfold int_key. cbn in *.
    by rewrite Hp, Hw. }
  rewrite run_bind, (run_sort_teams _ _ Hkeys).
  eexists. split; [done|].
  rewrite slice_to_nonneg by lia.
  rewrite take_ge by (rewrite (sort_desc_Permutation sort_key teams); lia).
  rewrite (sort_desc_Permutation sort_key teams).
  rewrite arrange_Permutation, <- list_fmap_compose. reflexivity.
Qed.

Lemma lookup_around {A} (l1 l2 : list A) (x y : A) (j : nat) :
  j ≠ length l1 → (l1 ++ x :: l2) !! j = Some y → y ∈ l1 ++ l2.
Proof.
  intros Hj Hy. apply elem_of_app.
  destruct (decide (j < length l1)%nat) as [Hlt|Hge].
  - left. rewrite lookup_app_l in Hy by done. by eapply list_elem_of_lookup_2.
  - right. rewrite lookup_app_r in Hy by lia.
    destruct (j - length l1)%nat as [|m] eqn:Hm; [lia|].
    by eapply list_elem_of_lookup_2.
Qed.

Lemma int_key_kind (t : ObjectId * Team.t) : int_key t = true → kind (key t).1 = KNumber.
Proof.
  unfold int_key, key. intros [Hp _]%andb_true_iff. cbn [fst].
  by destruct (Team.stats t.2 !! "points") as [[]|].
Qed.

(** X22: one team can take the leaderboard down.  When a query selects two
    teams or more and the points of one of them are of another kind than the
    points of every other one (a string, null, a list or a dict among
    numbers, say, as [create_team] stores them when the request gives them),
    the sort raises [TypeError]: the query fails instead of answering, and
    writes nothing. *)
Theorem leaderboard_type_error
    (db : DB) (scope : option Scope) (game country : option string) (limit : option Z)
    (l1 l2 : list (ObjectId * Team.t)) (t : ObjectId * Team.t) :
  ¬ (default global scope = local ∧ truthy_opt country = false) →
  filter (λ t, selected (default global scope) game country t = true) (db_team db)
  = l1 ++ t :: l2 →
  l1 ++ l2 ≠ [] →
  Forall (λ t', kind (key t').1 ≠ kind (key t).1) (l1 ++ l2) →
  leaderboard scope game country limit db = (inl TypeError, db).
Proof.
  intros Hscope Hsel Hne Hkinds.
  rewrite run_leaderboard, decide_False by done. rewrite Hsel, run_bind.
  unfold sort_teams.
  assert (forallb int_key (l1 ++ t :: l2) = false) as ->.
  { apply not_true_is_false. intros Hall%forallb_Forall.
    destruct (l1 ++ l2) as [|t' l] eqn:Hl; [done|].
    apply Forall_cons in Hkinds as [Hkind _]. apply Hkind.
    assert (t' ∈ l1 ++ t :: l2) as Ht'.
    { assert (t' ∈ l1 ++ l2) as Hin by (rewrite Hl; apply list_elem_of_here).
      apply elem_of_app in Hin as [Hin|Hin]; apply elem_of_app; [by left|].
      right. by apply list_elem_of_further. }
    assert (t ∈ l1 ++ t :: l2) as Ht
      by (apply elem_of_app; right; apply list_elem_of_here).
    rewrite Forall_forall in Hall.
    by rewrite (int_key_kind t' (Hall _ Ht')), (int_key_kind t (Hall _ Ht)). }
  rewrite (sort_keys_TypeError (key <$> (l1 ++ t :: l2)) (length l1) (key t)); [done|..].
  - by rewrite list_lookup_fmap, list_lookup_middle.
  - rewrite length_fmap, length_app. cbn [length].
    destruct l1, l2; cbn [length] in *; try lia. done.
  - intros j k' Hj Hk'. rewrite list_lookup_fmap in Hk'.
    destruct ((l1 ++ t :: l2) !! j) as [t'|] eqn:Ht'; [|done].
    injection Hk' as <-.
    apply (lookup_around _ _ _ _ _ Hj) in Ht'.
    rewrite Forall_forall in Hkinds. by apply Hkinds.
Qed.

End Coverage.

(** * The further properties at work on the concrete store *)

(** X1 on the store of the two teams, which holds no challenge. *)
Lemma unknown_challenge_is_refused_witness :
  absent (db_challenge db_teams) "#"
  ∧ approve_challenge "#" challenger db_teams
    = (inl (HTTPException 404 "Challenge not found"), db_teams).
Proof.
  assert (absent (db_challenge db_teams) "#") as Habs by (by intros i _).
  split; [exact Habs|].
  destruct (unknown_challenge_is_refused db_teams "#" Habs) as (_ & Happrove & _).
  exact (Happrove challenger).
Defined.

(** X2 on a store without bookings. *)
Lemma unknown_booking_is_refused_witness :
  absent (db_booking db_proposed) "#"
  ∧ confirm_booking "#" true db_proposed
    = (inl (HTTPException 404 "Booking not found"), db_proposed).
Proof.
  assert (absent (db_booking db_proposed) "#") as Habs by (by intros i _).
  split; [exact Habs|].
  exact (unknown_booking_is_refused db_proposed "#" true Habs).
Defined.

(** X4: a third team cannot be the winner of Alpha against Bravo. *)
Lemma record_match_result_refusals_witness :
  ObjectId_of "#" = Some 0%nat
  ∧ find_one (db_challenge db_proposed) 0%nat = Some (0%nat, proposal request)
  ∧ record_match_result (RecordResultRequest.mk "#" "###" 3 1) db_proposed
    = (inl (HTTPException 400 "Winner must be one of the teams in the challenge"),
       db_proposed).
Proof.
  assert (find_one (db_challenge db_proposed) 0%nat = Some (0%nat, proposal request))
    as Hch by by_computation.
  split; [reflexivity|]. split; [exact Hch|].
  destruct (record_match_result_refusals db_proposed
              (RecordResultRequest.mk "#" "###" 3 1) 0%nat (proposal request) eq_refl Hch)
    as [Hwinner _].
  apply Hwinner; discriminate.
Defined.

(** X5: confirming the booking of the arena. *)
Lemma confirm_booking_effect_witness :
  ObjectId_of "#" = Some 0%nat
  ∧ find_one (db_booking db_booked) 0%nat = Some (0%nat, booking_of "#" booking_request)
  ∧ outcome (confirm_booking "#" true) db_booked
    = inr (Some ("#", Booking.set_status Booking.confirmed (booking_of "#" booking_request))).
Proof.
  assert (find_one (db_booking db_booked) 0%nat
          = Some (0%nat, booking_of "#" booking_request)) as Hbk by by_computation.
  split; [reflexivity|]. split; [exact Hbk|].
  destruct (confirm_booking_effect db_booked "#" 0%nat _ eq_refl Hbk) as [Hconfirm _].
  unfold outcome. rewrite Hconfirm. reflexivity.
Defined.

(** X6: no third team is registered. *)
Lemma update_stats_missing_team_witness :
  absent (db_team db_teams) "###"
  ∧ update_stats "###" true false db_teams = (inr (), db_teams).
Proof.
  assert (absent (db_team db_teams) "###") as Habs by (by intros i [= <-]).
  split; [exact Habs|].
  exact (update_stats_missing_team db_teams "###" true false Habs).
Defined.

(** X7: Gamma's match cannot be counted, and the result stops half way. *)
Lemma record_match_result_type_error_witness :
  find_one (db_challenge db_words) 0%nat = Some (0%nat, proposal (request_at "arena"))
  ∧ find_one (db_team db_words) 0%nat = Some (0%nat, team_C)
  ∧ Team.stats team_C !! "matches" = Some (AStr "many")
  ∧ outcome (record_match_result (RecordResultRequest.mk "#" "#" 3 1)) db_words
    = inl TypeError
  ∧ db_match db_words = []
  ∧ length (db_match (exec (record_match_result (RecordResultRequest.mk "#" "#" 3 1))
                        db_words)) = 1%nat
  ∧ db_team (exec (record_match_result (RecordResultRequest.mk "#" "#" 3 1)) db_words)
    = db_team db_words.
Proof.
  assert (find_one (db_challenge db_words) 0%nat
          = Some (0%nat, proposal (request_at "arena"))) as Hch by by_computation.
  assert (find_one (db_team db_words) 0%nat = Some (0%nat, team_C)) as Htm
    by by_computation.
  assert (Team.stats team_C !! "matches" = Some (AStr "many")) as Hx by by_computation.
  split; [exact Hch|]. split; [exact Htm|]. split; [exact Hx|].
  unfold outcome, exec.
  rewrite (record_match_result_type_error db_words
             (RecordResultRequest.mk "#" "#" 3 1) 0%nat _ "arena" 0%nat team_C _
             eq_refl Hch (list_elem_of_here _ _) eq_refl eq_refl Htm Hx eq_refl).
  by repeat split.
Defined.

(** X8: the same result sent twice. *)
Lemma record_match_result_twice_witness :
  find_one (db_challenge (db_proposed_at "arena")) 0%nat
  = Some (0%nat, proposal (request_at "arena"))
  ∧ integral (Team.stats (enrolled team_A))
  ∧ integral (Team.stats team_B)
  ∧ ∃ r db' sa sb,
      (record_match_result (RecordResultRequest.mk "#" "#" 3 1);;
       record_match_result (RecordResultRequest.mk "#" "#" 3 1)) (db_proposed_at "arena")
      = (inr r, db')
      ∧ length (db_match db') = 2%nat
      ∧ find_one (db_team db') 0%nat = Some (0%nat, Team.set_stats sa (enrolled team_A))
      ∧ find_one (db_team db') 1%nat = Some (1%nat, Team.set_stats sb team_B)
      ∧ gains (Team.stats (enrolled team_A)) sa 2 2 0 0 6
      ∧ gains (Team.stats team_B) sb 2 0 2 0 0.
Proof.
  assert (find_one (db_challenge (db_proposed_at "arena")) 0%nat
          = Some (0%nat, proposal (request_at "arena"))) as Hch by by_computation.
  assert (find_one (db_team (db_proposed_at "arena")) 0%nat = Some (0%nat, enrolled team_A))
    as Hta by by_computation.
  assert (find_one (db_team (db_proposed_at "arena")) 1%nat = Some (1%nat, team_B))
    as Htb by by_computation.
  assert ((0 : nat) ≠ 1%nat) as Hne by discriminate.
  assert (integral (Team.stats (enrolled team_A))) as Hinta by (by apply integral_forallb).
  assert (integral (Team.stats team_B)) as Hintb by (by apply integral_forallb).
  split; [exact Hch|]. split; [exact Hinta|]. split; [exact Hintb|].
  destruct (record_match_result_twice (db_proposed_at "arena")
              (RecordResultRequest.mk "#" "#" 3 1) 0%nat _ "arena" 0%nat 1%nat
              (enrolled team_A) team_B
              eq_refl Hch (list_elem_of_here _ _) eq_refl eq_refl eq_refl Hne Hta Htb
              Hinta Hintb)
    as (mid1 & mid2 & r & db' & sa & sb & Hrun & _ & Hm & Ha & Hb & Hwin & _).
  destruct Hwin as [Hga Hgb]; [discriminate|reflexivity|].
  exists r, db', sa, sb. split; [exact Hrun|]. split; [by rewrite Hm|].
  split; [exact Ha|]. split; [exact Hb|]. split; assumption.
Defined.

(** X9: challenger first, opponent second. *)
Lemma approve_both_roles_witness :
  find_one (db_challenge db_proposed) 0%nat = Some (0%nat, proposal request)
  ∧ challenger ≠ opponent
  ∧ ∃ ch',
      outcome (approve_challenge "#" challenger;; approve_challenge "#" opponent) db_proposed
      = inr (Some ("#", ch'))
      ∧ Challenge.status ch' = Challenge.approved
      ∧ both_approved ch' = true.
Proof.
  assert (find_one (db_challenge db_proposed) 0%nat = Some (0%nat, proposal request))
    as Hch by by_computation.
  assert (challenger ≠ opponent) as Hne by discriminate.
  split; [exact Hch|]. split; [exact Hne|].
  destruct (approve_both_roles db_proposed "#" 0%nat _ challenger opponent eq_refl Hch Hne)
    as (ch' & Hout & _ & Hst & Hboth & _).
  exists ch'. split; [exact Hout|]. split; assumption.
Defined.

(** X12: the arena booked, booked again, cancelled and booked anew. *)
Lemma booking_life_cycle_witness :
  find_one (db_challenge db_proposed) 0%nat = Some (0%nat, proposal request)
  ∧ bookable (Challenge.status (proposal request))
  ∧ create_booking_for_challenge "#" booking_request db_booked
    = (inl (HTTPException 400 "Challenge not eligible for booking"), db_booked)
  ∧ ∃ r db3,
      create_booking_for_challenge "#" booking_request db_cancelled = (inr r, db3)
      ∧ length (db_booking db3) = 2%nat.
Proof.
  assert (find_one (db_challenge db_proposed) 0%nat = Some (0%nat, proposal request))
    as Hch by by_computation.
  assert (bookable (Challenge.status (proposal request))) as Hs
    by (by apply (bool_decide_unpack _)).
  split; [exact Hch|]. split; [exact Hs|].
  destruct (booking_life_cycle db_proposed "#" 0%nat _ booking_request booking_request
              eq_refl Hch Hs) as (Hagain & _ & Hcancel).
  split; [exact Hagain|].
  destruct (Hcancel db_cancelled eq_refl)
    as (_ & bid2 & r & db3 & ch3 & Hrun & _ & Hbk & _).
  exists r, db3. split; [exact Hrun|]. by rewrite Hbk.
Defined.

(** X16 over a season of two results, a win of Alpha and a draw. *)
Lemma statistics_stay_consistent_witness :
  Forall (registers consistent) season
  ∧ teams_satisfy consistent (run empty_db season)
  ∧ (λ x, get0 (Team.stats x.2) "matches") <$> db_team (run empty_db season) = [2; 2].
Proof.
  assert (consistent Team.default_stats) as Hdefault
    by (split; [split; [by apply integral_forallb|]|]; by vm_compute).
  assert (Forall (registers consistent) season) as Hcalls
    by (unfold season;
        repeat (apply Forall_cons; split;
                [cbn [registers]; first [exact I | exact Hdefault]|]);
        constructor).
  split; [exact Hcalls|]. split; [|by_computation].
  exact (proj2 (statistics_stay_consistent empty_db season Hcalls)).
Defined.

(** X17: booking and cancelling leave the teams as they were. *)
Lemma parts_have_their_writers_witness :
  Forall (λ c, writer TeamDocuments c = false) booking_dance
  ∧ find_one (db_team db_teams) 0%nat = Some (0%nat, enrolled team_A)
  ∧ find_one (db_team (run db_teams booking_dance)) 0%nat = Some (0%nat, enrolled team_A).
Proof.
  assert (Forall (λ c, writer TeamDocuments c = false) booking_dance) as Hcalls
    by (unfold booking_dance;
        repeat (apply Forall_cons; split; [reflexivity|]); constructor).
  assert (find_one (db_team db_teams) 0%nat = Some (0%nat, enrolled team_A)) as Hteam
    by by_computation.
  split; [exact Hcalls|]. split; [exact Hteam|].
  exact (parts_have_their_writers TeamDocuments db_teams booking_dance Hcalls _ _ Hteam).
Defined.

(** X21 after Alpha's win. *)
Lemma leaderboard_lists_the_teams_witness :
  ¬ (global = local ∧ truthy_opt None = false)
  ∧ list_teams None (Some "valkyrie") db_completed
    = (inr [("#", Team.set_stats (bumped Team.default_stats true false) (enrolled team_A));
            ("##", Team.set_stats (bumped Team.default_stats false false) team_B)],
       db_completed)
  ∧ ∃ rows,
      leaderboard (Some global) (Some "valkyrie") None (Some 2) db_completed
      = (inr rows, db_completed)
      ∧ length rows = 2%nat.
Proof.
  assert (¬ (global = local ∧ truthy_opt None = false)) as Hscope by (by intros [? _]).
  assert (list_teams None (Some "valkyrie") db_completed
          = (inr [("#", Team.set_stats (bumped Team.default_stats true false)
                          (enrolled team_A));
                  ("##", Team.set_stats (bumped Team.default_stats false false) team_B)],
             db_completed)) as Hlist by by_computation.
  split; [exact Hscope|]. split; [exact Hlist|].
  destruct (leaderboard_lists_the_teams db_completed global (Some "valkyrie") None 2 _
              Hscope Hlist) as (rows & Hrun & Hrows);
    [by repeat (apply Forall_cons; split; [split|]); try apply Forall_nil|done|].
  exists rows. split; [exact Hrun|]. by rewrite Hrows.
Defined.

(** X22: Delta's points are a string, Bravo's a number. *)
Lemma leaderboard_type_error_witness :
  filter (λ t, selected global None None t = true) (db_team db_delta)
  = [] ++ (0%nat, team_D) :: [(1%nat, team_B)]
  ∧ kind (key (1%nat, team_B)).1 ≠ kind (key (0%nat, team_D)).1
  ∧ leaderboard None None None None db_delta = (inl TypeError, db_delta).
Proof.
  assert (filter (λ t, selected global None None t = true) (db_team db_delta)
          = [] ++ (0%nat, team_D) :: [(1%nat, team_B)]) as Hsel by by_computation.
  assert (kind (key (1%nat, team_B)).1 ≠ kind (key (0%nat, team_D)).1) as Hkind
    by discriminate.
  split; [exact Hsel|]. split; [exact Hkind|].
  apply (leaderboard_type_error db_delta None None None None [] [(1%nat, team_B)]
           (0%nat, team_D)).
  - by intros [[=] _].
  - exact Hsel.
  - discriminate.
  - apply Forall_cons. split; [exact Hkind|apply Forall_nil_2].
Defined.
